(** * Registry synchronisation and import engine of the DIN portal

    A shallow embedding of the CSV import of [pages/AdminPortal.tsx]
    ([parseCSVLine], [handleMasterSync]) and of the registry coordinator of
    the application shell ([boot], [syncToCloud], [handleMassImport],
    [handleRegister], [userFiles]), followed by the properties of the
    registry specification that were checked against it.

    Conventions of the embedding.
    - A JavaScript string is a [string]: the sequence of bytes of its UTF-8
      form.  Every character the program inspects (comma, quote, digits,
      [X], parentheses, the letters of the header aliases) is ASCII, and an
      ASCII byte never occurs inside a multi-byte sequence, so the character
      tests of the source are byte tests here.  The white space that [trim]
      and [parseFloat] skip is every [WhiteSpace] and [LineTerminator] code
      point, recognised by its bytes; a lead byte never occurs inside a
      sequence either, so a match of the bytes of a code point is that code
      point.  Case mapping is exact wherever the image of a code point holds
      an ASCII character; see [toLowerCase].
    - A JavaScript number holding money is a binary64 [float]; counters and
      time stamps are integers of [Z].
    - [undefined] is [None]; a record stands for an object that carries each
      of its properties, some of them with the value [undefined].
    - A [Map] is an association list in insertion order. *)

From Stdlib Require Import ZArith List String Ascii Bool Lia.
From Stdlib Require Import PrimFloat SpecFloat FloatOps.
From Stdlib Require Import DecimalString.
Import ListNotations.

Set Implicit Arguments.

Local Open Scope string_scope.
Local Open Scope list_scope.

(** ** JavaScript strings *)

Module Js.

Definition code (c : ascii) : nat := nat_of_ascii c.

Definition dquote : ascii := ascii_of_nat 34.
Definition LF : ascii := ascii_of_nat 10.
Definition CR : ascii := ascii_of_nat 13.

(** [WhiteSpace] and [LineTerminator], by the length of the UTF-8 form.
    One byte: TAB, LF, VT, FF, CR and SP. *)
Definition is_space (c : ascii) : bool :=
  let n := code c in
  ((9 <=? n)%nat && (n <=? 13)%nat) || (n =? 32)%nat.

(** Two bytes: U+00A0 (C2 A0). *)
Definition is_space2 (a b : ascii) : bool :=
  ((code a =? 194) && (code b =? 160))%nat.

(** Three bytes: U+1680 (E1 9A 80), U+2000 to U+200A (E2 80 80 to 8A),
    U+2028 and U+2029 (E2 80 A8, A9), U+202F (E2 80 AF), U+205F (E2 81 9F),
    U+3000 (E3 80 80) and U+FEFF (EF BB BF). *)
Definition is_space3 (a b c : ascii) : bool :=
  let x := code a in
  let y := code b in
  let z := code c in
  ((x =? 225) && (y =? 154) && (z =? 128)
   || (x =? 226) && (y =? 128)
      && ((128 <=? z) && (z <=? 138) || (z =? 168) || (z =? 169) || (z =? 175))
   || (x =? 226) && (y =? 129) && (z =? 159)
   || (x =? 227) && (y =? 128) && (z =? 128)
   || (x =? 239) && (y =? 187) && (z =? 191))%nat.

Definition is_digit (c : ascii) : bool :=
  let n := code c in (48 <=? n)%nat && (n <=? 57)%nat.

(** Case mapping.  Within ASCII it exchanges [a-z] and [A-Z]. *)
Definition lower (c : ascii) : ascii :=
  let n := code c in
  if (65 <=? n)%nat && (n <=? 90)%nat then ascii_of_nat (n + 32) else c.

Definition upper (c : ascii) : ascii :=
  let n := code c in
  if (97 <=? n)%nat && (n <=? 122)%nat then ascii_of_nat (n - 32) else c.

Definition bytes (l : list nat) : string :=
  fold_right (fun n s => String (ascii_of_nat n) s) EmptyString l.

(** Beyond ASCII, the code points whose lower-case form holds an ASCII
    character: U+0130 (C4 B0) gives [i] and U+0307, and U+212A, the Kelvin
    sign (E2 84 AA), gives [k]. *)
Definition lower2 (a b : ascii) : option string :=
  if ((code a =? 196) && (code b =? 176))%nat then Some (bytes [105; 204; 135])
  else None.

Definition lower3 (a b c : ascii) : option string :=
  if ((code a =? 226) && (code b =? 132) && (code c =? 170))%nat then Some "k"
  else None.

(** Beyond ASCII, the code points whose upper-case form holds an ASCII
    character: U+00DF gives [SS], U+0131 [I], U+0149 U+02BC and [N], U+017F
    [S], U+01F0 [J] and U+030C; U+1E96 to U+1E9A give [H], [T], [W], [Y],
    [A] with a mark; the ligatures U+FB00 to U+FB06 give [FF], [FI], [FL],
    [FFI], [FFL], [ST], [ST]. *)
Definition upper2 (a b : ascii) : option string :=
  let x := code a in
  let y := code b in
  if ((x =? 195) && (y =? 159))%nat then Some "SS"
  else if ((x =? 196) && (y =? 177))%nat then Some "I"
  else if ((x =? 197) && (y =? 137))%nat then Some (bytes [202; 188; 78])
  else if ((x =? 197) && (y =? 191))%nat then Some "S"
  else if ((x =? 199) && (y =? 176))%nat then Some (bytes [74; 204; 140])
  else None.

Definition upper3 (a b c : ascii) : option string :=
  let x := code a in
  let y := code b in
  let z := code c in
  if ((x =? 225) && (y =? 186))%nat then
    if (z =? 150)%nat then Some (bytes [72; 204; 177])
    else if (z =? 151)%nat then Some (bytes [84; 204; 136])
    else if (z =? 152)%nat then Some (bytes [87; 204; 138])
    else if (z =? 153)%nat then Some (bytes [89; 204; 138])
    else if (z =? 154)%nat then Some (bytes [65; 202; 190])
    else None
  else if ((x =? 239) && (y =? 172))%nat then
    if (z =? 128)%nat then Some "FF"
    else if (z =? 129)%nat then Some "FI"
    else if (z =? 130)%nat then Some "FL"
    else if (z =? 131)%nat then Some "FFI"
    else if (z =? 132)%nat then Some "FFL"
    else if (z =? 133)%nat then Some "ST"
    else if (z =? 134)%nat then Some "ST"
    else None
  else None.

(** A case mapping over the bytes of a string: [f2] and [f3] give the image
    of a code point of two or three bytes that has one of its own, [f1] maps
    the remaining bytes one by one. *)
Fixpoint map_case (f1 : ascii -> ascii) (f2 : ascii -> ascii -> option string)
    (f3 : ascii -> ascii -> ascii -> option string) (s : string) : string :=
  match s with
  | EmptyString => EmptyString
  | String a r1 =>
      match r1 with
      | String b r2 =>
          match f2 a b with
          | Some image => (image ++ map_case f1 f2 f3 r2)%string
          | None =>
              match r2 with
              | String c r3 =>
                  match f3 a b c with
                  | Some image => (image ++ map_case f1 f2 f3 r3)%string
                  | None => String (f1 a) (map_case f1 f2 f3 r1)
                  end
              | EmptyString => String (f1 a) (map_case f1 f2 f3 r1)
              end
          end
      | EmptyString => String (f1 a) EmptyString
      end
  end.

(** [s.toLowerCase()] and [s.toUpperCase()].  A code point beyond ASCII that
    is not listed above is carried as it is: its image holds no ASCII
    character either, and the program does nothing with a result but compare
    it with an ASCII text (the header aliases, [NULL]), so that every test of
    the source has the answer it has with the full mapping. *)
Definition toLowerCase : string -> string := map_case lower lower2 lower3.
Definition toUpperCase : string -> string := map_case upper upper2 upper3.

(** [s.replace(/[^...]/g, '')] keeps the characters of the class;
    [s.replace(/[...]/g, '')] keeps the others. *)
Fixpoint keep (p : ascii -> bool) (s : string) : string :=
  match s with
  | EmptyString => EmptyString
  | String c s' => if p c then String c (keep p s') else keep p s'
  end.

Definition remove (p : ascii -> bool) : string -> string :=
  keep (fun c => negb (p c)).

(** The rest of [s] after the white space code point it starts with, if it
    starts with one. *)
Definition skip_space (s : string) : option string :=
  match s with
  | String a r1 =>
      if is_space a then Some r1
      else
        match r1 with
        | String b r2 =>
            if is_space2 a b then Some r2
            else
              match r2 with
              | String c r3 => if is_space3 a b c then Some r3 else None
              | EmptyString => None
              end
        | EmptyString => None
        end
  | EmptyString => None
  end.

Fixpoint trimStart (s : string) : string :=
  match s with
  | EmptyString => EmptyString
  | String a r1 =>
      if is_space a then trimStart r1
      else
        match r1 with
        | String b r2 =>
            if is_space2 a b then trimStart r2
            else
              match r2 with
              | String c r3 => if is_space3 a b c then trimStart r3 else s
              | EmptyString => s
              end
        | EmptyString => s
        end
  end.

(** The string without the longest suffix made of white space only: the
    scan stops at the first position from which nothing but white space
    follows. *)
Fixpoint trimEnd (s : string) : string :=
  match s with
  | EmptyString => EmptyString
  | String c s' =>
      match trimStart s with
      | EmptyString => EmptyString
      | _ => String c (trimEnd s')
      end
  end.

Definition trim (s : string) : string := trimEnd (trimStart s).

Definition is_empty (s : string) : bool :=
  match s with EmptyString => true | _ => false end.

(** [x || d] on a value that is a string or [undefined]: the empty string
    and [undefined] are the falsy ones. *)
Definition or_else (x : option string) (d : string) : string :=
  match x with
  | Some s => if is_empty s then d else s
  | None => d
  end.

(** [arr.indexOf(x)], with [None] for [-1]. *)
Fixpoint indexOf (x : string) (arr : list string) : option nat :=
  match arr with
  | [] => None
  | y :: arr' =>
      if String.eqb y x then Some 0%nat
      else option_map S (indexOf x arr')
  end.

Definition starts_with_LF (s : string) : bool :=
  match s with
  | String c _ => Ascii.eqb c LF
  | EmptyString => false
  end.

(** [text.split(/\r?\n/)]: a line feed ends a line, and a carriage return
    that stands immediately before it belongs to the separator. *)
Fixpoint split_lines_from (cur : string) (s : string) : list string :=
  match s with
  | EmptyString => [cur]
  | String c rest =>
      if Ascii.eqb c LF then cur :: split_lines_from "" rest
      else if Ascii.eqb c CR && starts_with_LF rest then split_lines_from cur rest
      else split_lines_from (cur ++ String c "")%string rest
  end.

Definition split_lines : string -> list string := split_lines_from "".

(** [text.replace(/^\uFEFF/, '')]: U+FEFF is the three bytes EF BB BF. *)
Definition stripBOM (text : string) : string :=
  match text with
  | String a (String b (String c rest)) =>
      if ((code a =? 239) && (code b =? 187) && (code c =? 191))%nat
      then rest else text
  | _ => text
  end.

(** The decimal form of a collection size, as a template literal prints it. *)
Definition of_nat (n : nat) : string :=
  NilEmpty.string_of_uint (Nat.to_uint n).

End Js.

(** ** JavaScript numbers: [parseFloat] and [||] *)

Module Num.

Import Js.

Local Open Scope Z_scope.

(** The binary64 nearest to [m * 10^k], ties to even, for [0 <= m], which is
    what the engines return for a decimal literal (the language standard also
    lets them round a literal of more than 20 significant digits at the
    20th).  For a negative [k] the quotient of the two integers is rounded
    once, by the division of the IEEE specification applied to the exact
    operands. *)
Definition of_decimal (m k : Z) : float :=
  if m =? 0 then PrimFloat.zero
  else if 0 <=? k then
    SF2Prim (binary_normalize prec emax (m * 10 ^ k) 0 false)
  else
    SF2Prim (SFdiv prec emax
               (S754_finite false (Z.to_pos m) 0)
               (S754_finite false (Z.to_pos (10 ^ (- k))) 0)).

Definition digit_value (c : ascii) : Z := Z.of_nat (code c) - 48.

(** The longest run of decimal digits at the head of [s]: its value, its
    length, and what follows it. *)
Fixpoint digits_from (acc : Z) (len : nat) (s : string) : Z * nat * string :=
  match s with
  | String c s' =>
      if is_digit c then digits_from (10 * acc + digit_value c) (S len) s'
      else (acc, len, s)
  | EmptyString => (acc, len, s)
  end.

Definition digits (s : string) : Z * nat * string := digits_from 0 0%nat s.

Fixpoint strip_prefix (p s : string) : option string :=
  match p, s with
  | EmptyString, _ => Some s
  | String a p', String b s' => if Ascii.eqb a b then strip_prefix p' s' else None
  | String _ _, EmptyString => None
  end.

(** [ExponentPart]: [e] or [E], an optional sign, and at least one digit;
    when it is not complete it is not part of the literal and counts 0. *)
Definition exponent (s : string) : Z :=
  match s with
  | String c s' =>
      if Ascii.eqb c "e" || Ascii.eqb c "E" then
        match s' with
        | String sg s'' =>
            if Ascii.eqb sg "-" then
              let '(v, n, _) := digits s'' in
              if (n =? 0)%nat then 0 else - v
            else if Ascii.eqb sg "+" then
              let '(v, n, _) := digits s'' in
              if (n =? 0)%nat then 0 else v
            else
              let '(v, n, _) := digits s' in
              if (n =? 0)%nat then 0 else v
        | EmptyString => 0
        end
      else 0
  | EmptyString => 0
  end.

(** The value of the longest prefix of [s] that is a
    [StrUnsignedDecimalLiteral], or [NaN] when there is none. *)
Definition unsigned_literal (s : string) : float :=
  match strip_prefix "Infinity" s with
  | Some _ => infinity
  | None =>
      let '(ip, ilen, r1) := digits s in
      match r1 with
      | String "."%char r2 =>
          let '(fp, flen, r3) := digits_from ip 0%nat r2 in
          if ((ilen =? 0) && (flen =? 0))%nat then nan
          else of_decimal fp (exponent r3 - Z.of_nat flen)
      | _ =>
          if (ilen =? 0)%nat then nan
          else of_decimal ip (exponent r1)
      end
  end.

(** [parseFloat(s)]. *)
Definition parseFloat (s : string) : float :=
  match trimStart s with
  | String "-"%char r => PrimFloat.opp (unsigned_literal r)
  | String "+"%char r => unsigned_literal r
  | t => unsigned_literal t
  end.

(** [x || 0] on a number: [NaN], [+0] and [-0] are the falsy ones. *)
Definition or_zero (x : float) : float :=
  if PrimFloat.is_nan x || PrimFloat.is_zero x then PrimFloat.zero else x.

Definition is_comma (c : ascii) : bool := Ascii.eqb c ",".
Definition is_paren (c : ascii) : bool := Ascii.eqb c "(" || Ascii.eqb c ")".

End Num.

(** ** The import of [AdminPortal.tsx] *)

(** [parseVal] of [handleMasterSync]. *)
Definition parseVal (v : option string) : float :=
  match v with
  | None => PrimFloat.zero
  | Some s =>
      if Js.is_empty s || String.eqb (Js.toUpperCase s) "NULL" || String.eqb s "-"
      then PrimFloat.zero
      else Num.or_zero (Num.parseFloat (Js.remove Num.is_paren (Js.remove Num.is_comma s)))
  end.

(** ** The domain records

    [types.ts] is not part of the sources at hand; the fields are those of
    the object literals of [handleMasterSync].  A record stands for an
    object that carries every one of its properties, as those literals do; a
    property of a member other than [cnic] (which the program dereferences
    without a guard) may hold [undefined]. *)

Module User.
Record t := mk {
  id : option string;
  cnic : string;
  name : option string;
  email : option string;
  phone : option string;
  role : option string;
  status : option string;
  password : option string
}.
End User.

Module Transaction.
Record t := mk {
  seq : Z;
  transid : Z;
  line_id : Z;
  shortname : string;
  duedate : string;
  receivable : float;
  u_intno : float;
  u_intname : string;
  transtype : string;
  itemcode : string;
  plottype : string;
  currency : string;
  description : string;
  doctotal : float;
  status : string;
  balance : float;
  balduedeb : float;
  paysrc : Z;
  amount_paid : float;
  receipt_date : option string;
  mode : option string;
  surcharge : float
}.
End Transaction.

Module PropertyFile.
Record t := mk {
  fileNo : string;
  currencyNo : string;
  plotSize : string;
  plotValue : float;
  balance : float;
  receivable : float;
  totalReceivable : float;
  paymentReceived : float;
  surcharge : float;
  overdue : float;
  ownerName : option string;
  ownerCNIC : string;
  fatherName : string;
  cellNo : string;
  regDate : string;
  address : string;
  plotNo : string;
  block : string;
  park : string;
  corner : string;
  mainBoulevard : string;
  transactions : list Transaction.t
}.
End PropertyFile.

(** What [onImportFullDatabase] receives. *)
Record ImportData := mkData {
  data_users : list User.t;
  data_files : list PropertyFile.t
}.

(** ** [Map], in insertion order *)

Section JsMap.

Variable V : Type.

Definition jsmap := list (string * V).

Fixpoint map_get (k : string) (m : jsmap) : option V :=
  match m with
  | [] => None
  | (k', v) :: m' => if String.eqb k' k then Some v else map_get k m'
  end.

Definition map_has (k : string) (m : jsmap) : bool :=
  match map_get k m with Some _ => true | None => false end.

(** [m.set(k, v)]: a key that is present keeps its place; a new key goes
    to the end. *)
Fixpoint map_set (k : string) (v : V) (m : jsmap) : jsmap :=
  match m with
  | [] => [(k, v)]
  | (k', v') :: m' =>
      if String.eqb k' k then (k, v) :: m' else (k', v') :: map_set k v m'
  end.

(** [new Map(pairs)] and [pairs.forEach(p => m.set(...))]. *)
Definition map_set_all (pairs : list (string * V)) (m : jsmap) : jsmap :=
  fold_left (fun acc p => map_set (fst p) (snd p) acc) pairs m.

Definition map_keys (m : jsmap) : list string := map fst m.

(** [Array.from(m.values())]. *)
Definition map_values (m : jsmap) : list V := map snd m.

End JsMap.

(** [arr.forEach((x, idx) => ...)] threading the state the callback mutates. *)
Fixpoint forEach_from (A St : Type) (f : St -> nat -> A -> St) (i : nat) (l : list A)
    (s : St) : St :=
  match l with
  | [] => s
  | x :: l' => forEach_from f (S i) l' (f s i x)
  end.

(** ** [parseCSVLine] *)

Fixpoint parseCSVLine_from (columns : list string) (cur : string) (inQ : bool)
    (line : string) : list string :=
  match line with
  | EmptyString => columns ++ [Js.trim cur]
  | String char rest =>
      if Ascii.eqb char Js.dquote then parseCSVLine_from columns cur (negb inQ) rest
      else if Ascii.eqb char "," && negb inQ
      then parseCSVLine_from (columns ++ [Js.trim cur]) "" inQ rest
      else parseCSVLine_from columns (cur ++ String char "")%string inQ rest
  end.

Definition parseCSVLine (line : string) : list string :=
  parseCSVLine_from [] "" false line.

(** ** Identity normalisation: [cnic.replace(/[^0-9X]/g, '')] *)

Definition is_cnic_char (c : ascii) : bool := Js.is_digit c || Ascii.eqb c "X".

Definition normCNIC (raw : string) : string := Js.keep is_cnic_char raw.

(** ** The body of [handleMasterSync] *)

Section ImportBody.

(** [Date.now()] as read while the row of a given index is processed. *)
Variable now : nat -> Z.

(** The trimmed, lower-cased header row. *)
Variable normH : list string.

Fixpoint getIdx (names : list string) : option nat :=
  match names with
  | [] => None
  | n :: names' =>
      match Js.indexOf (Js.toLowerCase n) normH with
      | Some i => Some i
      | None => getIdx names'
      end
  end.

(** [arr[i]?.trim()] when the column is resolved, [undefined] otherwise. *)
Definition col (arr : list string) (names : list string) : option string :=
  match getIdx names with
  | Some i => option_map Js.trim (nth_error arr i)
  | None => None
  end.

Definition rawCNIC_of (cols : list string) : string :=
  Js.or_else (col cols ["ocnic"; "cnic"; "u_ocnic"]) "".

Definition itemCode_of (cols : list string) : string :=
  Js.or_else (col cols ["itemcode"; "item_code"; "u_itemcode"]) "".

Definition paidVal_of (cols : list string) : float :=
  parseVal (col cols ["reconsum"; "paid"]).

Definition osVal_of (cols : list string) : float :=
  parseVal (col cols ["balduedeb"; "balance"]).

Definition newUser (cols : list string) : User.t :=
  let rawCNIC := rawCNIC_of cols in
  let normCNIC := normCNIC rawCNIC in
  {| User.id := Some ("user-" ++ normCNIC)%string;
     User.cnic := rawCNIC;
     User.name := Some (Js.or_else (col cols ["oname"; "ownername"; "name"]) "SAP Member");
     User.email := Some (normCNIC ++ "@dinproperties.com.pk")%string;
     User.phone := Some (Js.or_else (col cols ["ocell"; "cellno"]) "-");
     User.role := Some "CLIENT";
     User.status := Some "Active";
     User.password := Some "password123" |}.

Definition newFile (cols : list string) (ownerName : option string) : PropertyFile.t :=
  {| PropertyFile.fileNo := itemCode_of cols;
     PropertyFile.currencyNo := Js.or_else (col cols ["currencyno"; "currency"]) "-";
     PropertyFile.plotSize := Js.or_else (col cols ["dscription"; "description"; "size"]) "Plot";
     PropertyFile.plotValue := parseVal (col cols ["doctotal"]);
     PropertyFile.balance := 0;
     PropertyFile.receivable := 0;
     PropertyFile.totalReceivable := 0;
     PropertyFile.paymentReceived := 0;
     PropertyFile.surcharge := 0;
     PropertyFile.overdue := 0;
     PropertyFile.ownerName := ownerName;
     PropertyFile.ownerCNIC := rawCNIC_of cols;
     PropertyFile.fatherName := Js.or_else (col cols ["ofatname"; "fathername"]) "-";
     PropertyFile.cellNo := Js.or_else (col cols ["ocell"; "cellno"]) "-";
     PropertyFile.regDate := Js.or_else (col cols ["otrfdate"; "regdate"]) "-";
     PropertyFile.address := Js.or_else (col cols ["opraddress"; "address"]) "-";
     PropertyFile.plotNo := Js.or_else (col cols ["plot"; "plotno"; "u_plotno"]) "-";
     PropertyFile.block := Js.or_else (col cols ["block"; "u_block"]) "-";
     PropertyFile.park := Js.or_else (col cols ["park"; "u_park"]) "-";
     PropertyFile.corner := Js.or_else (col cols ["corner"; "u_corner"]) "-";
     PropertyFile.mainBoulevard := Js.or_else (col cols ["mb"; "mainboulevard"; "u_mainbu"]) "-";
     PropertyFile.transactions := [] |}.

(** The record pushed on [prop.transactions] for the row of index [idx];
    [plotValue] is [prop.plotValue]. *)
Definition newTransaction (idx : nat) (cols : list string) (plotValue : float)
    : Transaction.t :=
  {| Transaction.seq := Z.of_nat idx;
     Transaction.transid := (now idx + Z.of_nat idx)%Z;
     Transaction.line_id := 0%Z;
     Transaction.shortname := itemCode_of cols;
     Transaction.duedate := Js.or_else (col cols ["duedate"]) "-";
     Transaction.receivable := parseVal (col cols ["receivable"]);
     Transaction.u_intno := parseVal (col cols ["u_intno"]);
     Transaction.u_intname := Js.or_else (col cols ["u_intname"]) "INSTALLMENT";
     Transaction.transtype := "13";
     Transaction.itemcode := itemCode_of cols;
     Transaction.plottype := "Res";
     Transaction.currency := "PKR";
     Transaction.description := "";
     Transaction.doctotal := plotValue;
     Transaction.status := "Synced";
     Transaction.balance := 0;
     Transaction.balduedeb := osVal_of cols;
     Transaction.paysrc := 0%Z;
     Transaction.amount_paid := paidVal_of cols;
     Transaction.receipt_date := col cols ["refdate"];
     Transaction.mode := col cols ["mode"];
     Transaction.surcharge := parseVal (col cols ["markup"; "surcharge"]) |}.

(** [prop.paymentReceived += paidVal; prop.balance += osVal;
    prop.transactions.push(...)] on the account object held by the map. *)
Definition post (idx : nat) (cols : list string) (prop : PropertyFile.t)
    : PropertyFile.t :=
  {| PropertyFile.fileNo := PropertyFile.fileNo prop;
     PropertyFile.currencyNo := PropertyFile.currencyNo prop;
     PropertyFile.plotSize := PropertyFile.plotSize prop;
     PropertyFile.plotValue := PropertyFile.plotValue prop;
     PropertyFile.balance := PropertyFile.balance prop + osVal_of cols;
     PropertyFile.receivable := PropertyFile.receivable prop;
     PropertyFile.totalReceivable := PropertyFile.totalReceivable prop;
     PropertyFile.paymentReceived := PropertyFile.paymentReceived prop + paidVal_of cols;
     PropertyFile.surcharge := PropertyFile.surcharge prop;
     PropertyFile.overdue := PropertyFile.overdue prop;
     PropertyFile.ownerName := PropertyFile.ownerName prop;
     PropertyFile.ownerCNIC := PropertyFile.ownerCNIC prop;
     PropertyFile.fatherName := PropertyFile.fatherName prop;
     PropertyFile.cellNo := PropertyFile.cellNo prop;
     PropertyFile.regDate := PropertyFile.regDate prop;
     PropertyFile.address := PropertyFile.address prop;
     PropertyFile.plotNo := PropertyFile.plotNo prop;
     PropertyFile.block := PropertyFile.block prop;
     PropertyFile.park := PropertyFile.park prop;
     PropertyFile.corner := PropertyFile.corner prop;
     PropertyFile.mainBoulevard := PropertyFile.mainBoulevard prop;
     PropertyFile.transactions :=
       PropertyFile.transactions prop
         ++ [newTransaction idx cols (PropertyFile.plotValue prop)] |}.

(** [userMap] and [fileMap]. *)
Definition maps : Type := jsmap User.t * jsmap PropertyFile.t.

(** A row contributes when both its normalised identity and its account
    code are non-empty; the callback returns early on the others. *)
Definition contributes (cols : list string) : bool :=
  negb (Js.is_empty (normCNIC (rawCNIC_of cols)) || Js.is_empty (itemCode_of cols)).

(** The callback of [lines.slice(1).forEach((line, idx) => ...)]. *)
Definition processRow (st : maps) (idx : nat) (line : string) : maps :=
  let '(userMap, fileMap) := st in
  let cols := parseCSVLine line in
  let normCNIC := normCNIC (rawCNIC_of cols) in
  let itemCode := itemCode_of cols in
  if negb (contributes cols) then st
  else
    let userMap :=
      if map_has normCNIC userMap then userMap
      else map_set normCNIC (newUser cols) userMap in
    let fileMap :=
      if map_has itemCode fileMap then fileMap
      else
        (* [userMap.get(normCNIC)!.name]: the key was set just above *)
        let ownerName :=
          match map_get normCNIC userMap with
          | Some u => User.name u
          | None => None
          end in
        map_set itemCode (newFile cols ownerName) fileMap in
    match map_get itemCode fileMap with
    | Some prop => (userMap, map_set itemCode (post idx cols prop) fileMap)
    | None => (userMap, fileMap)
    end.

End ImportBody.

(** [text.replace(...).split(/\r?\n/).filter(l => l.trim() !== '')]. *)
Definition nonEmptyLines (text : string) : list string :=
  filter (fun l => negb (Js.is_empty (Js.trim l))) (Js.split_lines (Js.stripBOM text)).

Definition headerOf (line : string) : list string :=
  map (fun h => Js.toLowerCase (Js.trim h)) (parseCSVLine line).

(** The [try] block of [handleMasterSync] up to the call of
    [onImportFullDatabase]: [None] when [Error("Format")] is thrown,
    otherwise the two collections handed over, [fileMap.size] being the
    length of the second. *)
Definition parseRegistry (now : nat -> Z) (text : string) : option ImportData :=
  match nonEmptyLines text with
  | header :: row :: rows =>
      let '(userMap, fileMap) :=
        forEach_from (processRow now (headerOf header)) 0 (row :: rows) ([], []) in
      Some (mkData (map_values userMap) (map_values fileMap))
  | _ => None
  end.

(** ** The registry coordinator of the application shell *)

(** [u.cnic.replace(/[^0-9X]/g, '')] and [f.fileNo], the two merge keys. *)
Definition userKey (u : User.t) : string := normCNIC (User.cnic u).
Definition fileKey (f : PropertyFile.t) : string := PropertyFile.fileNo f.

(** The non-destructive branch of [handleMassImport], for either collection:
    [new Map(live.map(x => [key(x), x]))], then [incoming.forEach(x =>
    m.set(key(x), x))], then [Array.from(m.values())]. *)
Definition mergeBy (V : Type) (key : V -> string) (live incoming : list V) : list V :=
  map_values
    (map_set_all (map (fun x => (key x, x)) incoming)
       (map_set_all (map (fun x => (key x, x)) live) [])).

(** [{ ...existing, ...u, status: 'Active' }].  The spread copies every own
    property of [u] over the one of [existing], whatever its value,
    [undefined] included; [u] carries them all, so nothing of [existing] is
    left, and [status] is set last. *)
Definition activate (existing u : User.t) : User.t :=
  {| User.id := User.id u;
     User.cnic := User.cnic u;
     User.name := User.name u;
     User.email := User.email u;
     User.phone := User.phone u;
     User.role := User.role u;
     User.status := Some "Active";
     User.password := User.password u |}.

(** The list [newUsers] that [handleRegister] hands to [handleUpdateUsers]. *)
Definition registered (users : list User.t) (u : User.t) : list User.t :=
  match find (fun existing => String.eqb (userKey existing) (userKey u)) users with
  | Some _ =>
      map (fun existing =>
             if String.eqb (User.cnic existing) (User.cnic u)
             then activate existing u else existing) users
  | None => users ++ [u]
  end.

(** [userCnicNorm] and [userFiles]. *)
Definition userCnicNorm (user : option User.t) : string :=
  match user with
  | Some u => Js.or_else (Some (userKey u)) ""
  | None => ""
  end.

Definition userFiles (user : option User.t) (allFiles : list PropertyFile.t)
    : list PropertyFile.t :=
  filter (fun f => String.eqb (normCNIC (PropertyFile.ownerCNIC f)) (userCnicNorm user))
    allFiles.

(** How a call on the local store or on the remote mirror ends.  A store
    call may find the database closed to it ([getDB] rejects: the [catch] of
    [AsyncStorage] logs it or answers [null]) or have its transaction fail
    (the promise returned from inside the [try] rejects in the caller). *)
Inductive StoreOutcome := StoreOk | DbUnavailable | TxFailed.

(** How an awaited upsert ends: the mirror accepts the rows; the promise
    rejects (the request cannot be made); or the promise resolves with a
    value that reports an error, the rows not being accepted. *)
Inductive RemoteOutcome := Acked | Failed | Refused.

(** What a read hands to the caller: a value, a falsy answer ([undefined]
    for a key never written, [null] from the [catch]), or a rejection. *)
Inductive Fetched (A : Type) := Found (v : A) | Absent | Rejected.
Arguments Absent {A}.
Arguments Rejected {A}.

(** [x || seed] where [x] is an array when it is a value at all: an array,
    empty or not, is truthy. *)
Definition orSeed (A : Type) (x : Fetched (list A)) (seed : list A) : list A :=
  match x with
  | Found v => v
  | _ => seed
  end.

Definition isRejected (A : Type) (x : Fetched A) : bool :=
  match x with Rejected => true | _ => false end.

Section Shell.

(** The records of the notice board and of the inbox are outside the
    registry; only their collections are carried. *)
Variables Notice Message : Type.

(** The seed collections of [data.ts]. *)
Variable MOCK_USERS : list User.t.
Variable MOCK_FILES : list PropertyFile.t.
Variable MOCK_NOTICES : list Notice.
Variable MOCK_MESSAGES : list Message.

(** [isCloudEnabled && supabase]. *)
Variable cloudEnabled : bool.

(** [JSON.parse(JSON.stringify(x))], the copy that is stored or sent. *)
Variable jsonClone : forall A : Type, A -> A.

(** The object store of [AsyncStorage], one slot per key it is used with. *)
Record Store := mkStore {
  stored_users : option (list User.t);
  stored_files : option (list PropertyFile.t);
  stored_notices : option (list Notice);
  stored_messages : option (list Message)
}.

(** What an upsert carries. *)
Inductive Rows :=
| UserRows (rows : list User.t)
| FileRows (rows : list PropertyFile.t).

(** The state of the shell: the four collections, the local store, the
    upserts the remote mirror has accepted (latest last), what was written
    with [console.error] and what was shown with [alert]. *)
Record App := mkApp {
  users : list User.t;
  allFiles : list PropertyFile.t;
  notices : list Notice;
  messages : list Message;
  store : Store;
  cloud : list (string * Rows);
  console : list string;
  alerts : list string
}.

Definition setUsers (v : list User.t) (s : App) : App :=
  mkApp v (allFiles s) (notices s) (messages s) (store s) (cloud s) (console s) (alerts s).
Definition setAllFiles (v : list PropertyFile.t) (s : App) : App :=
  mkApp (users s) v (notices s) (messages s) (store s) (cloud s) (console s) (alerts s).
Definition setNotices (v : list Notice) (s : App) : App :=
  mkApp (users s) (allFiles s) v (messages s) (store s) (cloud s) (console s) (alerts s).
Definition setMessages (v : list Message) (s : App) : App :=
  mkApp (users s) (allFiles s) (notices s) v (store s) (cloud s) (console s) (alerts s).
Definition withStore (v : Store) (s : App) : App :=
  mkApp (users s) (allFiles s) (notices s) (messages s) v (cloud s) (console s) (alerts s).
Definition upserted (table : string) (rows : Rows) (s : App) : App :=
  mkApp (users s) (allFiles s) (notices s) (messages s) (store s)
    (cloud s ++ [(table, rows)]) (console s) (alerts s).
Definition consoleError (msg : string) (s : App) : App :=
  mkApp (users s) (allFiles s) (notices s) (messages s) (store s) (cloud s)
    (console s ++ [msg]) (alerts s).
Definition alert (msg : string) (s : App) : App :=
  mkApp (users s) (allFiles s) (notices s) (messages s) (store s) (cloud s) (console s)
    (alerts s ++ [msg]).

Definition putUsers (v : list User.t) (st : Store) : Store :=
  mkStore (Some v) (stored_files st) (stored_notices st) (stored_messages st).
Definition putFiles (v : list PropertyFile.t) (st : Store) : Store :=
  mkStore (stored_users st) (Some v) (stored_notices st) (stored_messages st).
Definition putNotices (v : list Notice) (st : Store) : Store :=
  mkStore (stored_users st) (stored_files st) (Some v) (stored_messages st).
Definition putMessages (v : list Message) (st : Store) : Store :=
  mkStore (stored_users st) (stored_files st) (stored_notices st) (Some v).

(** [AsyncStorage.setItem(key, value)], [put] being the write under [key].
    The boolean tells whether the promise resolved. *)
Definition setItem (A : Type) (put : A -> Store -> Store) (value : A)
    (o : StoreOutcome) (s : App) : App * bool :=
  match o with
  | StoreOk => (withStore (put (jsonClone value) (store s)) s, true)
  | DbUnavailable => (consoleError "Critical Persistence Error:" s, true)
  | TxFailed => (s, false)
  end.

(** [AsyncStorage.getItem(key)] on the slot of [key]. *)
Definition getItem (A : Type) (slot : option A) (o : StoreOutcome) : Fetched A :=
  match o with
  | StoreOk => match slot with Some v => Found v | None => Absent end
  | DbUnavailable => Absent
  | TxFailed => Rejected
  end.

Definition dbTable (table : string) : string :=
  if String.eqb table "users" then "profiles"
  else if String.eqb table "files" then "property_files"
  else table.

Definition cloneRows (rows : Rows) : Rows :=
  match rows with
  | UserRows r => UserRows (jsonClone r)
  | FileRows r => FileRows (jsonClone r)
  end.

(** [syncToCloud(table, data)].  The caller never awaits it; the outcome of
    the upsert is recorded where the call is made.  The value the upsert
    resolves with is dropped, so an error it reports goes unseen; only a
    rejection reaches the [catch].  The [isSyncing] indicator and its timer
    are not part of the state. *)
Definition syncToCloud (table : string) (data : Rows) (o : RemoteOutcome) (s : App) : App :=
  if negb cloudEnabled then s
  else
    match o with
    | Acked => upserted (dbTable table) (cloneRows data) s
    | Failed => consoleError "Cloud Sync Failed:" s
    | Refused => s
    end.

(** [handleUpdateUsers] and [handleUpdateFiles]: the collection is set and
    the upsert started.  Neither writes to the local store; that is left to
    the auto-save effect, the step [autoSave] below, which the change of
    state triggers. *)
Definition handleUpdateUsers (u : list User.t) (o : RemoteOutcome) (s : App) : App :=
  syncToCloud "users" (UserRows u) o (setUsers u s).

Definition handleUpdateFiles (f : list PropertyFile.t) (o : RemoteOutcome) (s : App) : App :=
  syncToCloud "files" (FileRows f) o (setAllFiles f s).

(** The outcomes of the four calls a mass import makes. *)
Record Outcomes := mkOutcomes {
  local_users : StoreOutcome;
  local_files : StoreOutcome;
  remote_users : RemoteOutcome;
  remote_files : RemoteOutcome
}.

(** [handleMassImport(data, isDestructive)].  The two writes below are the
    ones the import awaits; the auto-save effect that the change of state
    triggers is the step [autoSave] below. *)
Definition handleMassImport (data : ImportData) (isDestructive : bool)
    (o : Outcomes) (s : App) : App :=
  let nUsers :=
    if isDestructive then data_users data
    else mergeBy userKey (users s) (data_users data) in
  let nFiles :=
    if isDestructive then data_files data
    else mergeBy fileKey (allFiles s) (data_files data) in
  let s := setAllFiles nFiles (setUsers nUsers s) in
  let '(s, resolved) := setItem putUsers nUsers (local_users o) s in
  if negb resolved then s
  else
    let '(s, resolved) := setItem putFiles nFiles (local_files o) s in
    if negb resolved then s
    else
      syncToCloud "files" (FileRows nFiles) (remote_files o)
        (syncToCloud "users" (UserRows nUsers) (remote_users o) s).


(** [reader.onload] of [handleMasterSync], with [onImportFullDatabase]
    bound to [handleMassImport] as the shell binds it. *)
Definition handleMasterSync (now : nat -> Z) (text : string) (o : Outcomes) (s : App)
    : App :=
  match parseRegistry now text with
  | Some data =>
      alert ("Registry Sync Successful: " ++ Js.of_nat (List.length (data_files data))
               ++ " properties registered.")%string
        (handleMassImport data true o s)
  | None => alert "Format Error: Verify CSV headers match SAP standard." s
  end.

(** What the four reads of [boot] meet, and what the two selects of the
    remote refresh answer ([Absent]: [data] is [null]). *)
Record BootReads := mkBootReads {
  read_users : StoreOutcome;
  read_files : StoreOutcome;
  read_notices : StoreOutcome;
  read_messages : StoreOutcome;
  select_users : Fetched (list User.t);
  select_files : Fetched (list PropertyFile.t)
}.

(** The first half of [boot]: [Promise.all] of the four reads, then the
    four [set...(x || MOCK_...)].  [None] when a read rejects, which the
    [catch] of [boot] takes before anything is set. *)
Definition localHydrate (r : BootReads) (s : App) : option App :=
  let u := getItem (stored_users (store s)) (read_users r) in
  let f := getItem (stored_files (store s)) (read_files r) in
  let n := getItem (stored_notices (store s)) (read_notices r) in
  let m := getItem (stored_messages (store s)) (read_messages r) in
  if isRejected u || isRejected f || isRejected n || isRejected m then None
  else
    Some (setMessages (orSeed m MOCK_MESSAGES)
            (setNotices (orSeed n MOCK_NOTICES)
               (setAllFiles (orSeed f MOCK_FILES)
                  (setUsers (orSeed u MOCK_USERS) s)))).

(** [if (c?.length) set(c)]. *)
Definition refreshed (A : Type) (c : Fetched (list A)) (current : list A) : list A :=
  match c with
  | Found (x :: rows) => x :: rows
  | _ => current
  end.

(** The second half of [boot], the background cloud sync. *)
Definition remoteRefresh (r : BootReads) (s : App) : App :=
  if negb cloudEnabled then s
  else if isRejected (select_users r) || isRejected (select_files r)
  then consoleError "Registry Boot Failure:" s
  else
    setAllFiles (refreshed (select_files r) (allFiles s))
      (setUsers (refreshed (select_users r) (users s)) s).

(** [boot], up to its [finally].  The session lookup between the two halves
    sets the logged-in user, which is not part of the registry. *)
Definition boot (r : BootReads) (s : App) : App :=
  match localHydrate r s with
  | Some s' => remoteRefresh r s'
  | None => consoleError "Registry Boot Failure:" s
  end.

(** The outcomes of the four writes of the auto-save effect. *)
Record Saves := mkSaves {
  save_users : StoreOutcome;
  save_files : StoreOutcome;
  save_notices : StoreOutcome;
  save_messages : StoreOutcome
}.

(** The auto-save effect: four [AsyncStorage.setItem] calls, none awaited,
    so that a write that rejects stops nothing.  It is skipped while
    [isLoading] holds, which is until the [finally] of [boot]; it runs when
    [boot] has ended, failed or not, and from then on after every change of
    one of the four collections. *)
Definition autoSave (o : Saves) (s : App) : App :=
  let s := fst (setItem putUsers (users s) (save_users o) s) in
  let s := fst (setItem putFiles (allFiles s) (save_files o) s) in
  let s := fst (setItem putNotices (notices s) (save_notices o) s) in
  fst (setItem putMessages (messages s) (save_messages o) s).

(** [boot] with its [finally { setIsLoading(false) }] and the run of the
    effect that this releases. *)
Definition bootAndSave (r : BootReads) (o : Saves) (s : App) : App :=
  autoSave o (boot r s).

End Shell.

(** * Properties *)

(** ** Maps in insertion order *)

Section JsMapFacts.

Variable V : Type.
Implicit Types (m : jsmap V) (k : string) (v : V).

Lemma map_get_set_same k v m : map_get k (map_set k v m) = Some v.
Proof.
  induction m as [|[k' v'] m IH]; simpl.
  - now rewrite String.eqb_refl.
  - destruct (String.eqb k' k) eqn:E; simpl.
    + now rewrite String.eqb_refl.
    + now rewrite E.
Qed.

Lemma map_get_set_other k k' v m :
  k <> k' -> map_get k' (map_set k v m) = map_get k' m.
Proof.
  intros Hne. induction m as [|[k0 v0] m IH]; simpl.
  - destruct (String.eqb k k') eqn:E; [apply String.eqb_eq in E; contradiction | reflexivity].
  - destruct (String.eqb k0 k) eqn:E; simpl.
    + apply String.eqb_eq in E. subst k0.
      destruct (String.eqb k k') eqn:E'; [apply String.eqb_eq in E'; contradiction | reflexivity].
    + now rewrite IH.
Qed.

Lemma map_get_in k v m : map_get k m = Some v -> In (k, v) m.
Proof.
  induction m as [|[k' v'] m IH]; simpl; [discriminate|].
  destruct (String.eqb k' k) eqn:E.
  - apply String.eqb_eq in E. intros [= ->]. left. now subst.
  - intros H. right. auto.
Qed.

Lemma map_get_none k m : map_get k m = None <-> ~ In k (map_keys m).
Proof.
  induction m as [|[k' v'] m IH]; simpl.
  - split; auto.
  - destruct (String.eqb k' k) eqn:E.
    + apply String.eqb_eq in E. split; [discriminate | intros H; exfalso; auto].
    + apply String.eqb_neq in E. rewrite IH. tauto.
Qed.

Lemma map_has_true k m : map_has k m = true <-> In k (map_keys m).
Proof.
  unfold map_has. destruct (map_get k m) eqn:E.
  - split; auto. intros _. apply map_get_in in E.
    apply (in_map fst) in E. exact E.
  - apply map_get_none in E. split; [discriminate | contradiction].
Qed.

Lemma map_has_false k m : map_has k m = false <-> ~ In k (map_keys m).
Proof.
  rewrite <- map_has_true. destruct (map_has k m); split; congruence.
Qed.

Lemma in_get k v m : NoDup (map_keys m) -> In (k, v) m -> map_get k m = Some v.
Proof.
  induction m as [|[k' v'] m IH]; simpl; [tauto|].
  intros Hnd [H|H].
  - injection H as -> ->. now rewrite String.eqb_refl.
  - inversion Hnd as [|? ? Hnotin Hnd']; subst.
    destruct (String.eqb k' k) eqn:E.
    + apply String.eqb_eq in E. subst k'. exfalso. apply Hnotin.
      apply (in_map fst) in H. exact H.
    + auto.
Qed.

Lemma map_keys_set k v m :
  map_keys (map_set k v m) = if map_has k m then map_keys m else map_keys m ++ [k].
Proof.
  induction m as [|[k' v'] m IH]; simpl; [reflexivity|].
  unfold map_has in *. simpl.
  destruct (String.eqb k' k) eqn:E; simpl.
  - apply String.eqb_eq in E. now subst.
  - rewrite IH. now destruct (map_get k m).
Qed.

Lemma map_set_fresh k v m : ~ In k (map_keys m) -> map_set k v m = m ++ [(k, v)].
Proof.
  induction m as [|[k' v'] m IH]; simpl; [reflexivity|].
  intros H. destruct (String.eqb k' k) eqn:E.
  - apply String.eqb_eq in E. exfalso. auto.
  - rewrite IH; auto.
Qed.

Lemma NoDup_keys_set k v m : NoDup (map_keys m) -> NoDup (map_keys (map_set k v m)).
Proof.
  intros Hnd. rewrite map_keys_set. destruct (map_has k m) eqn:E; [exact Hnd|].
  apply map_has_false in E.
  apply NoDup_app; [exact Hnd | repeat constructor; simpl; tauto |].
  intros x Hx [<-|[]]. contradiction.
Qed.

(** With one entry per key, [set] replaces the entry of its key and
    leaves the others. *)
Lemma in_map_set k v m kv :
  NoDup (map_keys m) ->
  In kv (map_set k v m) <-> kv = (k, v) \/ (In kv m /\ fst kv <> k).
Proof.
  induction m as [|[k' v'] m IH]; simpl; intros Hnd.
  - split; [intros [<-|[]]; auto | intros [->|[[] _]]; auto].
  - inversion Hnd as [|? ? Hnotin Hnd']; subst.
    destruct (String.eqb k' k) eqn:E; simpl.
    + apply String.eqb_eq in E. subst k'. split.
      * intros [<-|H]; [now left|]. right. split; [now right|].
        intros <-. apply Hnotin. apply (in_map fst) in H. exact H.
      * intros [->|[[<-|H] Hne]]; [now left | simpl in Hne; congruence | now right].
    + apply String.eqb_neq in E. rewrite (IH Hnd'). split.
      * intros [<-|[->|[H Hne]]]; [right; split; [now left| exact E] | now left | right; split; [now right | exact Hne]].
      * intros [->|[[<-|H] Hne]]; [right; now left | now left | right; right; now split].
Qed.

End JsMapFacts.

(** The rows [forEach] visits, each with its index. *)
Fixpoint indexed_from (A : Type) (i : nat) (l : list A) : list (nat * A) :=
  match l with
  | [] => []
  | x :: l' => (i, x) :: indexed_from (S i) l'
  end.

(** An invariant that relates the state to the rows visited so far is kept
    by [forEach]. *)
Lemma forEach_from_invariant (A St : Type) (f : St -> nat -> A -> St)
    (Inv : list (nat * A) -> St -> Prop) :
  (forall done s i x, Inv done s -> Inv (done ++ [(i, x)]) (f s i x)) ->
  forall l i done s,
    Inv done s -> Inv (done ++ indexed_from i l) (forEach_from f i l s).
Proof.
  intros Hstep l. induction l as [|x l IH]; simpl; intros i done s H.
  - now rewrite app_nil_r.
  - change ((i, x) :: indexed_from (S i) l) with ([(i, x)] ++ indexed_from (S i) l).
    rewrite app_assoc. apply IH. now apply Hstep.
Qed.

Lemma map_values_keys (V : Type) (key : V -> string) (m : jsmap V) :
  (forall k v, In (k, v) m -> key v = k) ->
  map key (map_values m) = map_keys m.
Proof.
  unfold map_values, map_keys. induction m as [|[k v] m IH]; simpl; intros H.
  - reflexivity.
  - f_equal; [apply H; now left | apply IH; intros; apply H; now right].
Qed.

Lemma in_map_values (V : Type) (m : jsmap V) (v : V) :
  In v (map_values m) <-> exists k, In (k, v) m.
Proof.
  unfold map_values. rewrite in_map_iff. split.
  - intros [[k v'] [<- H]]. now exists k.
  - intros [k H]. now exists (k, v).
Qed.

(** ** The entity builder *)

Section BuilderFacts.

Variable now : nat -> Z.
Variable normH : list string.

(** A data row: its index among the data rows and its text. *)
Definition rowCols (r : nat * string) : list string := parseCSVLine (snd r).
Definition rowIdentity (r : nat * string) : string :=
  normCNIC (rawCNIC_of normH (rowCols r)).
Definition rowCode (r : nat * string) : string := itemCode_of normH (rowCols r).
Definition rowPaid (r : nat * string) : float := paidVal_of normH (rowCols r).
Definition rowDue (r : nat * string) : float := osVal_of normH (rowCols r).

(** The rows that are not skipped, and those among them of one account. *)
Definition contributing (rows : list (nat * string)) : list (nat * string) :=
  filter (fun r => contributes normH (rowCols r)) rows.
Definition rowsOf (code : string) (rows : list (nat * string)) : list (nat * string) :=
  filter (fun r => String.eqb (rowCode r) code) (contributing rows).

(** What the account under [code] holds once the rows [rows] are read. *)
Definition accountOf (rows : list (nat * string)) (code : string) (f : PropertyFile.t)
    : Prop :=
  PropertyFile.fileNo f = code
  /\ PropertyFile.transactions f
     = map (fun r => newTransaction now normH (fst r) (rowCols r) (PropertyFile.plotValue f))
         (rowsOf code rows)
  /\ PropertyFile.paymentReceived f
     = fold_left PrimFloat.add (map rowPaid (rowsOf code rows)) PrimFloat.zero
  /\ PropertyFile.balance f
     = fold_left PrimFloat.add (map rowDue (rowsOf code rows)) PrimFloat.zero.

Definition memberOf (rows : list (nat * string)) (k : string) (u : User.t) : Prop :=
  exists r, In r (contributing rows) /\ u = newUser normH (rowCols r) /\ k = rowIdentity r.

(** The two maps after the rows [rows]. *)
Definition built (rows : list (nat * string)) (st : maps) : Prop :=
  NoDup (map_keys (fst st))
  /\ (forall k, In k (map_keys (fst st)) <-> In k (map rowIdentity (contributing rows)))
  /\ (forall k u, In (k, u) (fst st) -> memberOf rows k u)
  /\ NoDup (map_keys (snd st))
  /\ (forall k, In k (map_keys (snd st)) <-> In k (map rowCode (contributing rows)))
  /\ (forall k f, In (k, f) (snd st) -> accountOf rows k f).

Lemma contributing_skip rows r :
  contributes normH (rowCols r) = false -> contributing (rows ++ [r]) = contributing rows.
Proof.
  intros H. unfold contributing. rewrite filter_app. simpl. rewrite H. apply app_nil_r.
Qed.

Lemma contributing_take rows r :
  contributes normH (rowCols r) = true -> contributing (rows ++ [r]) = contributing rows ++ [r].
Proof.
  intros H. unfold contributing. rewrite filter_app. simpl. now rewrite H.
Qed.

Lemma rowsOf_take_same rows r :
  contributes normH (rowCols r) = true ->
  rowsOf (rowCode r) (rows ++ [r]) = rowsOf (rowCode r) rows ++ [r].
Proof.
  intros H. unfold rowsOf. rewrite (contributing_take _ _ H), filter_app. simpl.
  now rewrite String.eqb_refl.
Qed.

Lemma rowsOf_take_other rows r code :
  contributes normH (rowCols r) = true -> rowCode r <> code ->
  rowsOf code (rows ++ [r]) = rowsOf code rows.
Proof.
  intros H Hne. unfold rowsOf. rewrite (contributing_take _ _ H), filter_app. simpl.
  apply String.eqb_neq in Hne. rewrite Hne. apply app_nil_r.
Qed.

Lemma rowsOf_unseen rows code :
  ~ In code (map rowCode (contributing rows)) -> rowsOf code rows = [].
Proof.
  unfold rowsOf. induction (contributing rows) as [|r l IH]; simpl; [reflexivity|].
  intros H. destruct (String.eqb (rowCode r) code) eqn:E.
  - apply String.eqb_eq in E. exfalso. auto.
  - auto.
Qed.

Lemma accountOf_post rows r prop :
  contributes normH (rowCols r) = true ->
  accountOf rows (rowCode r) prop ->
  accountOf (rows ++ [r]) (rowCode r) (post now normH (fst r) (rowCols r) prop).
Proof.
  intros Hc (Hno & Htx & Hpaid & Hdue). unfold accountOf.
  rewrite (rowsOf_take_same _ _ Hc), !map_app, !fold_left_app. simpl.
  rewrite Htx, Hpaid, Hdue. auto.
Qed.

Lemma accountOf_new rows cols owner :
  ~ In (itemCode_of normH cols) (map rowCode (contributing rows)) ->
  accountOf rows (itemCode_of normH cols) (newFile normH cols owner).
Proof.
  intros H. unfold accountOf. rewrite (rowsOf_unseen _ _ H). simpl. auto.
Qed.

Lemma built_step rows st i line :
  built rows st -> built (rows ++ [(i, line)]) (processRow now normH st i line).
Proof.
  destruct st as [um fm]. intros (Hund & Hukeys & Hu & Hfnd & Hfkeys & Hf).
  simpl in *. set (r := (i, line)).
  unfold processRow.
  change (parseCSVLine line) with (rowCols r).
  change (normCNIC (rawCNIC_of normH (rowCols r))) with (rowIdentity r).
  change (itemCode_of normH (rowCols r)) with (rowCode r).
  destruct (contributes normH (rowCols r)) eqn:Hc; simpl.
  2:{ unfold built, memberOf, accountOf, rowsOf. simpl.
      rewrite (contributing_skip _ _ Hc). auto 10. }
  (* the member map *)
  set (um' := if map_has (rowIdentity r) um then um
              else map_set (rowIdentity r) (newUser normH (rowCols r)) um).
  assert (Hum' : NoDup (map_keys um')
                 /\ (forall k, In k (map_keys um')
                               <-> In k (map rowIdentity (contributing (rows ++ [r]))))
                 /\ (forall k u, In (k, u) um' -> memberOf (rows ++ [r]) k u)).
  { rewrite (contributing_take _ _ Hc), map_app. simpl.
    assert (Hold : forall k u, memberOf rows k u -> memberOf (rows ++ [r]) k u).
    { intros k u (r0 & Hin & E1 & E2). exists r0.
      rewrite (contributing_take _ _ Hc), in_app_iff. auto. }
    subst um'. destruct (map_has (rowIdentity r) um) eqn:Hhas.
    - apply map_has_true in Hhas. split; [exact Hund|]. split.
      + intros k. rewrite in_app_iff, <- Hukeys. simpl. split; [auto|].
        intros [H|[<-|[]]]; auto.
      + intros k u H. auto.
    - apply map_has_false in Hhas. split; [now apply NoDup_keys_set|]. split.
      + intros k. rewrite map_keys_set.
        replace (map_has (rowIdentity r) um) with false
          by (symmetry; now apply map_has_false).
        rewrite !in_app_iff, Hukeys. reflexivity.
      + intros k u. rewrite map_set_fresh by exact Hhas. rewrite in_app_iff.
        intros [H|[[= <- <-]|[]]]; [auto|].
        exists r. rewrite (contributing_take _ _ Hc), in_app_iff. simpl. auto. }
  (* the account map, with the account of the row in it *)
  set (owner := match map_get (rowIdentity r) um' with
                | Some u => User.name u | None => None end).
  set (fm1 := if map_has (rowCode r) fm then fm
              else map_set (rowCode r) (newFile normH (rowCols r) owner) fm).
  assert (Hfm1 : NoDup (map_keys fm1)
                 /\ (forall k, In k (map_keys fm1)
                               <-> In k (map rowCode (contributing rows)) \/ k = rowCode r)
                 /\ (forall k f, In (k, f) fm1 -> accountOf rows k f)).
  { subst fm1. destruct (map_has (rowCode r) fm) eqn:Hhas.
    - apply map_has_true in Hhas. split; [exact Hfnd|]. split; [|exact Hf].
      intros k. rewrite <- Hfkeys. split; [auto|]. intros [H| ->]; auto.
    - apply map_has_false in Hhas. split; [now apply NoDup_keys_set|]. split.
      + intros k. rewrite map_keys_set.
        replace (map_has (rowCode r) fm) with false
          by (symmetry; now apply map_has_false).
        rewrite in_app_iff, Hfkeys. simpl. intuition congruence.
      + intros k f. rewrite map_set_fresh by exact Hhas. rewrite in_app_iff.
        intros [H|[[= <- <-]|[]]]; [auto|].
        apply accountOf_new. now rewrite <- Hfkeys. }
  destruct Hfm1 as (Hnd1 & Hkeys1 & Hacc1).
  destruct (map_get (rowCode r) fm1) as [prop|] eqn:Hget.
  2:{ exfalso. apply map_get_none in Hget. apply Hget, Hkeys1. now right. }
  destruct Hum' as (Hu1 & Hu2 & Hu3).
  unfold built. simpl.
  split; [exact Hu1|]. split; [exact Hu2|]. split; [exact Hu3|].
  split; [now apply NoDup_keys_set|]. split.
  - intros k.
    rewrite map_keys_set, (contributing_take _ _ Hc), map_app, in_app_iff. simpl.
    replace (map_has (rowCode r) fm1) with true
      by (symmetry; apply map_has_true, Hkeys1; now right).
    rewrite Hkeys1. intuition congruence.
  - intros k f H.
    apply in_map_set in H; [|exact Hnd1]. destruct H as [[= -> ->]|[H Hne]].
    + apply (@accountOf_post rows r prop Hc). apply Hacc1. now apply map_get_in.
    + simpl in Hne. destruct (Hacc1 _ _ H) as (E1 & E2 & E3 & E4).
      unfold accountOf. rewrite (rowsOf_take_other _ _ Hc); auto.
Qed.

(** The maps [forEach] leaves are those of all the rows. *)
Lemma built_forEach lines :
  built (indexed_from 0 lines) (forEach_from (processRow now normH) 0 lines ([], [])).
Proof.
  apply (forEach_from_invariant (processRow now normH) built built_step lines 0 []).
  unfold built, contributing. simpl. repeat split; auto using NoDup_nil; try tauto.
Qed.

End BuilderFacts.

(** ** What [parseRegistry] hands over *)

(** The header row and the data rows of a text, as [handleMasterSync] takes
    them from its non-empty lines. *)
Definition headerRow (text : string) : list string :=
  headerOf (hd "" (nonEmptyLines text)).

Definition dataRows (text : string) : list (nat * string) :=
  indexed_from 0 (tl (nonEmptyLines text)).

Lemma parseRegistry_built now text data :
  parseRegistry now text = Some data ->
  exists userMap fileMap,
    built now (headerRow text) (dataRows text) (userMap, fileMap)
    /\ data = mkData (map_values userMap) (map_values fileMap).
Proof.
  unfold parseRegistry, headerRow, dataRows.
  destruct (nonEmptyLines text) as [|header [|row rows]]; try discriminate.
  pose proof (built_forEach now (headerOf header) (row :: rows)) as Hb.
  simpl hd. simpl tl.
  destruct (forEach_from (processRow now (headerOf header)) 0 (row :: rows) ([], []))
    as [um fm].
  intros [= <-]. now exists um, fm.
Qed.

Lemma userKey_newUser normH cols :
  userKey (newUser normH cols) = normCNIC (rawCNIC_of normH cols).
Proof. reflexivity. Qed.

(** The text of the scenario of the registry specification. *)
Definition scenario : string :=
  ("OCNIC,OName,ItemCode,DocTotal,ReconSum,BalDueDeb" ++ String Js.LF
   "12345-6789012-3,Ali,P-001,5000,1000,200" ++ String Js.LF
   "12345-6789012-3,Ali,P-001,5000,500,100")%string.

(** C4. For every accepted text the members handed over are one per distinct
    normalised identity of the contributing data rows (the rows that carry
    both an identity and an account code), the accounts one per distinct
    account code of those rows; the transactions of an account are those of
    its rows, one each, in file order, and its [paymentReceived] and
    [balance] are the sums, taken in file order from zero, of the paid and
    balance-due amounts of its rows.  On the scenario of the specification
    this gives one member, one account [P-001] with 1500 received and a
    balance of 300, and two transactions in file order. *)
Theorem entity_builder_guarantee (now : nat -> Z) :
  (forall text data,
     parseRegistry now text = Some data ->
     let normH := headerRow text in
     let rows := contributing normH (dataRows text) in
     (NoDup (map userKey (data_users data))
      /\ forall k, In k (map userKey (data_users data))
                   <-> In k (map (rowIdentity normH) rows))
     /\ (NoDup (map PropertyFile.fileNo (data_files data))
         /\ forall k, In k (map PropertyFile.fileNo (data_files data))
                      <-> In k (map (rowCode normH) rows))
     /\ forall f, In f (data_files data) ->
          let mine :=
            filter (fun r => String.eqb (rowCode normH r) (PropertyFile.fileNo f)) rows in
          PropertyFile.transactions f
          = map (fun r => newTransaction now normH (fst r) (rowCols r)
                            (PropertyFile.plotValue f)) mine
          /\ map Transaction.seq (PropertyFile.transactions f)
             = map (fun r => Z.of_nat (fst r)) mine
          /\ PropertyFile.paymentReceived f
             = fold_left PrimFloat.add (map (rowPaid normH) mine) 0%float
          /\ PropertyFile.balance f
             = fold_left PrimFloat.add (map (rowDue normH) mine) 0%float)
  /\ exists u f t1 t2,
       parseRegistry now scenario = Some (mkData [u] [f])
       /\ userKey u = "1234567890123"
       /\ PropertyFile.fileNo f = "P-001"
       /\ PropertyFile.paymentReceived f = 1500%float
       /\ PropertyFile.balance f = 300%float
       /\ PropertyFile.transactions f = [t1; t2]
       /\ Transaction.seq t1 = 0%Z /\ Transaction.seq t2 = 1%Z
       /\ Transaction.amount_paid t1 = 1000%float
       /\ Transaction.balduedeb t1 = 200%float
       /\ Transaction.amount_paid t2 = 500%float
       /\ Transaction.balduedeb t2 = 100%float.
Proof.
  split.
  - intros text data Hparse normH rows.
    destruct (parseRegistry_built _ _ Hparse)
      as (um & fm & (Hund & Hukeys & Hu & Hfnd & Hfkeys & Hf) & ->).
    simpl in *.
    assert (Ekeys : map userKey (map_values um) = map_keys um).
    { apply map_values_keys. intros k u H.
      destruct (Hu _ _ H) as (r & _ & -> & ->). reflexivity. }
    assert (Fkeys : map PropertyFile.fileNo (map_values fm) = map_keys fm).
    { apply map_values_keys. intros k f H. now destruct (Hf _ _ H). }
    rewrite Ekeys, Fkeys. repeat split; auto; try apply Hukeys; try apply Hfkeys.
    all: apply in_map_values in H; destruct H as [k H];
      destruct (Hf _ _ H) as (E1 & E2 & E3 & E4); subst k; auto.
    rewrite E2. rewrite map_map. reflexivity.
  - do 4 eexists. split; [vm_compute; reflexivity|].
    vm_compute. repeat split; reflexivity.
Qed.

(** What the scenario yields when the clock reads 0 throughout. *)
Definition scenarioData : ImportData :=
  Eval vm_compute in
    match parseRegistry (fun _ => 0%Z) scenario with
    | Some data => data
    | None => mkData [] []
    end.

Lemma entity_builder_guarantee_witness :
  parseRegistry (fun _ => 0%Z) scenario = Some scenarioData
  /\ NoDup (map userKey (data_users scenarioData))
  /\ NoDup (map PropertyFile.fileNo (data_files scenarioData)).
Proof.
  split; [vm_compute; reflexivity|].
  pose proof (proj1 (entity_builder_guarantee (fun _ => 0%Z)) scenario scenarioData) as H.
  specialize (H ltac:(vm_compute; reflexivity)).
  exact (conj (proj1 (proj1 H)) (proj1 (proj1 (proj2 H)))).
Defined.

(** C9. Every member record the import materialises has role [CLIENT],
    status [Active], the credential placeholder [password123], and the
    address made of its normalised identity and [@dinproperties.com.pk],
    whatever the row holds. *)
Theorem imported_member_defaults (now : nat -> Z) (text : string) (data : ImportData)
    (u : User.t) :
  parseRegistry now text = Some data ->
  In u (data_users data) ->
  User.role u = Some "CLIENT"
  /\ User.status u = Some "Active"
  /\ User.password u = Some "password123"
  /\ User.email u = Some (normCNIC (User.cnic u) ++ "@dinproperties.com.pk")%string.
Proof.
  intros Hparse Hin.
  destruct (parseRegistry_built _ _ Hparse) as (um & fm & (_ & _ & Hu & _) & ->).
  simpl in *. apply in_map_values in Hin. destruct Hin as [k Hin].
  destruct (Hu _ _ Hin) as (r & _ & -> & _). simpl. auto.
Qed.

Definition scenarioMember : User.t :=
  {| User.id := Some "user-1234567890123";
     User.cnic := "12345-6789012-3";
     User.name := Some "Ali";
     User.email := Some "1234567890123@dinproperties.com.pk";
     User.phone := Some "-";
     User.role := Some "CLIENT";
     User.status := Some "Active";
     User.password := Some "password123" |}.

Lemma imported_member_defaults_witness :
  parseRegistry (fun _ => 0%Z) scenario = Some scenarioData
  /\ In scenarioMember (data_users scenarioData)
  /\ User.role scenarioMember = Some "CLIENT"
  /\ User.status scenarioMember = Some "Active"
  /\ User.password scenarioMember = Some "password123"
  /\ User.email scenarioMember
     = Some (normCNIC (User.cnic scenarioMember) ++ "@dinproperties.com.pk")%string.
Proof.
  split; [vm_compute; reflexivity|]. split; [simpl; now left|].
  apply (@imported_member_defaults (fun _ => 0%Z) scenario scenarioData scenarioMember).
  - vm_compute; reflexivity.
  - simpl. now left.
Defined.

(** ** Numeric normalisation *)

Lemma or_zero_nan x : PrimFloat.is_nan x = true -> Num.or_zero x = 0%float.
Proof. intros H. unfold Num.or_zero. now rewrite H. Qed.

Lemma or_zero_not_nan x : PrimFloat.is_nan (Num.or_zero x) = false.
Proof.
  unfold Num.or_zero. destruct (PrimFloat.is_nan x) eqn:E; simpl; [reflexivity|].
  destruct (PrimFloat.is_zero x); [reflexivity | exact E].
Qed.

#[local] Set Warnings "-inexact-float".

(** C6. [parseVal] is a total function with a number for every input: the
    placeholders [NULL] (in any case), [-], the empty string and a missing
    cell give 0; [1,234.56] gives 1234.56; [(500)] gives 500, the
    parentheses being dropped and the sign left positive; a text that
    [parseFloat] does not read as a number, once commas and parentheses are
    removed, gives 0; and the result is never [NaN]. *)
Theorem parseVal_normalisation :
  parseVal None = 0%float
  /\ parseVal (Some "") = 0%float
  /\ parseVal (Some "NULL") = 0%float
  /\ parseVal (Some "-") = 0%float
  /\ parseVal (Some "1,234.56") = 1234.56%float
  /\ parseVal (Some "(500)") = 500%float
  /\ (forall s, Js.toUpperCase s = "NULL" -> parseVal (Some s) = 0%float)
  /\ (forall s,
        PrimFloat.is_nan
          (Num.parseFloat (Js.remove Num.is_paren (Js.remove Num.is_comma s))) = true ->
        parseVal (Some s) = 0%float)
  /\ (forall v, PrimFloat.is_nan (parseVal v) = false).
Proof.
  do 6 (split; [vm_compute; reflexivity|]).
  split; [|split].
  - intros s H. unfold parseVal. rewrite H. simpl. now rewrite orb_true_r.
  - intros s H. unfold parseVal.
    destruct (Js.is_empty s || String.eqb (Js.toUpperCase s) "NULL" || String.eqb s "-");
      [reflexivity | now apply or_zero_nan].
  - intros [s|]; unfold parseVal; [|reflexivity].
    destruct (Js.is_empty s || String.eqb (Js.toUpperCase s) "NULL" || String.eqb s "-");
      [reflexivity | apply or_zero_not_nan].
Qed.

Lemma parseVal_normalisation_witness :
  Js.toUpperCase "Null" = "NULL"
  /\ parseVal (Some "Null") = 0%float
  /\ PrimFloat.is_nan
       (Num.parseFloat (Js.remove Num.is_paren (Js.remove Num.is_comma "n/a"))) = true
  /\ parseVal (Some "n/a") = 0%float.
Proof.
  pose proof parseVal_normalisation as (_ & _ & _ & _ & _ & _ & Hnull & Hbad & _).
  split; [reflexivity|]. split; [apply Hnull; reflexivity|].
  split; [reflexivity|]. apply Hbad; reflexivity.
Defined.

(** ** Identity normalisation *)

Lemma keep_app p a b : Js.keep p (a ++ b)%string = (Js.keep p a ++ Js.keep p b)%string.
Proof.
  induction a as [|c a IH]; simpl; [reflexivity|].
  destruct (p c); simpl; now rewrite IH.
Qed.

Lemma length_append a b :
  String.length (a ++ b)%string = (String.length a + String.length b)%nat.
Proof. induction a as [|c a IH]; simpl; [reflexivity | now rewrite IH]. Qed.

Lemma normCNIC_filter raw :
  list_ascii_of_string (normCNIC raw) = filter is_cnic_char (list_ascii_of_string raw).
Proof.
  unfold normCNIC. induction raw as [|c raw IH]; simpl; [reflexivity|].
  destruct (is_cnic_char c); simpl; now rewrite IH.
Qed.

Lemma normCNIC_case a b :
  normCNIC (a ++ "x" ++ b)%string <> normCNIC (a ++ "X" ++ b)%string.
Proof.
  unfold normCNIC. rewrite !keep_app. simpl. intros H.
  apply (f_equal String.length) in H. rewrite !length_append in H. simpl in H. lia.
Qed.

Lemma userCnicNorm_key u : userCnicNorm (Some u) = userKey u.
Proof. unfold userCnicNorm. simpl. now destruct (userKey u). Qed.

Lemma mergeBy_two_keys (V : Type) (key : V -> string) (x y : V) :
  key x <> key y -> mergeBy key [x] [y] = [x; y].
Proof.
  intros H. unfold mergeBy, map_set_all, map_values. simpl.
  apply String.eqb_neq in H. now rewrite H.
Qed.

Lemma registered_other_key u1 u2 :
  userKey u1 <> userKey u2 -> registered [u1] u2 = [u1; u2].
Proof.
  intros H. unfold registered. simpl. apply String.eqb_neq in H. now rewrite H.
Qed.

Lemma userFiles_other_key u f :
  normCNIC (PropertyFile.ownerCNIC f) <> userKey u -> userFiles (Some u) [f] = [].
Proof.
  intros H. unfold userFiles. rewrite userCnicNorm_key. simpl.
  apply String.eqb_neq in H. now rewrite H.
Qed.

(** Two data rows whose identities differ in the case of the check
    character only. *)
Definition twoCases : string :=
  ("cnic,itemcode" ++ String Js.LF "12345-x,P-1" ++ String Js.LF "12345-X,P-1")%string.

(** C10. Normalisation keeps the decimal digits and the upper-case [X] of the
    raw identity, in order, and nothing else; a lower-case [x] is dropped
    where an upper-case [X] is kept, so two raw identities that differ only
    there have different keys ([12345-x] gives [12345], [12345-X] gives
    [12345X]).  Members with two such identities stay apart in an additive
    merge and in a registration, an account owned under one is not among
    the files of the other, and the entity builder makes two members of two
    such rows. *)
Theorem normCNIC_case_sensitive :
  (forall raw,
     list_ascii_of_string (normCNIC raw)
     = filter is_cnic_char (list_ascii_of_string raw))
  /\ (forall c, is_cnic_char c = true <-> In c (list_ascii_of_string "0123456789X"))
  /\ normCNIC "12345-x" = "12345"
  /\ normCNIC "12345-X" = "12345X"
  /\ (forall a b, normCNIC (a ++ "x" ++ b)%string <> normCNIC (a ++ "X" ++ b)%string)
  /\ (forall a b u1 u2,
        User.cnic u1 = (a ++ "x" ++ b)%string ->
        User.cnic u2 = (a ++ "X" ++ b)%string ->
        mergeBy userKey [u1] [u2] = [u1; u2]
        /\ registered [u1] u2 = [u1; u2]
        /\ forall f, PropertyFile.ownerCNIC f = User.cnic u1 ->
                     userFiles (Some u2) [f] = [])
  /\ (forall now, exists u1 u2 f,
        parseRegistry now twoCases = Some (mkData [u1; u2] [f])
        /\ User.cnic u1 = "12345-x" /\ User.cnic u2 = "12345-X").
Proof.
  split; [exact normCNIC_filter|].
  split.
  { intros c. destruct c as [[] [] [] [] [] [] [] []]; vm_compute;
      split; intros H; try discriminate; try reflexivity;
      repeat (destruct H as [H|H]; try discriminate H); try contradiction;
      intuition congruence. }
  split; [reflexivity|]. split; [reflexivity|].
  split; [exact normCNIC_case|].
  split.
  - intros a b u1 u2 E1 E2.
    assert (Hne : userKey u1 <> userKey u2)
      by (unfold userKey; rewrite E1, E2; apply normCNIC_case).
    split; [now apply mergeBy_two_keys|]. split; [now apply registered_other_key|].
    intros f Ef. apply userFiles_other_key. rewrite Ef. exact Hne.
  - intros now. do 3 eexists. split; [vm_compute; reflexivity|].
    split; reflexivity.
Qed.

Definition memberLower : User.t :=
  {| User.id := Some "user-12345"; User.cnic := "12345-x"; User.name := Some "A";
     User.email := None; User.phone := None; User.role := Some "CLIENT";
     User.status := Some "Active"; User.password := None |}.

Definition memberUpper : User.t :=
  {| User.id := Some "user-12345X"; User.cnic := "12345-X"; User.name := Some "B";
     User.email := None; User.phone := None; User.role := Some "CLIENT";
     User.status := Some "Active"; User.password := None |}.

Lemma normCNIC_case_sensitive_witness :
  User.cnic memberLower = ("12345-" ++ "x" ++ "")%string
  /\ User.cnic memberUpper = ("12345-" ++ "X" ++ "")%string
  /\ mergeBy userKey [memberLower] [memberUpper] = [memberLower; memberUpper]
  /\ registered [memberLower] memberUpper = [memberLower; memberUpper].
Proof.
  pose proof normCNIC_case_sensitive as (_ & _ & _ & _ & _ & H & _).
  split; [reflexivity|]. split; [reflexivity|].
  destruct (H "12345-" "" memberLower memberUpper eq_refl eq_refl) as (H1 & H2 & _).
  exact (conj H1 H2).
Defined.

(** ** The additive merge *)

Section MergeFacts.

Variable V : Type.
Variable key : V -> string.

(** The record a collection keeps under a key when it is loaded into a
    [Map]: the last one that has the key. *)
Fixpoint lastWith (k : string) (l : list V) : option V :=
  match l with
  | [] => None
  | x :: l' =>
      match lastWith k l' with
      | Some y => Some y
      | None => if String.eqb (key x) k then Some x else None
      end
  end.

(** [x] is the record that [l] keeps under the key of [x]. *)
Definition holds (l : list V) (x : V) : Prop := lastWith (key x) l = Some x.

Definition keyed (l : list V) : list (string * V) := map (fun x => (key x, x)) l.

Lemma lastWith_app k a b :
  lastWith k (a ++ b) =
  match lastWith k b with Some y => Some y | None => lastWith k a end.
Proof.
  induction a as [|x a IH]; simpl.
  - now destruct (lastWith k b).
  - rewrite IH. now destruct (lastWith k b).
Qed.

Lemma lastWith_none k l : lastWith k l = None <-> ~ In k (map key l).
Proof.
  induction l as [|x l IH]; simpl; [tauto|].
  destruct (lastWith k l) eqn:E.
  - split; [discriminate|]. intros H. exfalso.
    assert (Hn : ~ In k (map key l)) by tauto. apply IH in Hn. discriminate.
  - destruct (String.eqb (key x) k) eqn:Ek.
    + apply String.eqb_eq in Ek. split; [discriminate | intros H; exfalso; auto].
    + apply String.eqb_neq in Ek. split; [|reflexivity].
      intros _ [H|H]; [contradiction | now apply IH in H].
Qed.

Lemma lastWith_some k l x : lastWith k l = Some x -> key x = k /\ In x l.
Proof.
  induction l as [|y l IH]; simpl; [discriminate|].
  destruct (lastWith k l) eqn:E.
  - intros [= ->]. destruct (IH eq_refl). auto.
  - destruct (String.eqb (key y) k) eqn:Ek; [|discriminate].
    apply String.eqb_eq in Ek. intros [= ->]. auto.
Qed.

Lemma holds_unique l x : NoDup (map key l) -> In x l -> holds l x.
Proof.
  unfold holds. induction l as [|y l IH]; simpl; [tauto|].
  intros Hnd Hin. inversion Hnd as [|? ? Hnotin Hnd']; subst.
  destruct Hin as [->|Hin].
  - apply lastWith_none in Hnotin. rewrite Hnotin. now rewrite String.eqb_refl.
  - now rewrite (IH Hnd' Hin).
Qed.

Lemma in_map_set_weak (k : string) (v : V) (m : jsmap V) kv :
  In kv (map_set k v m) -> kv = (k, v) \/ In kv m.
Proof.
  induction m as [|[k' v'] m IH]; simpl.
  - intros [<-|[]]. now left.
  - destruct (String.eqb k' k); simpl.
    + intros [<-|H]; auto.
    + intros [<-|H]; auto. destruct (IH H); auto.
Qed.

Lemma map_set_all_cons x l (m : jsmap V) :
  map_set_all (keyed (x :: l)) m = map_set_all (keyed l) (map_set (key x) x m).
Proof. reflexivity. Qed.

Lemma map_get_set_all l : forall (m : jsmap V) k,
  map_get k (map_set_all (keyed l) m) =
  match lastWith k l with Some x => Some x | None => map_get k m end.
Proof.
  induction l as [|x l IH]; intros m k; [reflexivity|].
  rewrite map_set_all_cons, IH. simpl. destruct (lastWith k l); [reflexivity|].
  destruct (String.eqb (key x) k) eqn:Ek.
  - apply String.eqb_eq in Ek. subst k. apply map_get_set_same.
  - apply String.eqb_neq in Ek. now apply map_get_set_other.
Qed.

Lemma NoDup_set_all l : forall m : jsmap V,
  NoDup (map_keys m) -> NoDup (map_keys (map_set_all (keyed l) m)).
Proof.
  induction l as [|x l IH]; intros m H; [exact H|].
  rewrite map_set_all_cons. apply IH. now apply NoDup_keys_set.
Qed.

Lemma keyed_set_all l : forall m : jsmap V,
  (forall k v, In (k, v) m -> key v = k) ->
  forall k v, In (k, v) (map_set_all (keyed l) m) -> key v = k.
Proof.
  induction l as [|x l IH]; intros m H; [exact H|].
  rewrite map_set_all_cons. apply IH. intros k v Hin.
  apply in_map_set_weak in Hin. destruct Hin as [[= -> ->]|Hin]; auto.
Qed.

Lemma map_set_all_fresh l : forall m : jsmap V,
  NoDup (map_keys m ++ map key l) -> map_set_all (keyed l) m = m ++ keyed l.
Proof.
  induction l as [|x l IH]; intros m H; simpl.
  - now rewrite app_nil_r.
  - fold (keyed l). change (fold_left _ (keyed l) ?a) with (map_set_all (keyed l) a).
    assert (Hfresh : ~ In (key x) (map_keys m)).
    { intros Hin. apply NoDup_remove_2 in H. apply H, in_or_app. now left. }
    rewrite map_set_fresh by exact Hfresh.
    rewrite IH.
    + now rewrite <- app_assoc.
    + unfold map_keys in *. rewrite map_app, <- app_assoc. exact H.
Qed.

(** [mergeBy] loads the live collection and then the incoming one into one
    map. *)
Lemma mergeBy_unfold live incoming :
  mergeBy key live incoming = map_values (map_set_all (keyed (live ++ incoming)) []).
Proof.
  unfold mergeBy, map_set_all, keyed. now rewrite map_app, fold_left_app.
Qed.

Lemma mergeBy_in live incoming x :
  In x (mergeBy key live incoming) <-> holds (live ++ incoming) x.
Proof.
  rewrite mergeBy_unfold. set (M := map_set_all (keyed (live ++ incoming)) []).
  assert (Hnd : NoDup (map_keys M)) by (apply NoDup_set_all; constructor).
  assert (Hk : forall k v, In (k, v) M -> key v = k)
    by (apply keyed_set_all; intros k v []).
  assert (Hget : forall k, map_get k M = lastWith k (live ++ incoming)).
  { intros k. unfold M. rewrite map_get_set_all. now destruct (lastWith k _). }
  unfold holds. rewrite <- Hget, in_map_values. split.
  - intros [k H]. pose proof (Hk _ _ H) as E. subst k. now apply in_get.
  - intros H. exists (key x). now apply map_get_in.
Qed.

Lemma mergeBy_NoDup live incoming : NoDup (map key (mergeBy key live incoming)).
Proof.
  rewrite mergeBy_unfold.
  rewrite map_values_keys by (apply keyed_set_all; intros k v []).
  apply NoDup_set_all. constructor.
Qed.

Lemma mergeBy_disjoint live incoming :
  NoDup (map key live) -> NoDup (map key incoming) ->
  (forall x, In x incoming -> ~ In (key x) (map key live)) ->
  mergeBy key live incoming = live ++ incoming.
Proof.
  intros H1 H2 H3. rewrite mergeBy_unfold, map_set_all_fresh.
  - simpl. unfold map_values, keyed. rewrite map_map. simpl. apply map_id.
  - simpl. rewrite map_app. apply NoDup_app; auto.
    intros k Hk Hk'. apply in_map_iff in Hk'. destruct Hk' as (x & <- & Hx).
    exact (H3 x Hx Hk).
Qed.

(** A record of the incoming set takes the place of every record that has
    its key. *)
Lemma mergeBy_overwrites live incoming x y :
  holds incoming y -> key x = key y ->
  In y (mergeBy key live incoming) /\ (In x (mergeBy key live incoming) -> x = y).
Proof.
  intros Hy E. split.
  - apply mergeBy_in. unfold holds in *. rewrite lastWith_app. now rewrite Hy.
  - intros Hx. apply mergeBy_in in Hx. unfold holds in *.
    rewrite lastWith_app, E, Hy in Hx. now injection Hx.
Qed.

(** Under a key the incoming set does not have, the merge keeps the record
    the live collection keeps, which is the last one it has under that key. *)
Lemma mergeBy_live_only live incoming x :
  ~ In (key x) (map key incoming) ->
  In x (mergeBy key live incoming) <-> holds live x.
Proof.
  intros Hn. rewrite mergeBy_in. unfold holds. rewrite lastWith_app.
  apply lastWith_none in Hn. rewrite Hn. tauto.
Qed.

(** What an additive merge leaves, key by key. *)
Definition lastWriterWins (live incoming merged : list V) : Prop :=
  NoDup (map key merged)
  /\ (forall x, In x merged <-> holds (live ++ incoming) x)
  /\ (forall x, holds incoming x -> In x merged)
  /\ (forall x, holds live x -> ~ In (key x) (map key incoming) -> In x merged)
  /\ (NoDup (map key live) ->
      forall x, In x live -> ~ In (key x) (map key incoming) -> In x merged)
  /\ (forall x, In x merged -> In x live \/ In x incoming)
  /\ (NoDup (map key live) -> NoDup (map key incoming) ->
      (forall x, In x incoming -> ~ In (key x) (map key live)) ->
      merged = live ++ incoming).

Lemma mergeBy_lastWriterWins live incoming :
  lastWriterWins live incoming (mergeBy key live incoming).
Proof.
  assert (Hin : forall x, holds incoming x -> In x (mergeBy key live incoming)).
  { intros x H. apply mergeBy_in. unfold holds in *. rewrite lastWith_app. now rewrite H. }
  assert (Hlive : forall x, holds live x -> ~ In (key x) (map key incoming) ->
                            In x (mergeBy key live incoming)).
  { intros x H Hn. apply mergeBy_in. unfold holds in *. rewrite lastWith_app.
    apply lastWith_none in Hn. now rewrite Hn. }
  split; [apply mergeBy_NoDup|]. split; [apply mergeBy_in|].
  split; [exact Hin|]. split; [exact Hlive|].
  split; [intros Hnd x Hx; apply Hlive; now apply holds_unique|].
  split; [|apply mergeBy_disjoint].
  intros x H. apply mergeBy_in in H. apply lastWith_some in H.
  destruct H as [_ H]. now apply in_app_or.
Qed.

End MergeFacts.

(** ** The coordinator *)

Section ShellFacts.

Variables Notice Message : Type.
Variable MOCK_USERS : list User.t.
Variable MOCK_FILES : list PropertyFile.t.
Variable MOCK_NOTICES : list Notice.
Variable MOCK_MESSAGES : list Message.
Variable cloudEnabled : bool.
Variable jsonClone : forall A : Type, A -> A.

Implicit Types s : App Notice Message.

(** The two collections a mass import sets, whatever its writes meet. *)
Definition nextUsers (data : ImportData) (isDestructive : bool) s : list User.t :=
  if isDestructive then data_users data
  else mergeBy userKey (users s) (data_users data).

Definition nextFiles (data : ImportData) (isDestructive : bool) s
    : list PropertyFile.t :=
  if isDestructive then data_files data
  else mergeBy fileKey (allFiles s) (data_files data).

Lemma handleMassImport_registry data isDestructive o s :
  users (handleMassImport cloudEnabled jsonClone data isDestructive o s) = nextUsers data isDestructive s
  /\ allFiles (handleMassImport cloudEnabled jsonClone data isDestructive o s) = nextFiles data isDestructive s.
Proof.
  unfold handleMassImport, setItem, syncToCloud, nextUsers, nextFiles.
  destruct o as [[] [] [] []]; destruct cloudEnabled; simpl; auto.
Qed.

Lemma handleMasterSync_registry now text o s :
  users (handleMasterSync cloudEnabled jsonClone now text o s)
  = match parseRegistry now text with Some d => data_users d | None => users s end
  /\ allFiles (handleMasterSync cloudEnabled jsonClone now text o s)
     = match parseRegistry now text with Some d => data_files d | None => allFiles s end.
Proof.
  unfold handleMasterSync. destruct (parseRegistry now text) as [d|]; simpl; auto.
  apply (handleMassImport_registry d true o s).
Qed.

(** C5 (amended).  In an additive merge each collection becomes the
    last-writer-wins overlay of the incoming set on the live one: one record
    per key; under a key of the incoming set, the incoming record as it is;
    under a key that only the live registry has, the record the live
    registry keeps under it, transactions included; nothing that is in
    neither.  The key of a member is its normalised identity, so that an
    incoming member takes the place of a live one written in another raw
    form of the same identity; the key of an account is its code.  Under a
    key the live registry has more than once, only its last record is kept.
    When the live registry has one account per code and the incoming codes
    are all new, the accounts are the prior ones, unchanged and in place,
    followed by the incoming ones. *)
Theorem additive_merge_last_writer_wins data o s :
  let s' := handleMassImport cloudEnabled jsonClone data false o s in
  lastWriterWins userKey (users s) (data_users data) (users s')
  /\ lastWriterWins fileKey (allFiles s) (data_files data) (allFiles s')
  /\ (forall u v,
        holds userKey (data_users data) v ->
        normCNIC (User.cnic u) = normCNIC (User.cnic v) ->
        In v (users s') /\ (In u (users s') -> u = v))
  /\ (forall f g,
        holds fileKey (data_files data) g ->
        PropertyFile.fileNo f = PropertyFile.fileNo g ->
        In g (allFiles s') /\ (In f (allFiles s') -> f = g))
  /\ (forall u,
        ~ In (normCNIC (User.cnic u)) (map userKey (data_users data)) ->
        (In u (users s') <-> holds userKey (users s) u))
  /\ (forall f,
        ~ In (PropertyFile.fileNo f) (map fileKey (data_files data)) ->
        (In f (allFiles s') <-> holds fileKey (allFiles s) f))
  /\ (NoDup (map fileKey (allFiles s)) ->
      NoDup (map fileKey (data_files data)) ->
      (forall f, In f (data_files data) -> ~ In (fileKey f) (map fileKey (allFiles s))) ->
      allFiles s' = allFiles s ++ data_files data).
Proof.
  intros s'. destruct (handleMassImport_registry data false o s) as [Eu Ef].
  fold s' in Eu, Ef. rewrite Eu, Ef. unfold nextUsers, nextFiles.
  split; [apply mergeBy_lastWriterWins|]. split; [apply mergeBy_lastWriterWins|].
  split; [intros u v Hv E; now apply mergeBy_overwrites|].
  split; [intros f g Hg E; now apply mergeBy_overwrites|].
  split; [intros u Hu; now apply mergeBy_live_only|].
  split; [intros f Hf; now apply mergeBy_live_only|].
  apply mergeBy_disjoint.
Qed.

(** What [syncToCloud] writes to the console for an outcome. *)
Definition failureLog (o : RemoteOutcome) : list string :=
  match o with
  | Failed => ["Cloud Sync Failed:"]
  | Acked | Refused => []
  end.

(** What a write of [AsyncStorage.setItem] writes to the console, and the
    slot it leaves. *)
Definition writeLog (o : StoreOutcome) : list string :=
  match o with
  | DbUnavailable => ["Critical Persistence Error:"]
  | StoreOk | TxFailed => []
  end.

Definition written (A : Type) (o : StoreOutcome) (value : A) (slot : option A)
    : option A :=
  match o with
  | StoreOk => Some (jsonClone value)
  | DbUnavailable | TxFailed => slot
  end.

Definition saveLog (o : Saves) : list string :=
  writeLog (save_users o) ++ writeLog (save_files o)
    ++ writeLog (save_notices o) ++ writeLog (save_messages o).

(** The auto-save changes the store and the console and nothing else. *)
Lemma autoSave_state o s :
  users (autoSave jsonClone o s) = users s
  /\ allFiles (autoSave jsonClone o s) = allFiles s
  /\ notices (autoSave jsonClone o s) = notices s
  /\ messages (autoSave jsonClone o s) = messages s
  /\ cloud (autoSave jsonClone o s) = cloud s
  /\ alerts (autoSave jsonClone o s) = alerts s
  /\ console (autoSave jsonClone o s) = console s ++ saveLog o
  /\ stored_users (store (autoSave jsonClone o s))
     = written (save_users o) (users s) (stored_users (store s))
  /\ stored_files (store (autoSave jsonClone o s))
     = written (save_files o) (allFiles s) (stored_files (store s))
  /\ stored_notices (store (autoSave jsonClone o s))
     = written (save_notices o) (notices s) (stored_notices (store s))
  /\ stored_messages (store (autoSave jsonClone o s))
     = written (save_messages o) (messages s) (stored_messages (store s)).
Proof.
  destruct o as [[] [] [] []]; unfold autoSave, setItem, saveLog; simpl;
    repeat split; rewrite <- ?app_assoc, ?app_nil_r; reflexivity.
Qed.

(** A slot that holds the copy of a collection holds it after the auto-save
    of that collection, whatever the write meets. *)
Lemma written_same (A : Type) (o : StoreOutcome) (value : A) slot :
  slot = Some (jsonClone value) -> written o value slot = Some (jsonClone value).
Proof. intros ->. now destruct o. Qed.

(** A mass import whose four calls succeed. *)
Lemma handleMassImport_succeeding data isDestructive s :
  cloudEnabled = true ->
  let s' := handleMassImport cloudEnabled jsonClone data isDestructive
              (mkOutcomes StoreOk StoreOk Acked Acked) s in
  users s' = nextUsers data isDestructive s
  /\ allFiles s' = nextFiles data isDestructive s
  /\ stored_users (store s') = Some (jsonClone (users s'))
  /\ stored_files (store s') = Some (jsonClone (allFiles s'))
  /\ cloud s' = cloud s ++ [("profiles", UserRows (jsonClone (users s')));
                            ("property_files", FileRows (jsonClone (allFiles s')))]
  /\ console s' = console s.
Proof.
  intros Hcloud. unfold handleMassImport, setItem, syncToCloud, nextUsers, nextFiles.
  rewrite Hcloud. simpl. repeat split. now rewrite <- app_assoc.
Qed.

(** Remote failure, as far as the code goes: the part of C7 that holds,
    and what the code does instead of the rest.  With the mirror
    configured and the local writes succeeding, a mass import logs each of
    its two upserts that rejects and logs nothing for one that resolves
    with an error; either way it leaves the registry and the local store
    exactly as the same import with successful upserts leaves them, and
    when neither upsert is accepted the mirror receives nothing.  The
    auto-save that follows changes neither the registry nor the two
    snapshots, whatever its writes meet.  The next mass import, its writes
    succeeding, works from that registry, and what it stores locally and
    upserts is the registry after both.  An upsert that is not accepted on
    the path of [handleUpdateUsers] is logged if it rejects and touches
    neither the users just set nor the mirror; the auto-save that follows
    stores those users. *)
Theorem remote_failure_is_contained d1 m1 d2 m2 ru rf sv s :
  cloudEnabled = true ->
  let succeeding := mkOutcomes StoreOk StoreOk Acked Acked in
  let s1 := handleMassImport cloudEnabled jsonClone d1 m1
              (mkOutcomes StoreOk StoreOk ru rf) s in
  let s1' := autoSave jsonClone sv s1 in
  let s2 := handleMassImport cloudEnabled jsonClone d2 m2 succeeding s1' in
  console s1 = console s ++ failureLog ru ++ failureLog rf
  /\ (ru <> Acked -> rf <> Acked -> cloud s1 = cloud s)
  /\ users s1 = users (handleMassImport cloudEnabled jsonClone d1 m1 succeeding s)
  /\ allFiles s1 = allFiles (handleMassImport cloudEnabled jsonClone d1 m1 succeeding s)
  /\ store s1 = store (handleMassImport cloudEnabled jsonClone d1 m1 succeeding s)
  /\ stored_users (store s1) = Some (jsonClone (users s1))
  /\ stored_files (store s1) = Some (jsonClone (allFiles s1))
  /\ users s1' = users s1
  /\ allFiles s1' = allFiles s1
  /\ stored_users (store s1') = Some (jsonClone (users s1))
  /\ stored_files (store s1') = Some (jsonClone (allFiles s1))
  /\ cloud s1' = cloud s1
  /\ users s2 = nextUsers d2 m2 s1
  /\ allFiles s2 = nextFiles d2 m2 s1
  /\ stored_users (store s2) = Some (jsonClone (users s2))
  /\ stored_files (store s2) = Some (jsonClone (allFiles s2))
  /\ cloud s2 = cloud s1 ++ [("profiles", UserRows (jsonClone (users s2)));
                             ("property_files", FileRows (jsonClone (allFiles s2)))]
  /\ console s2 = console s1'
  /\ forall u o sv',
       o <> Acked ->
       let s3 := handleUpdateUsers cloudEnabled jsonClone u o s in
       let s3' := autoSave jsonClone sv' s3 in
       console s3 = console s ++ failureLog o
       /\ users s3' = u /\ allFiles s3' = allFiles s /\ cloud s3' = cloud s
       /\ (save_users sv' = StoreOk -> stored_users (store s3') = Some (jsonClone u)).
Proof.
  intros Hcloud succeeding s1 s1' s2.
  assert (H1 : console s1 = console s ++ failureLog ru ++ failureLog rf
               /\ (ru <> Acked -> rf <> Acked -> cloud s1 = cloud s)
               /\ users s1
                  = users (handleMassImport cloudEnabled jsonClone d1 m1 succeeding s)
               /\ allFiles s1
                  = allFiles (handleMassImport cloudEnabled jsonClone d1 m1 succeeding s)
               /\ store s1
                  = store (handleMassImport cloudEnabled jsonClone d1 m1 succeeding s)
               /\ stored_users (store s1) = Some (jsonClone (users s1))
               /\ stored_files (store s1) = Some (jsonClone (allFiles s1))).
  { unfold s1, succeeding, handleMassImport, setItem, syncToCloud.
    rewrite Hcloud. destruct ru, rf; simpl;
      repeat split; try reflexivity; try (intros; exfalso; congruence);
      rewrite <- ?app_assoc, ?app_nil_r; reflexivity. }
  destruct H1 as (Hc & Hcl & Hu & Hf & Hst & Hsu & Hsf).
  destruct (autoSave_state sv s1)
    as (Au & Af & _ & _ & Ac & _ & _ & Asu & Asf & _ & _).
  fold s1' in Au, Af, Ac, Asu, Asf.
  destruct (handleMassImport_succeeding d2 m2 s1' Hcloud)
    as (Bu & Bf & Bsu & Bsf & Bc & Bco).
  fold succeeding in Bu, Bf, Bsu, Bsf, Bc, Bco. fold s2 in Bu, Bf, Bsu, Bsf, Bc, Bco.
  do 7 (split; [assumption|]).
  split; [exact Au|]. split; [exact Af|].
  split; [rewrite Asu; now apply written_same|].
  split; [rewrite Asf; now apply written_same|].
  split; [exact Ac|].
  split; [rewrite Bu; unfold nextUsers; now rewrite Au|].
  split; [rewrite Bf; unfold nextFiles; now rewrite Af|].
  split; [exact Bsu|]. split; [exact Bsf|].
  split; [rewrite Bc; now rewrite Ac|]. split; [exact Bco|].
  intros u o sv' Ho s3 s3'.
  destruct (autoSave_state sv' s3) as (Cu & Cf & _ & _ & Cc & _ & _ & Csu & _).
  fold s3' in Cu, Cf, Cc, Csu. rewrite Cu, Cf, Cc, Csu.
  unfold s3, handleUpdateUsers, syncToCloud. rewrite Hcloud.
  destruct o; try congruence; simpl; repeat split; try (now rewrite app_nil_r);
    intros ->; reflexivity.
Qed.

(** C8 (hydration).  When the four reads of [boot] are answered, each
    collection is the stored snapshot if the store has one under its key,
    an empty snapshot included, and the seed collection if it has none;
    with no mirror configured that is the state [boot] leaves. *)
Theorem boot_hydrates_from_store r s :
  read_users r = StoreOk -> read_files r = StoreOk ->
  read_notices r = StoreOk -> read_messages r = StoreOk ->
  exists s',
    localHydrate MOCK_USERS MOCK_FILES MOCK_NOTICES MOCK_MESSAGES r s = Some s'
    /\ users s' = match stored_users (store s) with Some v => v | None => MOCK_USERS end
    /\ allFiles s' = match stored_files (store s) with Some v => v | None => MOCK_FILES end
    /\ notices s'
       = match stored_notices (store s) with Some v => v | None => MOCK_NOTICES end
    /\ messages s'
       = match stored_messages (store s) with Some v => v | None => MOCK_MESSAGES end
    /\ (cloudEnabled = false ->
        boot MOCK_USERS MOCK_FILES MOCK_NOTICES MOCK_MESSAGES cloudEnabled r s = s').
Proof.
  intros Hu Hf Hn Hm. unfold boot, localHydrate, getItem. rewrite Hu, Hf, Hn, Hm.
  destruct (stored_users (store s)), (stored_files (store s)),
    (stored_notices (store s)), (stored_messages (store s)); simpl;
    eexists; (split; [reflexivity|]); simpl; repeat split; try reflexivity;
    intros ->; reflexivity.
Qed.

(** X20. Fewer than two non-empty lines: the import is rejected with the
    format alert and nothing else changes. *)
Lemma too_few_lines_rejected now text o s :
  (List.length (nonEmptyLines text) < 2)%nat ->
  handleMasterSync cloudEnabled jsonClone now text o s
  = alert "Format Error: Verify CSV headers match SAP standard." s.
Proof.
  unfold handleMasterSync, parseRegistry.
  destruct (nonEmptyLines text) as [|h [|row rows]]; simpl; try reflexivity. lia.
Qed.

End ShellFacts.

(** ** The clock in the import

    [Date.now()] enters a transaction through [transid] and through nothing
    else. *)

Definition setTransid (z : Z) (t : Transaction.t) : Transaction.t :=
  {| Transaction.seq := Transaction.seq t;
     Transaction.transid := z;
     Transaction.line_id := Transaction.line_id t;
     Transaction.shortname := Transaction.shortname t;
     Transaction.duedate := Transaction.duedate t;
     Transaction.receivable := Transaction.receivable t;
     Transaction.u_intno := Transaction.u_intno t;
     Transaction.u_intname := Transaction.u_intname t;
     Transaction.transtype := Transaction.transtype t;
     Transaction.itemcode := Transaction.itemcode t;
     Transaction.plottype := Transaction.plottype t;
     Transaction.currency := Transaction.currency t;
     Transaction.description := Transaction.description t;
     Transaction.doctotal := Transaction.doctotal t;
     Transaction.status := Transaction.status t;
     Transaction.balance := Transaction.balance t;
     Transaction.balduedeb := Transaction.balduedeb t;
     Transaction.paysrc := Transaction.paysrc t;
     Transaction.amount_paid := Transaction.amount_paid t;
     Transaction.receipt_date := Transaction.receipt_date t;
     Transaction.mode := Transaction.mode t;
     Transaction.surcharge := Transaction.surcharge t |}.

(** The transaction with the [transid] an import gives it under the clock
    [now], and with no [transid] to speak of. *)
Definition stampedAt (now : nat -> Z) (t : Transaction.t) : Transaction.t :=
  setTransid (now (Z.to_nat (Transaction.seq t)) + Transaction.seq t)%Z t.

Definition untimed (t : Transaction.t) : Transaction.t := setTransid 0%Z t.

Definition onTransactions (g : Transaction.t -> Transaction.t) (f : PropertyFile.t)
    : PropertyFile.t :=
  {| PropertyFile.fileNo := PropertyFile.fileNo f;
     PropertyFile.currencyNo := PropertyFile.currencyNo f;
     PropertyFile.plotSize := PropertyFile.plotSize f;
     PropertyFile.plotValue := PropertyFile.plotValue f;
     PropertyFile.balance := PropertyFile.balance f;
     PropertyFile.receivable := PropertyFile.receivable f;
     PropertyFile.totalReceivable := PropertyFile.totalReceivable f;
     PropertyFile.paymentReceived := PropertyFile.paymentReceived f;
     PropertyFile.surcharge := PropertyFile.surcharge f;
     PropertyFile.overdue := PropertyFile.overdue f;
     PropertyFile.ownerName := PropertyFile.ownerName f;
     PropertyFile.ownerCNIC := PropertyFile.ownerCNIC f;
     PropertyFile.fatherName := PropertyFile.fatherName f;
     PropertyFile.cellNo := PropertyFile.cellNo f;
     PropertyFile.regDate := PropertyFile.regDate f;
     PropertyFile.address := PropertyFile.address f;
     PropertyFile.plotNo := PropertyFile.plotNo f;
     PropertyFile.block := PropertyFile.block f;
     PropertyFile.park := PropertyFile.park f;
     PropertyFile.corner := PropertyFile.corner f;
     PropertyFile.mainBoulevard := PropertyFile.mainBoulevard f;
     PropertyFile.transactions := map g (PropertyFile.transactions f) |}.

Definition retimed (now : nat -> Z) (d : ImportData) : ImportData :=
  mkData (data_users d) (map (onTransactions (stampedAt now)) (data_files d)).

Definition mapv (V : Type) (g : V -> V) (m : jsmap V) : jsmap V :=
  map (fun kv => (fst kv, g (snd kv))) m.

Section ClockFacts.

Variable now : nat -> Z.
Variable normH : list string.

Let now0 : nat -> Z := fun _ => 0%Z.
Let G : PropertyFile.t -> PropertyFile.t := onTransactions (stampedAt now).

Lemma map_get_mapv (V : Type) (g : V -> V) k (m : jsmap V) :
  map_get k (mapv g m) = option_map g (map_get k m).
Proof.
  induction m as [|[k' v] m IH]; simpl; [reflexivity|].
  now destruct (String.eqb k' k).
Qed.

Lemma map_has_mapv (V : Type) (g : V -> V) k (m : jsmap V) :
  map_has k (mapv g m) = map_has k m.
Proof. unfold map_has. rewrite map_get_mapv. now destruct (map_get k m). Qed.

Lemma map_set_mapv (V : Type) (g : V -> V) k v (m : jsmap V) :
  map_set k (g v) (mapv g m) = mapv g (map_set k v m).
Proof.
  induction m as [|[k' v'] m IH]; simpl; [reflexivity|].
  destruct (String.eqb k' k); simpl; [reflexivity | now rewrite IH].
Qed.

Lemma map_values_mapv (V : Type) (g : V -> V) (m : jsmap V) :
  map_values (mapv g m) = map g (map_values m).
Proof. unfold map_values, mapv. rewrite !map_map. reflexivity. Qed.

Lemma stampedAt_newTransaction idx cols pv :
  stampedAt now (newTransaction now0 normH idx cols pv)
  = newTransaction now normH idx cols pv.
Proof. unfold stampedAt, setTransid. simpl. now rewrite Nat2Z.id. Qed.

Lemma G_post idx cols prop :
  G (post now0 normH idx cols prop) = post now normH idx cols (G prop).
Proof.
  unfold G, onTransactions, post. simpl.
  now rewrite map_app, <- stampedAt_newTransaction.
Qed.

Lemma processRow_clock um fm i line :
  processRow now normH (um, mapv G fm) i line
  = (fst (processRow now0 normH (um, fm) i line),
     mapv G (snd (processRow now0 normH (um, fm) i line))).
Proof.
  unfold processRow.
  destruct (negb (contributes normH (parseCSVLine line))); [reflexivity|].
  set (cols := parseCSVLine line).
  set (um' := if map_has _ um then um else _).
  set (owner := match map_get _ um' with Some u => User.name u | None => None end).
  rewrite map_has_mapv.
  assert (E : (if map_has (itemCode_of normH cols) fm then mapv G fm
               else map_set (itemCode_of normH cols) (newFile normH cols owner) (mapv G fm))
              = mapv G (if map_has (itemCode_of normH cols) fm then fm
                        else map_set (itemCode_of normH cols) (newFile normH cols owner) fm)).
  { destruct (map_has (itemCode_of normH cols) fm); [reflexivity|].
    now rewrite <- map_set_mapv. }
  rewrite E. rewrite map_get_mapv.
  destruct (map_get (itemCode_of normH cols) _) as [prop|]; simpl; [|reflexivity].
  now rewrite <- G_post, map_set_mapv.
Qed.

Lemma forEach_clock lines : forall i um fm,
  forEach_from (processRow now normH) i lines (um, mapv G fm)
  = (fst (forEach_from (processRow now0 normH) i lines (um, fm)),
     mapv G (snd (forEach_from (processRow now0 normH) i lines (um, fm)))).
Proof.
  induction lines as [|line lines IH]; intros i um fm; cbn [forEach_from]; [reflexivity|].
  rewrite processRow_clock.
  destruct (processRow now0 normH (um, fm) i line) as [um1 fm1]. cbn [fst snd]. apply IH.
Qed.

End ClockFacts.

(** An import under any clock is the import under the clock that reads 0,
    with the [transid] of each transaction set from the clock. *)
Lemma parseRegistry_clock now text :
  parseRegistry now text = option_map (retimed now) (parseRegistry (fun _ => 0%Z) text).
Proof.
  unfold parseRegistry.
  destruct (nonEmptyLines text) as [|header [|row rows]]; try reflexivity.
  pose proof (forEach_clock now (headerOf header) (row :: rows) 0 [] []) as H.
  cbn [mapv map] in H. unfold maps, jsmap in *. rewrite H.
  clear H. match goal with |- context [fst ?x] => destruct x as [um fm] end.
  cbn [fst snd option_map]. unfold retimed. cbn [data_users data_files].
  now rewrite map_values_mapv.
Qed.

Lemma untimed_stampedAt now t : untimed (stampedAt now t) = untimed t.
Proof. reflexivity. Qed.

Lemma untimed_retimed now f :
  onTransactions untimed (onTransactions (stampedAt now) f) = onTransactions untimed f.
Proof. unfold onTransactions. simpl. now rewrite map_map. Qed.

Lemma stampedAt_ext now1 now2 f :
  (forall i, now1 i = now2 i) ->
  onTransactions (stampedAt now1) f = onTransactions (stampedAt now2) f.
Proof.
  intros H. unfold onTransactions. f_equal. apply map_ext. intros t.
  unfold stampedAt. now rewrite H.
Qed.

(** ** Importing the same text again *)

(** C3 (amended).  Importing a text and importing it again leaves the same
    members, and the same accounts in every field but the [transid] of their
    transactions, which is the reading of the clock at the row plus the row
    index; when the clock reads the same at each row in both imports, the
    two registries are identical. *)
Theorem reimport_same_but_transid (Notice Message : Type) (cloudEnabled : bool)
    (jsonClone : forall A : Type, A -> A) (now1 now2 : nat -> Z) (text : string)
    (o1 o2 : Outcomes) (s : App Notice Message) :
  let once := handleMasterSync cloudEnabled jsonClone now1 text o1 s in
  let twice := handleMasterSync cloudEnabled jsonClone now2 text o2 once in
  users twice = users once
  /\ map (onTransactions untimed) (allFiles twice)
     = map (onTransactions untimed) (allFiles once)
  /\ ((forall i, now1 i = now2 i) -> allFiles twice = allFiles once)
  /\ parseRegistry now2 text = option_map (retimed now2) (parseRegistry now1 text).
Proof.
  intros once twice.
  destruct (handleMasterSync_registry cloudEnabled jsonClone now1 text o1 s) as [Eu1 Ef1].
  destruct (handleMasterSync_registry cloudEnabled jsonClone now2 text o2 once) as [Eu2 Ef2].
  fold once in Eu1, Ef1. fold twice in Eu2, Ef2. rewrite Eu2, Ef2, Eu1, Ef1.
  rewrite (parseRegistry_clock now1 text), (parseRegistry_clock now2 text).
  destruct (parseRegistry (fun _ => 0%Z) text) as [d0|]; simpl; [|auto].
  split; [reflexivity|]. split; [|split].
  - rewrite !map_map. apply map_ext. intros f. now rewrite !untimed_retimed.
  - intros H. apply map_ext. intros f. symmetry. now apply stampedAt_ext.
  - unfold retimed. simpl. f_equal. f_equal. rewrite map_map. apply map_ext. intros f.
    unfold onTransactions. simpl. f_equal. rewrite map_map. apply map_ext. intros t.
    reflexivity.
Qed.

(** ** Instances to evaluate the coordinator on *)

Definition plainClone : forall A : Type, A -> A := fun _ x => x.

Definition allOk : Outcomes := mkOutcomes StoreOk StoreOk Acked Acked.

Definition emptyStore : Store unit unit := mkStore None None None None.

(** A shell whose registry holds what the scenario yields. *)
Definition liveShell : App unit unit :=
  mkApp (data_users scenarioData) (data_files scenarioData) [] [] emptyStore [] [] [].

Lemma reimport_same_but_transid_witness :
  (forall i : nat, (fun _ : nat => 5%Z) i = (fun _ : nat => 5%Z) i)
  /\ allFiles (handleMasterSync false plainClone (fun _ => 5%Z) scenario allOk
                 (handleMasterSync false plainClone (fun _ => 5%Z) scenario allOk liveShell))
     = allFiles (handleMasterSync false plainClone (fun _ => 5%Z) scenario allOk liveShell).
Proof.
  split; [reflexivity|].
  apply (reimport_same_but_transid false plainClone (fun _ => 5%Z) (fun _ => 5%Z)
           scenario allOk allOk liveShell).
  reflexivity.
Defined.

(** C3, as stated, fails: the scenario imported when the clock reads 0 and
    again when it reads 1 leaves transactions whose [transid] differ from
    those of the single import. *)
Lemma reimport_not_identical :
  let once := handleMasterSync false plainClone (fun _ => 0%Z) scenario allOk liveShell in
  let twice := handleMasterSync false plainClone (fun _ => 1%Z) scenario allOk once in
  allFiles twice <> allFiles once
  /\ map Transaction.transid (flat_map PropertyFile.transactions (allFiles once)) = [0; 1]%Z
  /\ map Transaction.transid (flat_map PropertyFile.transactions (allFiles twice)) = [1; 2]%Z.
Proof.
  intros once twice.
  assert (H1 : map Transaction.transid (flat_map PropertyFile.transactions (allFiles once))
               = [0; 1]%Z) by (vm_compute; reflexivity).
  assert (H2 : map Transaction.transid (flat_map PropertyFile.transactions (allFiles twice))
               = [1; 2]%Z) by (vm_compute; reflexivity).
  split; [|auto]. intros E.
  apply (f_equal (fun l => map Transaction.transid (flat_map PropertyFile.transactions l)))
    in E.
  cbv beta in E. rewrite H1, H2 in E. discriminate E.
Qed.

(** ** A header that resolves no required column *)

Lemma forEach_from_fixed (A St : Type) (f : St -> nat -> A -> St) (s : St) :
  (forall i x, f s i x = s) -> forall l i, forEach_from f i l s = s.
Proof.
  intros H l. induction l as [|x l IH]; intros i; simpl; [reflexivity|].
  rewrite H. apply IH.
Qed.

Lemma unresolved_column_skips_row now normH st i line :
  getIdx normH ["ocnic"; "cnic"; "u_ocnic"] = None
  \/ getIdx normH ["itemcode"; "item_code"; "u_itemcode"] = None ->
  processRow now normH st i line = st.
Proof.
  intros H. destruct st as [um fm]. unfold processRow.
  replace (contributes normH (parseCSVLine line)) with false; [reflexivity|].
  unfold contributes, rawCNIC_of, itemCode_of, col.
  destruct H as [H|H]; rewrite H; simpl; [reflexivity|].
  now rewrite orb_true_r.
Qed.

(** With at least two non-empty lines and such a header nothing is thrown:
    every row is skipped and two empty collections are handed over. *)
Lemma unresolved_header_builds_nothing now text :
  (2 <= List.length (nonEmptyLines text))%nat ->
  getIdx (headerRow text) ["ocnic"; "cnic"; "u_ocnic"] = None
  \/ getIdx (headerRow text) ["itemcode"; "item_code"; "u_itemcode"] = None ->
  parseRegistry now text = Some (mkData [] []).
Proof.
  unfold parseRegistry, headerRow.
  destruct (nonEmptyLines text) as [|header [|row rows]]; cbn [List.length hd]; try lia.
  intros _ H.
  rewrite forEach_from_fixed; [reflexivity|].
  intros i x. now apply unresolved_column_skips_row.
Qed.

(** A text with a header of other names over one data row. *)
Definition foreignHeader : string :=
  ("Member,Plot" ++ String Js.LF "12345-6789012-3,P-001")%string.

(** C1 (the code at the failing input).  The header resolves neither required
    column and the text has two non-empty lines; the import is not rejected:
    the registry that held a member and an account is replaced by two empty
    collections, and the alert reports a successful sync of 0 properties. *)
Theorem unresolved_header_is_not_rejected :
  let s' := handleMasterSync false plainClone (fun _ => 0%Z) foreignHeader allOk liveShell in
  List.length (nonEmptyLines foreignHeader) = 2%nat
  /\ getIdx (headerRow foreignHeader) ["ocnic"; "cnic"; "u_ocnic"] = None
  /\ getIdx (headerRow foreignHeader) ["itemcode"; "item_code"; "u_itemcode"] = None
  /\ List.length (users liveShell) = 1%nat
  /\ List.length (allFiles liveShell) = 1%nat
  /\ users s' = []
  /\ allFiles s' = []
  /\ alerts s' = ["Registry Sync Successful: 0 properties registered."].
Proof. vm_compute. repeat split; reflexivity. Qed.

(** ** Registration *)

Lemma find_none_iff (A : Type) (p : A -> bool) (l : list A) :
  (forall x, In x l -> p x = false) -> find p l = None.
Proof.
  induction l as [|x l IH]; simpl; intros H; [reflexivity|].
  rewrite (H x (or_introl eq_refl)). apply IH. intros y Hy. apply H. now right.
Qed.






(** A claimant who types the identity of the scenario's member without
    dashes, and one who types it as the export has it. *)
Definition claimant : User.t :=
  {| User.id := Some "u-1";
     User.cnic := "1234567890123";
     User.name := Some "Ali Khan";
     User.email := Some "ali@example.com";
     User.phone := Some "0300-0000000";
     User.role := Some "CLIENT";
     User.status := Some "Pending";
     User.password := Some "s3cret" |}.




(** ** The coordinator on instances *)

(** One more account, of another code, as an import builds it. *)
Definition secondText : string :=
  ("cnic,itemcode,paid" ++ String Js.LF "35202-1111111-1,P-002,750")%string.

Definition secondData : ImportData :=
  Eval vm_compute in
    match parseRegistry (fun _ => 0%Z) secondText with
    | Some data => data
    | None => mkData [] []
    end.

(** The claimant of the scenario's identity, as an incoming set. *)
Definition claimantData : ImportData := mkData [claimant] (data_files secondData).

Lemma additive_merge_last_writer_wins_witness :
  holds userKey (data_users claimantData) claimant
  /\ User.cnic scenarioMember <> User.cnic claimant
  /\ normCNIC (User.cnic scenarioMember) = normCNIC (User.cnic claimant)
  /\ In scenarioMember (users liveShell)
  /\ In claimant (users (handleMassImport false plainClone claimantData false allOk liveShell))
  /\ ~ In scenarioMember
         (users (handleMassImport false plainClone claimantData false allOk liveShell))
  /\ NoDup (map fileKey (allFiles liveShell))
  /\ NoDup (map fileKey (data_files claimantData))
  /\ (forall f, In f (data_files claimantData) ->
                ~ In (fileKey f) (map fileKey (allFiles liveShell)))
  /\ allFiles (handleMassImport false plainClone claimantData false allOk liveShell)
     = allFiles liveShell ++ data_files claimantData.
Proof.
  assert (H0 : holds userKey (data_users claimantData) claimant) by reflexivity.
  assert (E : normCNIC (User.cnic scenarioMember) = normCNIC (User.cnic claimant))
    by reflexivity.
  assert (H1 : NoDup (map fileKey (allFiles liveShell)))
    by (repeat constructor; simpl; tauto).
  assert (H2 : NoDup (map fileKey (data_files claimantData)))
    by (repeat constructor; simpl; tauto).
  assert (H3 : forall f, In f (data_files claimantData) ->
                         ~ In (fileKey f) (map fileKey (allFiles liveShell))).
  { intros f [<-|[]]. simpl. intros [H|[]]. discriminate H. }
  pose proof (additive_merge_last_writer_wins false plainClone claimantData allOk liveShell)
    as (_ & _ & Hid & _ & _ & _ & Hnew).
  destruct (Hid scenarioMember claimant H0 E) as [Hin Hout].
  split; [exact H0|]. split; [discriminate|]. split; [exact E|].
  split; [now left|]. split; [exact Hin|].
  split; [intros H; apply Hout in H; discriminate H|].
  split; [exact H1|]. split; [exact H2|]. split; [exact H3|].
  exact (Hnew H1 H2 H3).
Defined.

(** A live registry that holds the scenario's account twice, as two records
    of one code that differ in their transaction ids. *)
Definition liveTwice : App unit unit :=
  mkApp (data_users scenarioData)
    (map (onTransactions (setTransid 7)) (data_files scenarioData)
       ++ data_files scenarioData)
    [] [] emptyStore [] [] [].

(** C5, as stated, fails where the live registry holds two accounts of one
    code: an import of one account of a new code leaves two accounts where
    there were two, the first of the prior ones being dropped. *)
Lemma new_codes_may_drop_a_prior_account :
  let s' := handleMassImport false plainClone secondData false allOk liveTwice in
  (forall f, In f (data_files secondData) ->
             ~ In (fileKey f) (map fileKey (allFiles liveTwice)))
  /\ List.length (allFiles liveTwice) = 2%nat
  /\ List.length (data_files secondData) = 1%nat
  /\ allFiles s' = data_files scenarioData ++ data_files secondData
  /\ exists f, In f (allFiles liveTwice) /\ ~ In f (allFiles s').
Proof.
  cbv zeta. split.
  { intros f [<-|[]]. simpl. intros [H|[H|[]]]; discriminate H. }
  split; [reflexivity|]. split; [reflexivity|]. split; [vm_compute; reflexivity|].
  eexists. split; [left; reflexivity|].
  assert (E : allFiles (handleMassImport false plainClone secondData false allOk liveTwice)
              = data_files scenarioData ++ data_files secondData)
    by (vm_compute; reflexivity).
  rewrite E. intros [H|[H|[]]];
    apply (f_equal (fun f => map Transaction.transid (PropertyFile.transactions f))) in H;
    vm_compute in H; discriminate H.
Qed.

(** The auto-save whose four writes are done. *)
Definition savesOk : Saves := mkSaves StoreOk StoreOk StoreOk StoreOk.

Lemma remote_failure_is_contained_witness :
  true = true
  /\ Failed <> Acked
  /\ let s1 := handleMassImport true plainClone secondData false
                 (mkOutcomes StoreOk StoreOk Failed Failed) liveShell in
     console s1 = ["Cloud Sync Failed:"; "Cloud Sync Failed:"]
     /\ cloud s1 = []
     /\ stored_files (store (autoSave plainClone savesOk s1))
        = Some (allFiles liveShell ++ data_files secondData).
Proof.
  split; [reflexivity|]. split; [discriminate|].
  pose proof (remote_failure_is_contained plainClone secondData false scenarioData true
                Failed Failed savesOk liveShell eq_refl) as H.
  cbv zeta in H. destruct H as (Hc & Hcl & _ & _ & _ & _ & _ & _ & _ & _ & Hf & _).
  split; [exact Hc|].
  split; [apply Hcl; discriminate|]. rewrite Hf. reflexivity.
Defined.

(** C7: where the code departs from it.  An upsert that resolves with an
    error is not logged, by a mass import or by [handleUpdateUsers]: the
    mirror has not taken the rows and the console is as it was, while an
    upsert that rejects is logged. *)
Lemma refused_upsert_is_not_logged :
  let s1 := handleMassImport true plainClone secondData false
              (mkOutcomes StoreOk StoreOk Refused Refused) liveShell in
  cloud s1 = cloud liveShell /\ console s1 = console liveShell
  /\ cloud (handleUpdateUsers true plainClone [claimant] Refused liveShell)
     = cloud liveShell
  /\ console (handleUpdateUsers true plainClone [claimant] Refused liveShell)
     = console liveShell
  /\ console (handleUpdateUsers true plainClone [claimant] Failed liveShell)
     = console liveShell ++ ["Cloud Sync Failed:"].
Proof.
  vm_compute. repeat split.
Qed.

(** The reads of a boot that finds the store in order and no mirror row. *)
Definition plainReads : BootReads := mkBootReads StoreOk StoreOk StoreOk StoreOk Absent Absent.

Lemma boot_hydrates_from_store_witness :
  read_users plainReads = StoreOk /\ read_files plainReads = StoreOk
  /\ read_notices plainReads = StoreOk /\ read_messages plainReads = StoreOk
  /\ exists s',
       localHydrate (data_users scenarioData) (data_files scenarioData) [] [] plainReads
         (mkApp [] [] [] [] emptyStore [] [] []) = Some s'
       /\ users s' = data_users scenarioData.
Proof.
  do 4 (split; [reflexivity|]).
  destruct (boot_hydrates_from_store (data_users scenarioData) (data_files scenarioData)
              (@nil unit) (@nil unit) false plainReads (mkApp [] [] [] [] emptyStore [] [] [])
              eq_refl eq_refl eq_refl eq_refl) as (s' & H1 & H2 & _).
  exists s'. split; [exact H1 | exact H2].
Defined.

(** C8, as stated, fails: a store that holds empty snapshots, as it does
    after an import that built nothing, hydrates the registry with those
    empty collections and not with the seed data. *)
Lemma empty_snapshot_is_not_reseeded :
  let emptied := mkStore (Some []) (Some []) (@None (list unit)) (@None (list unit)) in
  let s := boot (data_users scenarioData) (data_files scenarioData) [] [] false plainReads
             (mkApp [] [] [] [] emptied [] [] []) in
  users s = [] /\ allFiles s = []
  /\ data_users scenarioData <> [] /\ data_files scenarioData <> [].
Proof.
  simpl. repeat split; try reflexivity; discriminate.
Qed.

(** * Further properties of the import and of the coordinator *)

(** ** Strings *)

Lemma str_app_nil_r (s : string) : (s ++ "")%string = s.
Proof. induction s as [|c s IH]; simpl; [reflexivity | now rewrite IH]. Qed.

Lemma str_app_assoc (a b c : string) : ((a ++ b) ++ c)%string = (a ++ b ++ c)%string.
Proof. induction a as [|x a IH]; simpl; [reflexivity | now rewrite IH]. Qed.

(** Every character of a string passes a test. *)
Fixpoint every (p : ascii -> bool) (s : string) : bool :=
  match s with
  | EmptyString => true
  | String c s' => p c && every p s'
  end.

Lemma every_ext p q s : (forall c, p c = q c) -> every p s = every q s.
Proof. intros H. induction s as [|c s IH]; simpl; [reflexivity | now rewrite H, IH]. Qed.

Lemma every_app p a b : every p (a ++ b)%string = every p a && every p b.
Proof.
  induction a as [|c a IH]; simpl; [reflexivity|]. now rewrite IH, andb_assoc.
Qed.

(** [trimStart] drops white space code points one at a time. *)
Lemma trimStart_eq s :
  Js.trimStart s
  = match Js.skip_space s with Some r => Js.trimStart r | None => s end.
Proof.
  destruct s as [|a [|b [|c r]]]; simpl; try reflexivity.
  - destruct (Js.is_space a); reflexivity.
  - destruct (Js.is_space a); [reflexivity|]. destruct (Js.is_space2 a b); reflexivity.
  - destruct (Js.is_space a); [reflexivity|]. destruct (Js.is_space2 a b); [reflexivity|].
    destruct (Js.is_space3 a b c); reflexivity.
Qed.

(** What [skip_space] leaves is what follows the code point. *)
Lemma skip_space_suffix s r :
  Js.skip_space s = Some r -> exists w, s = (w ++ r)%string /\ w <> "".
Proof.
  destruct s as [|a [|b [|c t]]]; simpl; try discriminate.
  - destruct (Js.is_space a); [|discriminate]. intros [= <-].
    exists (String a ""). split; [reflexivity | discriminate].
  - destruct (Js.is_space a).
    + intros [= <-]. exists (String a ""). split; [reflexivity | discriminate].
    + destruct (Js.is_space2 a b); [|discriminate]. intros [= <-].
      exists (String a (String b "")). split; [reflexivity | discriminate].
  - destruct (Js.is_space a).
    + intros [= <-]. exists (String a ""). split; [reflexivity | discriminate].
    + destruct (Js.is_space2 a b).
      * intros [= <-]. exists (String a (String b "")). split; [reflexivity | discriminate].
      * destruct (Js.is_space3 a b c); [|discriminate]. intros [= <-].
        exists (String a (String b (String c ""))). split; [reflexivity | discriminate].
Qed.

Lemma skip_space_length s r :
  Js.skip_space s = Some r -> (String.length r < String.length s)%nat.
Proof.
  intros H. destruct (skip_space_suffix _ H) as (w & -> & Hw).
  rewrite length_append. destruct w; [contradiction | simpl; lia].
Qed.

Lemma skip_space_app s r t :
  Js.skip_space s = Some r -> Js.skip_space (s ++ t) = Some (r ++ t)%string.
Proof.
  destruct s as [|a [|b [|c u]]]; simpl; try discriminate.
  - destruct (Js.is_space a); [|discriminate]. now intros [= <-].
  - destruct (Js.is_space a); [now intros [= <-]|].
    destruct (Js.is_space2 a b); [|discriminate]. now intros [= <-].
  - destruct (Js.is_space a); [now intros [= <-]|].
    destruct (Js.is_space2 a b); [now intros [= <-]|].
    destruct (Js.is_space3 a b c); [|discriminate]. now intros [= <-].
Qed.

Lemma skip_space_prefix s t : Js.skip_space (s ++ t) = None -> Js.skip_space s = None.
Proof.
  destruct s as [|a [|b [|c u]]]; simpl; try reflexivity.
  - destruct (Js.is_space a); [|reflexivity]. destruct t as [|x [|y t]]; discriminate.
  - destruct (Js.is_space a); [discriminate|].
    destruct (Js.is_space2 a b); [|reflexivity]. destruct t; discriminate.
  - destruct (Js.is_space a); [discriminate|].
    destruct (Js.is_space2 a b); [discriminate|].
    destruct (Js.is_space3 a b c); [discriminate | reflexivity].
Qed.

(** Induction along the code points that [trimStart] drops. *)
Lemma skip_space_ind (P : string -> Prop) :
  (forall s, (forall r, Js.skip_space s = Some r -> P r) -> P s) -> forall s, P s.
Proof.
  intros H s. remember (String.length s) as n eqn:En. revert s En.
  induction n as [n IH] using lt_wf_ind. intros s ->.
  apply H. intros r Hr. apply (IH (String.length r)); [|reflexivity].
  now apply skip_space_length.
Qed.

Lemma trimStart_stops s : Js.skip_space (Js.trimStart s) = None.
Proof.
  induction s as [s IH] using skip_space_ind. rewrite trimStart_eq.
  destruct (Js.skip_space s) as [r|] eqn:E; [now apply IH | exact E].
Qed.

Lemma trimStart_fixed s : Js.skip_space s = None -> Js.trimStart s = s.
Proof. intros H. now rewrite trimStart_eq, H. Qed.

(** White space in front of a text does not count. *)
Lemma trimStart_app_blank s t : Js.trimStart s = "" -> Js.trimStart (s ++ t) = Js.trimStart t.
Proof.
  induction s as [s IH] using skip_space_ind. rewrite trimStart_eq.
  destruct (Js.skip_space s) as [r|] eqn:E.
  - intros H. rewrite (trimStart_eq (s ++ t)), (skip_space_app _ t E). now apply IH.
  - now intros ->.
Qed.

Lemma every_trimStart p s : every p s = true -> every p (Js.trimStart s) = true.
Proof.
  induction s as [s IH] using skip_space_ind. rewrite trimStart_eq.
  destruct (Js.skip_space s) as [r|] eqn:E; [|auto].
  intros H. pose proof (skip_space_suffix _ E) as (w & -> & _). apply (IH r eq_refl).
  rewrite every_app in H. now apply andb_true_iff in H.
Qed.

Lemma trimEnd_cons c s :
  Js.trimEnd (String c s)
  = if Js.is_empty (Js.trimStart (String c s)) then "" else String c (Js.trimEnd s).
Proof.
  change (Js.trimEnd (String c s))
    with (match Js.trimStart (String c s) with
          | EmptyString => EmptyString
          | String _ _ => String c (Js.trimEnd s)
          end).
  now destruct (Js.trimStart (String c s)).
Qed.

Lemma every_trimEnd p s : every p s = true -> every p (Js.trimEnd s) = true.
Proof.
  induction s as [|c s IH]; [auto|]. rewrite trimEnd_cons. intros H.
  destruct (Js.is_empty (Js.trimStart (String c s))); [reflexivity|].
  simpl in *. apply andb_true_iff in H. destruct H as [Hc Hs]. now rewrite Hc, IH.
Qed.

Lemma every_trim p s : every p s = true -> every p (Js.trim s) = true.
Proof. intros H. now apply every_trimEnd, every_trimStart. Qed.

Lemma is_empty_true s : Js.is_empty s = true -> s = "".
Proof. now destruct s. Qed.

(** [trimEnd] cuts a suffix made of white space. *)
Lemma trimEnd_prefix s :
  exists b, s = (Js.trimEnd s ++ b)%string /\ Js.trimStart b = "".
Proof.
  induction s as [|c s (b & E & Hb)]; [now exists ""|]. rewrite trimEnd_cons.
  destruct (Js.is_empty (Js.trimStart (String c s))) eqn:Ee.
  - exists (String c s). split; [reflexivity | now apply is_empty_true].
  - exists b. split; [simpl; now rewrite <- E | exact Hb].
Qed.

Lemma trimEnd_idempotent s : Js.trimEnd (Js.trimEnd s) = Js.trimEnd s.
Proof.
  induction s as [|c s IH]; [reflexivity|]. rewrite trimEnd_cons.
  destruct (Js.is_empty (Js.trimStart (String c s))) eqn:Ee; [reflexivity|].
  rewrite trimEnd_cons, IH.
  destruct (Js.is_empty (Js.trimStart (String c (Js.trimEnd s)))) eqn:Ef; [|reflexivity].
  exfalso. apply is_empty_true in Ef.
  destruct (trimEnd_prefix s) as (b & E & Hb).
  assert (H : Js.trimStart (String c s) = "").
  { rewrite E at 1.
    change (String c (Js.trimEnd s ++ b)) with (String c (Js.trimEnd s) ++ b)%string.
    now rewrite trimStart_app_blank. }
  now rewrite H in Ee.
Qed.

(** A text that does not start with white space does not start with it when
    its end is trimmed. *)
Lemma trimEnd_keeps_start s : Js.skip_space s = None -> Js.skip_space (Js.trimEnd s) = None.
Proof.
  intros H. destruct (trimEnd_prefix s) as (b & E & _). rewrite E in H.
  now apply skip_space_prefix in H.
Qed.

(** [trim] leaves a trimmed string as it is. *)
Lemma trim_idempotent s : Js.trim (Js.trim s) = Js.trim s.
Proof.
  unfold Js.trim.
  rewrite trimStart_fixed by apply trimEnd_keeps_start, trimStart_stops.
  apply trimEnd_idempotent.
Qed.

(** No-break space, the byte order mark and the other white space beyond
    ASCII are trimmed and skipped as the ASCII ones are. *)
Lemma trim_white_space :
  Js.trim (Js.bytes [194; 160; 32] ++ "P-1" ++ Js.bytes [226; 128; 131; 239; 187; 191; 9])
  = "P-1"
  /\ Js.trim (Js.bytes [226; 128; 168; 227; 128; 128]) = ""
  /\ parseVal (Some ("(" ++ Js.bytes [194; 160] ++ "5)")%string) = 5%float.
Proof. vm_compute. repeat split. Qed.

(** A cell that holds a no-break space beside its text names the same
    account as the text alone, a cell that holds nothing else is empty, and
    a line that holds nothing else is no line. *)
Lemma white_space_in_rows :
  let nbsp := Js.bytes [194; 160] in
  option_map
    (fun d => map (fun f => (PropertyFile.fileNo f, PropertyFile.paymentReceived f))
                (data_files d))
    (parseRegistry (fun _ => 0%Z)
       ("cnic,itemcode,paid" ++ String Js.LF "111,P-1,5" ++ String Js.LF "111,"
          ++ nbsp ++ "P-1,7")%string)
  = Some [("P-1", 12%float)]
  /\ option_map (fun d => map User.name (data_users d))
       (parseRegistry (fun _ => 0%Z)
          ("cnic,itemcode,name" ++ String Js.LF "111," ++ nbsp ++ ",Ali" ++ String Js.LF
             "111,P-1,Bob")%string)
     = Some [Some "Bob"]
  /\ parseRegistry (fun _ => 0%Z) ("ocnic,itemcode" ++ String Js.LF nbsp)%string = None.
Proof. vm_compute. repeat split. Qed.

(** ** [parseCSVLine]: fields, their number, and the round trip *)

Definition quoteFree (s : string) : bool :=
  every (fun c => negb (Ascii.eqb c Js.dquote)) s.

Definition plainField (s : string) : bool :=
  every (fun c => negb (Ascii.eqb c Js.dquote) && negb (Ascii.eqb c ",")) s.

(** A field written between double quotes. *)
Definition quoted (f : string) : string :=
  String Js.dquote (f ++ String Js.dquote "").

(** The commas of a line that stand outside quotes, [inQ] telling whether the
    line starts inside a quoted field. *)
Fixpoint commasOutside (inQ : bool) (line : string) : nat :=
  match line with
  | EmptyString => 0
  | String c rest =>
      if Ascii.eqb c Js.dquote then commasOutside (negb inQ) rest
      else if Ascii.eqb c "," && negb inQ then S (commasOutside inQ rest)
      else commasOutside inQ rest
  end.

Lemma parseCSVLine_from_length line : forall columns cur inQ,
  List.length (parseCSVLine_from columns cur inQ line)
  = (List.length columns + S (commasOutside inQ line))%nat.
Proof.
  induction line as [|c rest IH]; intros columns cur inQ; simpl.
  - rewrite length_app. simpl. lia.
  - destruct (Ascii.eqb c Js.dquote); [apply IH|].
    destruct (Ascii.eqb c "," && negb inQ); rewrite IH; [|reflexivity].
    rewrite length_app. simpl. lia.
Qed.

Lemma parseCSVLine_from_fields line : forall columns cur inQ,
  Forall (fun f => Js.trim f = f /\ quoteFree f = true) columns ->
  quoteFree cur = true ->
  Forall (fun f => Js.trim f = f /\ quoteFree f = true)
    (parseCSVLine_from columns cur inQ line).
Proof.
  assert (Hfield : forall cur, quoteFree cur = true ->
            Js.trim (Js.trim cur) = Js.trim cur /\ quoteFree (Js.trim cur) = true).
  { intros cur H. split; [apply trim_idempotent | now apply every_trim]. }
  induction line as [|c rest IH]; intros columns cur inQ Hcols Hcur; simpl.
  - apply Forall_app. split; [exact Hcols|]. constructor; [now apply Hfield | constructor].
  - destruct (Ascii.eqb c Js.dquote) eqn:Eq; [now apply IH|].
    destruct (Ascii.eqb c "," && negb inQ).
    + apply IH; [|reflexivity]. apply Forall_app. split; [exact Hcols|].
      constructor; [now apply Hfield | constructor].
    + apply IH; [exact Hcols|]. unfold quoteFree in *. rewrite every_app, Hcur. simpl.
      now rewrite Eq.
Qed.

(** X1. A line has one field per comma outside quotes, plus one, so it never
    has none; each field is trimmed and holds no double quote. *)
Theorem parseCSVLine_fields (line : string) :
  List.length (parseCSVLine line) = S (commasOutside false line)
  /\ parseCSVLine line <> []
  /\ Forall (fun f => Js.trim f = f /\ quoteFree f = true) (parseCSVLine line).
Proof.
  unfold parseCSVLine. pose proof (parseCSVLine_from_length line [] "" false) as Hlen.
  split; [exact Hlen|]. split.
  - intros E. rewrite E in Hlen. discriminate.
  - apply parseCSVLine_from_fields; [constructor | reflexivity].
Qed.

(** A run of characters that neither toggles the quote mode nor splits is
    appended to the field being read. *)
Lemma parseCSVLine_from_run inQ f : forall columns cur rest,
  every (fun c => negb (Ascii.eqb c Js.dquote) && (inQ || negb (Ascii.eqb c ","))) f = true ->
  parseCSVLine_from columns cur inQ (f ++ rest)
  = parseCSVLine_from columns (cur ++ f) inQ rest.
Proof.
  induction f as [|c f IH]; intros columns cur rest H; simpl.
  - now rewrite str_app_nil_r.
  - simpl in H. apply andb_true_iff in H. destruct H as [Hc Hf].
    apply andb_true_iff in Hc. destruct Hc as [Hq Hcomma].
    apply negb_true_iff in Hq. rewrite Hq.
    replace (Ascii.eqb c "," && negb inQ) with false
      by (destruct inQ, (Ascii.eqb c ","); simpl in *; congruence).
    rewrite IH by exact Hf. now rewrite str_app_assoc.
Qed.

Lemma parseCSVLine_from_plain f columns cur rest :
  plainField f = true ->
  parseCSVLine_from columns cur false (f ++ rest)
  = parseCSVLine_from columns (cur ++ f) false rest.
Proof.
  intros H. apply parseCSVLine_from_run. unfold plainField in H.
  erewrite every_ext; [exact H|]. reflexivity.
Qed.

Lemma parseCSVLine_from_quoted f columns cur rest :
  quoteFree f = true ->
  parseCSVLine_from columns cur false (quoted f ++ rest)
  = parseCSVLine_from columns (cur ++ f) false rest.
Proof.
  intros H. unfold quoted. simpl.
  rewrite str_app_assoc. rewrite parseCSVLine_from_run.
  - reflexivity.
  - unfold quoteFree in H. erewrite every_ext; [exact H|].
    intros c. simpl. apply andb_true_r.
Qed.

Lemma parseCSVLine_from_comma columns cur rest :
  parseCSVLine_from columns cur false (String "," rest)
  = parseCSVLine_from (columns ++ [Js.trim cur]) "" false rest.
Proof. reflexivity. Qed.

(** Fields written one after the other with commas between them, each in a
    form [enc] that the reader takes back, are read as they were, trimmed. *)
Lemma parseCSVLine_from_concat (enc : string -> string) (ok : string -> Prop) :
  (forall f columns cur rest, ok f ->
     parseCSVLine_from columns cur false (enc f ++ rest)
     = parseCSVLine_from columns (cur ++ f) false rest) ->
  forall fields f columns,
    Forall ok (f :: fields) ->
    parseCSVLine_from columns "" false (String.concat "," (map enc (f :: fields)))
    = columns ++ map Js.trim (f :: fields).
Proof.
  intros Henc fields. induction fields as [|g fields IH]; intros f columns Hok.
  - simpl. rewrite <- (str_app_nil_r (enc f)). rewrite Henc by now inversion Hok.
    reflexivity.
  - inversion Hok as [|? ? Hf Hrest]; subst.
    change (String.concat "," (map enc (f :: g :: fields)))
      with (enc f ++ "," ++ String.concat "," (map enc (g :: fields)))%string.
    rewrite Henc by exact Hf.
    change ("," ++ String.concat "," (map enc (g :: fields)))%string
      with (String "," (String.concat "," (map enc (g :: fields)))).
    rewrite parseCSVLine_from_comma.
    rewrite IH by exact Hrest. simpl. now rewrite <- app_assoc.
Qed.

(** X2. Writing fields with commas between them and reading the line gives
    the fields back, trimmed: as they are when none holds a comma or a double
    quote, and between double quotes when none holds a double quote. *)
Theorem parseCSVLine_round_trip (fields : list string) :
  fields <> [] ->
  (Forall (fun f => plainField f = true) fields ->
   parseCSVLine (String.concat "," fields) = map Js.trim fields)
  /\ (Forall (fun f => quoteFree f = true) fields ->
      parseCSVLine (String.concat "," (map quoted fields)) = map Js.trim fields).
Proof.
  intros Hne. destruct fields as [|f fields]; [contradiction|]. split; intros H.
  - replace (String.concat "," (f :: fields))
      with (String.concat "," (map (fun x => x) (f :: fields))) by now rewrite map_id.
    exact (@parseCSVLine_from_concat (fun x => x) (fun f => plainField f = true)
             (fun f c u r E => parseCSVLine_from_plain f c u r E) fields f [] H).
  - exact (@parseCSVLine_from_concat quoted (fun f => quoteFree f = true)
             (fun f c u r E => parseCSVLine_from_quoted f c u r E) fields f [] H).
Qed.

Lemma parseCSVLine_round_trip_witness :
  ["P-001"; " Ali Khan "; "1,500"] <> []
  /\ Forall (fun f => quoteFree f = true) ["P-001"; " Ali Khan "; "1,500"]
  /\ parseCSVLine (String.concat "," (map quoted ["P-001"; " Ali Khan "; "1,500"]))
     = ["P-001"; "Ali Khan"; "1,500"].
Proof.
  assert (Hne : ["P-001"; " Ali Khan "; "1,500"] <> []) by discriminate.
  assert (H : Forall (fun f => quoteFree f = true) ["P-001"; " Ali Khan "; "1,500"])
    by (repeat constructor).
  split; [exact Hne|]. split; [exact H|].
  exact (proj2 (parseCSVLine_round_trip Hne) H).
Defined.

(** ** Column resolution *)

Lemma indexOf_none x arr : Js.indexOf x arr = None <-> ~ In x arr.
Proof.
  induction arr as [|y arr IH]; simpl; [tauto|].
  destruct (String.eqb y x) eqn:E.
  - apply String.eqb_eq in E. split; [discriminate | intros H; exfalso; auto].
  - apply String.eqb_neq in E. destruct (Js.indexOf x arr); simpl.
    + split; [discriminate|]. intros H. exfalso. apply H. right.
      destruct (in_dec string_dec x arr) as [Hin|Hout]; [exact Hin|].
      apply IH in Hout. discriminate.
    + split; [|reflexivity]. intros _ [H|H]; [contradiction|]. now apply IH in H.
Qed.

Lemma indexOf_some x arr i :
  Js.indexOf x arr = Some i ->
  nth_error arr i = Some x /\ forall j, (j < i)%nat -> nth_error arr j <> Some x.
Proof.
  revert i. induction arr as [|y arr IH]; intros i; simpl; [discriminate|].
  destruct (String.eqb y x) eqn:E.
  - apply String.eqb_eq in E. intros [= <-]. subst. split; [reflexivity | intros j Hj; lia].
  - apply String.eqb_neq in E. destruct (Js.indexOf x arr) as [i'|]; simpl; [|discriminate].
    intros [= <-]. destruct (IH i' eq_refl) as [H1 H2]. split; [exact H1|].
    intros [|j] Hj; simpl; [congruence | apply H2; lia].
Qed.

(** X3. [getIdx] answers with the column of the first alias, in the order
    given, that the header holds in lower case, and with the first column
    that holds it; it answers "not found" exactly when the header holds none
    of the aliases; and [col] then reads that column of a row, trimmed, or
    nothing when the row is shorter. *)
Theorem getIdx_first_alias (normH : list string) (names : list string) :
  (getIdx normH names = None
   <-> forall n, In n names -> ~ In (Js.toLowerCase n) normH)
  /\ (forall i, getIdx normH names = Some i ->
        exists before n after,
          names = before ++ n :: after
          /\ (forall m, In m before -> ~ In (Js.toLowerCase m) normH)
          /\ nth_error normH i = Some (Js.toLowerCase n)
          /\ (forall j, (j < i)%nat -> nth_error normH j <> Some (Js.toLowerCase n))
          /\ forall arr, col normH arr names = option_map Js.trim (nth_error arr i))
  /\ (getIdx normH names = None -> forall arr, col normH arr names = None).
Proof.
  split; [|split].
  - induction names as [|n names IH]; simpl; [tauto|].
    destruct (Js.indexOf (Js.toLowerCase n) normH) eqn:E.
    + split; [discriminate|]. intros H. exfalso.
      assert (Hn : Js.indexOf (Js.toLowerCase n) normH = None)
        by (apply indexOf_none, H; now left).
      congruence.
    + apply indexOf_none in E. rewrite IH. split.
      * intros H m [<-|Hm]; auto.
      * intros H m Hm. apply H. now right.
  - induction names as [|n names IH]; intros i; simpl; [discriminate|].
    destruct (Js.indexOf (Js.toLowerCase n) normH) as [i0|] eqn:E.
    + intros [= <-]. destruct (indexOf_some _ _ E) as [H1 H2].
      exists [], n, names. repeat split; auto.
      intros arr. unfold col. simpl. now rewrite E.
    + intros H. destruct (IH i H) as (before & m & after & -> & Hb & H1 & H2 & Hcol).
      exists (n :: before), m, after. repeat split; auto.
      * intros x [<-|Hx]; [now apply indexOf_none | auto].
      * intros arr. unfold col. simpl. rewrite E. unfold col in Hcol.
        specialize (Hcol arr). destruct (getIdx normH (before ++ m :: after)); congruence.
  - intros H arr. unfold col. now rewrite H.
Qed.

Lemma getIdx_first_alias_witness :
  getIdx ["name"; "cnic"; "ocnic"; "cnic"] ["ocnic"; "cnic"; "u_ocnic"] = Some 2%nat
  /\ nth_error ["name"; "cnic"; "ocnic"; "cnic"] 2 = Some (Js.toLowerCase "ocnic")
  /\ getIdx ["name"; "plot"] ["ocnic"; "cnic"; "u_ocnic"] = None
  /\ col ["name"; "plot"] ["Ali"; "P-1"] ["ocnic"; "cnic"; "u_ocnic"] = None.
Proof.
  pose proof (getIdx_first_alias ["name"; "cnic"; "ocnic"; "cnic"] ["ocnic"; "cnic"; "u_ocnic"])
    as (_ & Hsome & _).
  pose proof (getIdx_first_alias ["name"; "plot"] ["ocnic"; "cnic"; "u_ocnic"])
    as (_ & _ & Hnone).
  split; [reflexivity|].
  destruct (Hsome 2%nat eq_refl) as (before & n & after & _ & _ & _ & _ & _).
  split; [reflexivity|]. split; [reflexivity|].
  exact (Hnone eq_refl ["Ali"; "P-1"]).
Defined.

(** ** The case of the header *)

(** The texts whose characters are all ASCII, and the mapping of a text byte
    by byte. *)
Definition isAscii (c : ascii) : bool := (Js.code c <? 128)%nat.

Definition asciiOnly (s : string) : bool := every isAscii s.

Fixpoint map_bytes (f : ascii -> ascii) (s : string) : string :=
  match s with
  | EmptyString => EmptyString
  | String c s' => String (f c) (map_bytes f s')
  end.

(** An ASCII byte starts no code point of two or three bytes. *)
Lemma ascii_starts_nothing a :
  isAscii a = true ->
  (forall b, Js.is_space2 a b = false) /\ (forall b c, Js.is_space3 a b c = false)
  /\ (forall b, Js.lower2 a b = None) /\ (forall b c, Js.lower3 a b c = None)
  /\ (forall b, Js.upper2 a b = None) /\ (forall b c, Js.upper3 a b c = None).
Proof.
  destruct a as [[] [] [] [] [] [] [] []]; intros H; try discriminate H;
    repeat split; intros; reflexivity.
Qed.

(** On an ASCII text a case mapping works byte by byte. *)
Lemma map_case_ascii f1 f2 f3 s :
  (forall a b, isAscii a = true -> f2 a b = None) ->
  (forall a b c, isAscii a = true -> f3 a b c = None) ->
  asciiOnly s = true -> Js.map_case f1 f2 f3 s = map_bytes f1 s.
Proof.
  intros H2 H3. unfold asciiOnly. induction s as [|a s IH]; [reflexivity|].
  intros H. simpl in H. apply andb_true_iff in H. destruct H as [Ha Hs].
  specialize (IH Hs). destruct s as [|b [|c r]]; simpl.
  - reflexivity.
  - rewrite H2 by exact Ha. reflexivity.
  - rewrite H2, H3 by exact Ha. simpl in IH. now rewrite IH.
Qed.

Lemma toLowerCase_ascii s : asciiOnly s = true -> Js.toLowerCase s = map_bytes Js.lower s.
Proof.
  apply map_case_ascii; intros; now apply ascii_starts_nothing.
Qed.

Lemma toUpperCase_ascii s : asciiOnly s = true -> Js.toUpperCase s = map_bytes Js.upper s.
Proof.
  apply map_case_ascii; intros; now apply ascii_starts_nothing.
Qed.

Lemma trimStart_ascii a r :
  isAscii a = true ->
  Js.trimStart (String a r) = if Js.is_space a then Js.trimStart r else String a r.
Proof.
  intros Ha. destruct (ascii_starts_nothing a Ha) as (S2 & S3 & _).
  destruct r as [|b [|c r]]; simpl; destruct (Js.is_space a); try reflexivity;
    rewrite ?S2, ?S3; reflexivity.
Qed.

(** The fields of a line are made of characters of the line. *)
Lemma parseCSVLine_from_every p line : forall columns cur inQ,
  Forall (fun f => every p f = true) columns -> every p cur = true ->
  every p line = true ->
  Forall (fun f => every p f = true) (parseCSVLine_from columns cur inQ line).
Proof.
  induction line as [|c rest IH]; intros columns cur inQ Hcols Hcur Hline; simpl.
  - apply Forall_app. split; [exact Hcols|]. constructor; [now apply every_trim | constructor].
  - simpl in Hline. apply andb_true_iff in Hline. destruct Hline as [Hc Hrest].
    destruct (Ascii.eqb c Js.dquote); [now apply IH|].
    destruct (Ascii.eqb c "," && negb inQ).
    + apply IH; [|reflexivity | exact Hrest]. apply Forall_app. split; [exact Hcols|].
      constructor; [now apply every_trim | constructor].
    + apply IH; [exact Hcols | | exact Hrest]. rewrite every_app, Hcur. simpl.
      now rewrite Hc.
Qed.

Section CaseFacts.

(** A mapping of bytes that keeps ASCII bytes ASCII, leaves the comma and
    the double quote alone, keeps what is and is not a space, and is undone
    by [lower]. *)
Variable f : ascii -> ascii.
Hypothesis f_ascii : forall c, isAscii c = true -> isAscii (f c) = true.
Hypothesis f_quote : forall c, Ascii.eqb (f c) Js.dquote = Ascii.eqb c Js.dquote.
Hypothesis f_comma : forall c, Ascii.eqb (f c) "," = Ascii.eqb c ",".
Hypothesis f_space : forall c, Js.is_space (f c) = Js.is_space c.
Hypothesis f_lower : forall c, Js.lower (f c) = Js.lower c.

Lemma map_bytes_ascii s : asciiOnly s = true -> asciiOnly (map_bytes f s) = true.
Proof.
  unfold asciiOnly. induction s as [|c s IH]; simpl; [auto|]. intros H.
  apply andb_true_iff in H. destruct H as [Hc Hs]. now rewrite f_ascii, IH.
Qed.

Lemma map_bytes_app a b :
  map_bytes f (a ++ b)%string = (map_bytes f a ++ map_bytes f b)%string.
Proof. induction a as [|c a IH]; simpl; [reflexivity | now rewrite IH]. Qed.

Lemma map_bytes_trimStart s :
  asciiOnly s = true -> Js.trimStart (map_bytes f s) = map_bytes f (Js.trimStart s).
Proof.
  unfold asciiOnly. induction s as [|c s IH]; [reflexivity|]. intros H.
  simpl in H. apply andb_true_iff in H. destruct H as [Hc Hs].
  change (map_bytes f (String c s)) with (String (f c) (map_bytes f s)).
  rewrite !trimStart_ascii by auto. rewrite f_space.
  destruct (Js.is_space c); [now apply IH | reflexivity].
Qed.

Lemma map_bytes_trimEnd s :
  asciiOnly s = true -> Js.trimEnd (map_bytes f s) = map_bytes f (Js.trimEnd s).
Proof.
  induction s as [|c s IH]; [reflexivity|]. intros H.
  change (map_bytes f (String c s)) with (String (f c) (map_bytes f s)).
  rewrite !trimEnd_cons.
  change (String (f c) (map_bytes f s)) with (map_bytes f (String c s)).
  rewrite map_bytes_trimStart by exact H.
  unfold asciiOnly in H. simpl in H. apply andb_true_iff in H. destruct H as [_ Hs].
  destruct (Js.trimStart (String c s)); simpl; [reflexivity|]. now rewrite IH.
Qed.

Lemma map_bytes_trim s :
  asciiOnly s = true -> Js.trim (map_bytes f s) = map_bytes f (Js.trim s).
Proof.
  intros H. unfold Js.trim. rewrite map_bytes_trimStart by exact H.
  apply map_bytes_trimEnd. now apply every_trimStart.
Qed.

Lemma toLowerCase_map_bytes s :
  asciiOnly s = true -> Js.toLowerCase (map_bytes f s) = Js.toLowerCase s.
Proof.
  intros H. rewrite !toLowerCase_ascii by (try apply map_bytes_ascii; exact H).
  clear H. induction s as [|c s IH]; simpl; [reflexivity|]. now rewrite f_lower, IH.
Qed.

Lemma parseCSVLine_from_map_bytes line : forall columns cur inQ,
  asciiOnly cur = true -> asciiOnly line = true ->
  parseCSVLine_from (map (map_bytes f) columns) (map_bytes f cur) inQ (map_bytes f line)
  = map (map_bytes f) (parseCSVLine_from columns cur inQ line).
Proof.
  induction line as [|c rest IH]; intros columns cur inQ Hcur Hline; simpl.
  - now rewrite map_app, map_bytes_trim.
  - unfold asciiOnly in Hline. simpl in Hline. apply andb_true_iff in Hline.
    destruct Hline as [Hc Hrest].
    rewrite f_quote, f_comma. destruct (Ascii.eqb c Js.dquote); [now apply IH|].
    destruct (Ascii.eqb c "," && negb inQ).
    + rewrite <- IH by auto. rewrite map_app. simpl. now rewrite map_bytes_trim.
    + rewrite <- IH; [now rewrite map_bytes_app | | exact Hrest].
      unfold asciiOnly. rewrite every_app. unfold asciiOnly in Hcur. rewrite Hcur. simpl.
      now rewrite Hc.
Qed.

Lemma headerOf_map_bytes line :
  asciiOnly line = true -> headerOf (map_bytes f line) = headerOf line.
Proof.
  intros H. unfold headerOf, parseCSVLine.
  change (parseCSVLine_from [] "" false (map_bytes f line))
    with (parseCSVLine_from (map (map_bytes f) []) (map_bytes f "") false
            (map_bytes f line)).
  rewrite parseCSVLine_from_map_bytes by (try reflexivity; exact H).
  rewrite map_map. apply map_ext_in. intros h Hh.
  assert (Ha : asciiOnly h = true).
  { pose proof (@parseCSVLine_from_every isAscii line [] "" false
                  (Forall_nil _) eq_refl H) as Hall.
    rewrite Forall_forall in Hall. now apply Hall. }
  rewrite map_bytes_trim by exact Ha. apply toLowerCase_map_bytes.
  now apply every_trim.
Qed.

End CaseFacts.

(** The header that names the size column with a long s, U+017F. *)
Definition longSize : string := (Js.bytes [197; 191] ++ "ize")%string.

(** X4. The case of a header line of ASCII characters does not matter:
    written in upper case or in lower case it gives the same header row,
    hence the same column for every list of aliases.  Beyond ASCII it can
    matter: the long s is upper-cased to [S], so that a header written with
    it names the size column once it is upper-cased and not before; and the
    Kelvin sign is lower-cased to [k], so that a header written with it
    names the park column. *)
Theorem header_case_insensitive (line : string) (names : list string) :
  asciiOnly line = true ->
  headerOf (Js.toUpperCase line) = headerOf line
  /\ headerOf (Js.toLowerCase line) = headerOf line
  /\ getIdx (headerOf (Js.toUpperCase line)) names = getIdx (headerOf line) names
  /\ getIdx (headerOf longSize) ["dscription"; "description"; "size"] = None
  /\ getIdx (headerOf (Js.toUpperCase longSize)) ["dscription"; "description"; "size"]
     = Some 0%nat
  /\ getIdx (headerOf ("par" ++ Js.bytes [226; 132; 170])%string) ["park"; "u_park"]
     = Some 0%nat.
Proof.
  intros H.
  assert (Hup : headerOf (Js.toUpperCase line) = headerOf line).
  { rewrite toUpperCase_ascii by exact H. apply headerOf_map_bytes; [| | | | |exact H];
      intros c; destruct c as [[] [] [] [] [] [] [] []];
      first [reflexivity | intros E; exact E]. }
  split; [exact Hup|]. split.
  - rewrite toLowerCase_ascii by exact H. apply headerOf_map_bytes; [| | | | |exact H];
      intros c; destruct c as [[] [] [] [] [] [] [] []];
      first [reflexivity | intros E; exact E].
  - split; [now rewrite Hup|]. vm_compute. repeat split.
Qed.

Lemma header_case_insensitive_witness :
  asciiOnly "OCNIC,OName,ItemCode" = true
  /\ headerOf (Js.toUpperCase "OCNIC,OName,ItemCode") = ["ocnic"; "oname"; "itemcode"]
  /\ getIdx (headerOf (Js.toUpperCase "OCNIC,OName,ItemCode")) ["itemcode"] = Some 2%nat.
Proof.
  split; [reflexivity|].
  destruct (@header_case_insensitive "OCNIC,OName,ItemCode" ["itemcode"] eq_refl)
    as (H1 & _ & H3 & _).
  split; [rewrite H1 | rewrite H3]; reflexivity.
Defined.

(** ** Lines *)

Lemma split_lines_from_nonempty s : forall cur, Js.split_lines_from cur s <> [].
Proof.
  induction s as [|c s IH]; intros cur; simpl; [discriminate|].
  destruct (Ascii.eqb c Js.LF); [discriminate|].
  destruct (Ascii.eqb c Js.CR && Js.starts_with_LF s); apply IH.
Qed.

Lemma concat_cons sep x l :
  l <> [] -> String.concat sep (x :: l) = (x ++ sep ++ String.concat sep l)%string.
Proof. destruct l; [contradiction | reflexivity]. Qed.

Lemma split_lines_from_joined s : forall cur,
  every (fun c => negb (Ascii.eqb c Js.CR)) s = true ->
  String.concat (String Js.LF "") (Js.split_lines_from cur s) = (cur ++ s)%string.
Proof.
  induction s as [|c s IH]; intros cur H; simpl.
  - now rewrite str_app_nil_r.
  - simpl in H. apply andb_true_iff in H. destruct H as [Hc Hs].
    apply negb_true_iff in Hc. rewrite Hc. simpl.
    destruct (Ascii.eqb c Js.LF) eqn:E.
    + apply Ascii.eqb_eq in E. subst c.
      rewrite concat_cons by apply split_lines_from_nonempty.
      rewrite IH by exact Hs. reflexivity.
    + rewrite IH by exact Hs. now rewrite str_app_assoc.
Qed.

Lemma split_lines_from_no_LF s : forall cur,
  every (fun c => negb (Ascii.eqb c Js.LF)) cur = true ->
  Forall (fun l => every (fun c => negb (Ascii.eqb c Js.LF)) l = true)
    (Js.split_lines_from cur s).
Proof.
  induction s as [|c s IH]; intros cur H; simpl.
  - now constructor.
  - destruct (Ascii.eqb c Js.LF) eqn:E; [constructor; [exact H | now apply IH]|].
    destruct (Ascii.eqb c Js.CR && Js.starts_with_LF s); [now apply IH|].
    apply IH. rewrite every_app, H. simpl. now rewrite E.
Qed.

(** X5. Splitting a text gives at least one line and no line holds a line
    feed; when the text holds no carriage return, joining the lines with
    line feeds gives the text back. *)
Theorem split_lines_round_trip (text : string) :
  Js.split_lines text <> []
  /\ Forall (fun l => every (fun c => negb (Ascii.eqb c Js.LF)) l = true)
       (Js.split_lines text)
  /\ (every (fun c => negb (Ascii.eqb c Js.CR)) text = true ->
      String.concat (String Js.LF "") (Js.split_lines text) = text).
Proof.
  unfold Js.split_lines. split; [apply split_lines_from_nonempty|].
  split; [now apply split_lines_from_no_LF|].
  intros H. now rewrite split_lines_from_joined.
Qed.

Lemma split_lines_round_trip_witness :
  every (fun c => negb (Ascii.eqb c Js.CR)) scenario = true
  /\ String.concat (String Js.LF "") (Js.split_lines scenario) = scenario.
Proof.
  split; [reflexivity|].
  exact (proj2 (proj2 (split_lines_round_trip scenario)) eq_refl).
Defined.

(** ** Amounts *)

Definition cleaned (s : string) : string :=
  Js.remove Num.is_paren (Js.remove Num.is_comma s).

Definition isPlaceholder (s : string) : bool :=
  Js.is_empty s || String.eqb (Js.toUpperCase s) "NULL" || String.eqb s "-".

Lemma parseVal_unfold s :
  parseVal (Some s)
  = if isPlaceholder s then 0%float else Num.or_zero (Num.parseFloat (cleaned s)).
Proof. reflexivity. Qed.

Lemma keep_all p s : every p s = true -> Js.keep p s = s.
Proof.
  induction s as [|c s IH]; simpl; [reflexivity|]. intros H.
  apply andb_true_iff in H. destruct H as [Hc Hs]. now rewrite Hc, IH.
Qed.

Lemma every_keep p s : every p (Js.keep p s) = true.
Proof.
  induction s as [|c s IH]; simpl; [reflexivity|].
  destruct (p c) eqn:E; simpl; [now rewrite E|exact IH].
Qed.

Lemma every_keep_other p q s : every q s = true -> every q (Js.keep p s) = true.
Proof.
  induction s as [|c s IH]; simpl; [reflexivity|]. intros H.
  apply andb_true_iff in H. destruct H as [Hc Hs].
  destruct (p c); simpl; [now rewrite Hc, IH | auto].
Qed.

Lemma cleaned_idempotent s : cleaned (cleaned s) = cleaned s.
Proof.
  unfold cleaned, Js.remove.
  rewrite (keep_all (fun c => negb (Num.is_comma c))
             (Js.keep (fun c => negb (Num.is_paren c)) _)).
  - apply keep_all, every_keep.
  - apply every_keep_other, every_keep.
Qed.

(** The letters of [NULL], in either case, are neither commas nor
    parentheses, and no number starts with one of them. *)
Lemma null_letter c :
  (Ascii.eqb (Js.upper c) "N" || Ascii.eqb (Js.upper c) "U" || Ascii.eqb (Js.upper c) "L")
  = true ->
  Num.is_comma c = false /\ Num.is_paren c = false /\ Js.is_space c = false
  /\ Js.is_digit c = false /\ Ascii.eqb c "-" = false /\ Ascii.eqb c "+" = false
  /\ Ascii.eqb c "." = false /\ Ascii.eqb "I" c = false.
Proof.
  destruct c as [[] [] [] [] [] [] [] []]; vm_compute; intros H;
    try discriminate H; repeat split; reflexivity.
Qed.

Definition nullLetter (h : ascii) : bool :=
  Ascii.eqb h "N" || Ascii.eqb h "U" || Ascii.eqb h "L".

(** The upper-case form of a code point beyond ASCII starts with none of the
    letters of [NULL]. *)
Lemma upper2_head a b image :
  Js.upper2 a b = Some image -> exists h t, image = String h t /\ nullLetter h = false.
Proof.
  unfold Js.upper2.
  repeat match goal with |- context [if ?c then _ else _] => destruct c end;
    intros H; first [discriminate H | injection H as <-; do 2 eexists; split; reflexivity].
Qed.

Lemma upper3_head a b c image :
  Js.upper3 a b c = Some image -> exists h t, image = String h t /\ nullLetter h = false.
Proof.
  unfold Js.upper3.
  repeat match goal with |- context [if ?c then _ else _] => destruct c end;
    intros H; first [discriminate H | injection H as <-; do 2 eexists; split; reflexivity].
Qed.

(** A letter of [NULL] at the head of an upper-cased text is the image of
    the first byte of the text. *)
Lemma toUpperCase_head s h t :
  Js.toUpperCase s = String h t -> nullLetter h = true ->
  exists c r, s = String c r /\ Js.upper c = h /\ Js.toUpperCase r = t.
Proof.
  unfold Js.toUpperCase. intros H Hh.
  assert (Himage : forall image rest,
            (exists h' t', image = String h' t' /\ nullLetter h' = false) ->
            (image ++ rest)%string = String h t -> False).
  { intros image rest (h' & t' & -> & Hn) [= -> _]. congruence. }
  destruct s as [|a [|b [|c r]]]; simpl in H.
  - discriminate H.
  - injection H as <- <-. now exists a, "".
  - destruct (Js.upper2 a b) as [image|] eqn:E2.
    + exfalso. exact (Himage _ _ (upper2_head _ _ E2) H).
    + injection H as <- <-. now exists a, (String b "").
  - destruct (Js.upper2 a b) as [image|] eqn:E2.
    + exfalso. exact (Himage _ _ (upper2_head _ _ E2) H).
    + destruct (Js.upper3 a b c) as [image|] eqn:E3.
      * exfalso. exact (Himage _ _ (upper3_head _ _ _ E3) H).
      * injection H as <- <-. now exists a, (String b (String c r)).
Qed.

Lemma toUpperCase_empty s : Js.toUpperCase s = "" -> s = "".
Proof.
  unfold Js.toUpperCase. destruct s as [|a [|b [|c r]]]; simpl; try discriminate; auto.
  - destruct (Js.upper2 a b) as [image|] eqn:E2; [|discriminate].
    destruct (upper2_head _ _ E2) as (h & t & -> & _). discriminate.
  - destruct (Js.upper2 a b) as [image|] eqn:E2.
    + destruct (upper2_head _ _ E2) as (h & t & -> & _). discriminate.
    + destruct (Js.upper3 a b c) as [image|] eqn:E3; [|discriminate].
      destruct (upper3_head _ _ _ E3) as (h & t & -> & _). discriminate.
Qed.

Lemma null_shape s :
  Js.toUpperCase s = "NULL" ->
  exists c1 c2 c3 c4,
    s = String c1 (String c2 (String c3 (String c4 "")))
    /\ Js.upper c1 = "N"%char /\ Js.upper c2 = "U"%char
    /\ Js.upper c3 = "L"%char /\ Js.upper c4 = "L"%char.
Proof.
  intros H.
  destruct (toUpperCase_head _ H eq_refl) as (c1 & r1 & -> & H1 & E1).
  destruct (toUpperCase_head _ E1 eq_refl) as (c2 & r2 & -> & H2 & E2).
  destruct (toUpperCase_head _ E2 eq_refl) as (c3 & r3 & -> & H3 & E3).
  destruct (toUpperCase_head _ E3 eq_refl) as (c4 & r4 & -> & H4 & E4).
  apply toUpperCase_empty in E4. subst r4. now exists c1, c2, c3, c4.
Qed.

Lemma null_cleaned s : Js.toUpperCase s = "NULL" -> cleaned s = s.
Proof.
  intros H. destruct (null_shape _ H) as (c1 & c2 & c3 & c4 & -> & H1 & H2 & H3 & H4).
  assert (L : forall c, Js.upper c = "N"%char \/ Js.upper c = "U"%char \/ Js.upper c = "L"%char ->
                        Num.is_comma c = false /\ Num.is_paren c = false).
  { intros c Hc. destruct (null_letter c) as (A & B & _).
    - destruct Hc as [-> | [-> | ->]]; reflexivity.
    - auto. }
  destruct (L c1) as [A1 B1]; [auto|]. destruct (L c2) as [A2 B2]; [auto|].
  destruct (L c3) as [A3 B3]; [auto|]. destruct (L c4) as [A4 B4]; [auto|].
  unfold cleaned, Js.remove. simpl.
  rewrite A1, A2, A3, A4. simpl. now rewrite B1, B2, B3, B4.
Qed.

Lemma null_not_a_number s :
  Js.toUpperCase s = "NULL" -> Num.or_zero (Num.parseFloat s) = 0%float.
Proof.
  intros H. destruct (null_shape _ H) as (c1 & c2 & c3 & c4 & -> & H1 & _).
  destruct (null_letter c1) as (_ & _ & Hs & Hd & Hm & Hp & Hdot & Hi).
  { rewrite H1. reflexivity. }
  assert (E : Num.parseFloat (String c1 (String c2 (String c3 (String c4 "")))) = nan).
  { destruct c1 as [b1 b2 b3 b4 b5 b6 b7 b8].
    destruct b1, b2, b3, b4, b5, b6, b7, b8; try discriminate Hm; try discriminate Hp;
      try discriminate Hd; try discriminate Hi; try discriminate Hdot;
      try discriminate Hs; try discriminate H1;
      unfold Num.parseFloat, Num.unsigned_literal; simpl; reflexivity. }
  rewrite E. reflexivity.
Qed.

(** X6. Thousands separators and parentheses are ignored wherever they
    stand: an amount reads the same with them and without them, so a
    parenthesised amount reads as the amount between the parentheses. *)
Theorem parseVal_ignores_separators (s : string) :
  parseVal (Some s) = parseVal (Some (cleaned s))
  /\ parseVal (Some ("(" ++ s ++ ")")%string) = parseVal (Some s).
Proof.
  assert (Hmain : forall t, parseVal (Some t) = parseVal (Some (cleaned t))).
  { intros t. rewrite !parseVal_unfold, cleaned_idempotent.
    unfold isPlaceholder.
    destruct (Js.is_empty t) eqn:E1.
    { destruct t; [reflexivity | discriminate]. }
    destruct (String.eqb (Js.toUpperCase t) "NULL") eqn:E2.
    { apply String.eqb_eq in E2. rewrite (null_cleaned _ E2), E1.
      apply String.eqb_eq in E2. now rewrite E2. }
    destruct (String.eqb t "-") eqn:E3.
    { apply String.eqb_eq in E3. subst t. reflexivity. }
    simpl.
    destruct (Js.is_empty (cleaned t)) eqn:F1.
    { destruct (cleaned t); [reflexivity | discriminate]. }
    destruct (String.eqb (Js.toUpperCase (cleaned t)) "NULL") eqn:F2.
    { apply String.eqb_eq in F2. simpl. now apply null_not_a_number. }
    destruct (String.eqb (cleaned t) "-") eqn:F3.
    { apply String.eqb_eq in F3. rewrite F3. reflexivity. }
    reflexivity. }
  split; [apply Hmain|].
  rewrite (Hmain ("(" ++ s ++ ")")%string), (Hmain s). f_equal. f_equal.
  unfold cleaned, Js.remove. simpl. rewrite !keep_app. simpl.
  now rewrite str_app_nil_r.
Qed.

(** ** More on the entity builder *)

(** An account with its running figures set back to what a new account has. *)
Definition blank (f : PropertyFile.t) : PropertyFile.t :=
  {| PropertyFile.fileNo := PropertyFile.fileNo f;
     PropertyFile.currencyNo := PropertyFile.currencyNo f;
     PropertyFile.plotSize := PropertyFile.plotSize f;
     PropertyFile.plotValue := PropertyFile.plotValue f;
     PropertyFile.balance := 0;
     PropertyFile.receivable := PropertyFile.receivable f;
     PropertyFile.totalReceivable := PropertyFile.totalReceivable f;
     PropertyFile.paymentReceived := 0;
     PropertyFile.surcharge := PropertyFile.surcharge f;
     PropertyFile.overdue := PropertyFile.overdue f;
     PropertyFile.ownerName := PropertyFile.ownerName f;
     PropertyFile.ownerCNIC := PropertyFile.ownerCNIC f;
     PropertyFile.fatherName := PropertyFile.fatherName f;
     PropertyFile.cellNo := PropertyFile.cellNo f;
     PropertyFile.regDate := PropertyFile.regDate f;
     PropertyFile.address := PropertyFile.address f;
     PropertyFile.plotNo := PropertyFile.plotNo f;
     PropertyFile.block := PropertyFile.block f;
     PropertyFile.park := PropertyFile.park f;
     PropertyFile.corner := PropertyFile.corner f;
     PropertyFile.mainBoulevard := PropertyFile.mainBoulevard f;
     PropertyFile.transactions := [] |}.

Definition transactionCount (kv : string * PropertyFile.t) : nat :=
  List.length (PropertyFile.transactions (snd kv)).

Lemma find_app_some (A : Type) (p : A -> bool) (l l' : list A) (x : A) :
  find p l = Some x -> find p (l ++ l') = Some x.
Proof.
  induction l as [|y l IH]; simpl; [discriminate|]. destruct (p y); auto.
Qed.

Lemma find_app_none (A : Type) (p : A -> bool) (l l' : list A) :
  find p l = None -> find p (l ++ l') = find p l'.
Proof.
  induction l as [|y l IH]; simpl; [reflexivity|]. destruct (p y); [discriminate | auto].
Qed.

Lemma find_key_none (A : Type) (key : A -> string) (k : string) (l : list A) :
  ~ In k (map key l) -> find (fun x => String.eqb (key x) k) l = None.
Proof.
  intros H. apply find_none_iff. intros x Hx. apply String.eqb_neq. intros E.
  apply H. rewrite <- E. now apply in_map.
Qed.

Lemma sum_map_set (k : string) (v old : PropertyFile.t) (m : jsmap PropertyFile.t) :
  map_get k m = Some old ->
  (list_sum (map transactionCount (map_set k v m)) + transactionCount (k, old)
   = list_sum (map transactionCount m) + transactionCount (k, v))%nat.
Proof.
  induction m as [|[k' v'] m IH]; simpl; [discriminate|].
  destruct (String.eqb k' k) eqn:E; simpl.
  - intros [= ->]. unfold transactionCount. simpl. lia.
  - intros H. specialize (IH H). unfold transactionCount in *. simpl in *. lia.
Qed.

Section BuilderMore.

Variable now : nat -> Z.
Variable normH : list string.

(** The first contributing row of an identity and of an account code. *)
Definition firstOfIdentity (k : string) (rows : list (nat * string)) : option (nat * string) :=
  find (fun r => String.eqb (rowIdentity normH r) k) (contributing normH rows).

Definition firstOfCode (k : string) (rows : list (nat * string)) : option (nat * string) :=
  find (fun r => String.eqb (rowCode normH r) k) (contributing normH rows).

(** Where the records of the two maps come from, whom the accounts belong
    to, and how many transactions they hold. *)
Definition traced (rows : list (nat * string)) (st : maps) : Prop :=
  (forall k u, In (k, u) (fst st) ->
     exists r, firstOfIdentity k rows = Some r /\ u = newUser normH (rowCols r))
  /\ (forall k f, In (k, f) (snd st) ->
        exists r, firstOfCode k rows = Some r
                  /\ blank f = newFile normH (rowCols r) (PropertyFile.ownerName f))
  /\ (forall k f, In (k, f) (snd st) ->
        exists u, In (normCNIC (PropertyFile.ownerCNIC f), u) (fst st)
                  /\ PropertyFile.ownerName f = User.name u)
  /\ list_sum (map transactionCount (snd st)) = List.length (contributing normH rows).

(** What the callback does to the two maps on a row that contributes. *)
Lemma processRow_contributing um fm i line :
  let r := (i, line) in
  contributes normH (rowCols r) = true ->
  exists um' fm1 prop owner,
    (um' = um /\ In (rowIdentity normH r) (map_keys um)
     \/ um' = um ++ [(rowIdentity normH r, newUser normH (rowCols r))]
        /\ ~ In (rowIdentity normH r) (map_keys um))
    /\ (exists u, In (rowIdentity normH r, u) um' /\ owner = User.name u)
    /\ (fm1 = fm /\ In (rowCode normH r) (map_keys fm)
        \/ fm1 = fm ++ [(rowCode normH r, newFile normH (rowCols r) owner)]
           /\ ~ In (rowCode normH r) (map_keys fm))
    /\ map_get (rowCode normH r) fm1 = Some prop
    /\ processRow now normH (um, fm) i line
       = (um', map_set (rowCode normH r) (post now normH i (rowCols r) prop) fm1).
Proof.
  intros r Hc. unfold processRow.
  change (parseCSVLine line) with (rowCols r).
  change (normCNIC (rawCNIC_of normH (rowCols r))) with (rowIdentity normH r).
  change (itemCode_of normH (rowCols r)) with (rowCode normH r).
  rewrite Hc. simpl negb. cbv iota.
  set (um' := if map_has (rowIdentity normH r) um then um
              else map_set (rowIdentity normH r) (newUser normH (rowCols r)) um).
  set (owner := match map_get (rowIdentity normH r) um' with
                | Some u => User.name u | None => None end).
  set (fm1 := if map_has (rowCode normH r) fm then fm
              else map_set (rowCode normH r) (newFile normH (rowCols r) owner) fm).
  assert (Hum : um' = um /\ In (rowIdentity normH r) (map_keys um)
                \/ um' = um ++ [(rowIdentity normH r, newUser normH (rowCols r))]
                   /\ ~ In (rowIdentity normH r) (map_keys um)).
  { subst um'. destruct (map_has (rowIdentity normH r) um) eqn:E.
    - left. split; [reflexivity | now apply map_has_true].
    - right. apply map_has_false in E. split; [now apply map_set_fresh | exact E]. }
  assert (Hown : exists u, In (rowIdentity normH r, u) um' /\ owner = User.name u).
  { subst owner. destruct (map_get (rowIdentity normH r) um') as [u|] eqn:E.
    - exists u. split; [now apply map_get_in | reflexivity].
    - exfalso. apply map_get_none in E. apply E.
      destruct Hum as [[-> H]|[-> H]]; [exact H|].
      unfold map_keys. rewrite map_app, in_app_iff. right. now left. }
  assert (Hfm : fm1 = fm /\ In (rowCode normH r) (map_keys fm)
                \/ fm1 = fm ++ [(rowCode normH r, newFile normH (rowCols r) owner)]
                   /\ ~ In (rowCode normH r) (map_keys fm)).
  { subst fm1. destruct (map_has (rowCode normH r) fm) eqn:E.
    - left. split; [reflexivity | now apply map_has_true].
    - right. apply map_has_false in E. split; [now apply map_set_fresh | exact E]. }
  destruct (map_get (rowCode normH r) fm1) as [prop|] eqn:Hget.
  - exists um', fm1, prop, owner. auto.
  - exfalso. apply map_get_none in Hget. apply Hget.
    destruct Hfm as [[-> H]|[-> H]]; [exact H|].
    unfold map_keys. rewrite map_app, in_app_iff. right. now left.
Qed.

Lemma traced_step rows st i line :
  built now normH rows st -> traced rows st ->
  traced (rows ++ [(i, line)]) (processRow now normH st i line).
Proof.
  destruct st as [um fm].
  intros (_ & Hukeys & _ & _ & Hfkeys & _) (Tu & Tf & To & Tn).
  simpl in Hukeys, Hfkeys, Tu, Tf, To, Tn.
  set (r := (i, line)).
  destruct (contributes normH (rowCols r)) eqn:Hc.
  2:{ assert (E : processRow now normH (um, fm) i line = (um, fm)).
      { unfold processRow. change (parseCSVLine line) with (rowCols r). now rewrite Hc. }
      rewrite E. unfold traced, firstOfIdentity, firstOfCode. simpl.
      rewrite (contributing_skip normH rows r Hc). auto. }
  destruct (processRow_contributing um fm i line Hc)
    as (um' & fm1 & prop & owner & Hum & (uo & Huo & Eo) & Hfm & Hget & ->).
  fold r in Hum, Huo, Hfm, Hget |- *.
  assert (Esub : forall e, In e um -> In e um').
  { intros e He. destruct Hum as [[-> _]|[-> _]]; [exact He | apply in_or_app; now left]. }
  unfold traced, firstOfIdentity, firstOfCode in *. simpl.
  rewrite (contributing_take normH rows r Hc).
  (* the accounts before the row is posted *)
  assert (Tf1 : forall k f, In (k, f) fm1 ->
            (exists r0, find (fun r' => String.eqb (rowCode normH r') k)
                          (contributing normH rows ++ [r]) = Some r0
                        /\ blank f = newFile normH (rowCols r0) (PropertyFile.ownerName f))
            /\ exists u, In (normCNIC (PropertyFile.ownerCNIC f), u) um'
                         /\ PropertyFile.ownerName f = User.name u).
  { intros k f Hin.
    assert (Hold : In (k, f) fm ->
              (exists r0, find (fun r' => String.eqb (rowCode normH r') k)
                            (contributing normH rows ++ [r]) = Some r0
                          /\ blank f = newFile normH (rowCols r0) (PropertyFile.ownerName f))
              /\ exists u, In (normCNIC (PropertyFile.ownerCNIC f), u) um'
                           /\ PropertyFile.ownerName f = User.name u).
    { intros H. split.
      - destruct (Tf _ _ H) as (r0 & F & B). exists r0. split; [now apply find_app_some | exact B].
      - destruct (To _ _ H) as (u & Hu & E). exists u. split; [now apply Esub | exact E]. }
    destruct Hfm as [[-> _]|[-> Hnew]]; [now apply Hold|].
    apply in_app_or in Hin. destruct Hin as [Hin|[[= <- <-]|[]]]; [now apply Hold|].
    split.
    - exists r. split; [|reflexivity].
      rewrite find_app_none; [simpl; now rewrite String.eqb_refl|].
      apply find_key_none with (key := rowCode normH). now rewrite <- Hfkeys.
    - exists uo. split; [exact Huo | exact Eo]. }
  split; [|split; [|split]].
  - intros k u Hin.
    assert (Hold : In (k, u) um ->
              exists r0, find (fun r' => String.eqb (rowIdentity normH r') k)
                           (contributing normH rows ++ [r]) = Some r0
                         /\ u = newUser normH (rowCols r0)).
    { intros H. destruct (Tu _ _ H) as (r0 & F & E). exists r0.
      split; [now apply find_app_some | exact E]. }
    destruct Hum as [[-> _]|[-> Hnew]]; [now apply Hold|].
    apply in_app_or in Hin. destruct Hin as [Hin|[[= <- <-]|[]]]; [now apply Hold|].
    exists r. split; [|reflexivity].
    rewrite find_app_none; [simpl; now rewrite String.eqb_refl|].
    apply find_key_none with (key := rowIdentity normH). now rewrite <- Hukeys.
  - intros k f Hin. apply in_map_set_weak in Hin. destruct Hin as [[= -> ->]|Hin].
    + apply map_get_in in Hget. exact (proj1 (Tf1 _ _ Hget)).
    + exact (proj1 (Tf1 _ _ Hin)).
  - intros k f Hin. apply in_map_set_weak in Hin. destruct Hin as [[= -> ->]|Hin].
    + apply map_get_in in Hget. exact (proj2 (Tf1 _ _ Hget)).
    + exact (proj2 (Tf1 _ _ Hin)).
  - pose proof (@sum_map_set _ (post now normH i (rowCols r) prop) _ _ Hget) as Hs.
    assert (Ep : transactionCount (rowCode normH r, post now normH i (rowCols r) prop)
                 = S (transactionCount (rowCode normH r, prop))).
    { unfold transactionCount. simpl. rewrite length_app. simpl. lia. }
    rewrite length_app. simpl List.length.
    assert (E1 : list_sum (map transactionCount fm1) = list_sum (map transactionCount fm)).
    { destruct Hfm as [[-> _]|[-> _]]; [reflexivity|].
      rewrite map_app, list_sum_app.
      change (list_sum (map transactionCount
                [(rowCode normH r, newFile normH (rowCols r) owner)])) with 0%nat.
      lia. }
    lia.
Qed.

Lemma traced_forEach lines :
  let st := forEach_from (processRow now normH) 0 lines ([], []) in
  built now normH (indexed_from 0 lines) st /\ traced (indexed_from 0 lines) st.
Proof.
  apply (forEach_from_invariant (processRow now normH)
           (fun rows st => built now normH rows st /\ traced rows st)
           (fun rows st i line H =>
              conj (@built_step now normH rows st i line (proj1 H))
                   (@traced_step rows st i line (proj1 H) (proj2 H)))
           lines 0 []).
  split.
  - unfold built, contributing. simpl. repeat split; auto using NoDup_nil; try tauto.
  - unfold traced. simpl. repeat split; intros; contradiction.
Qed.

End BuilderMore.

From Stdlib Require Import Sorted.

Lemma parseRegistry_traced now text data :
  parseRegistry now text = Some data ->
  exists userMap fileMap,
    built now (headerRow text) (dataRows text) (userMap, fileMap)
    /\ traced (headerRow text) (dataRows text) (userMap, fileMap)
    /\ data = mkData (map_values userMap) (map_values fileMap).
Proof.
  unfold parseRegistry, headerRow, dataRows.
  destruct (nonEmptyLines text) as [|header [|row rows]]; try discriminate.
  pose proof (traced_forEach now (headerOf header) (row :: rows)) as Hb.
  simpl hd. simpl tl. cbv zeta in Hb.
  destruct (forEach_from (processRow now (headerOf header)) 0 (row :: rows) ([], []))
    as [um fm].
  intros [= <-]. exists um, fm. tauto.
Qed.





Lemma NoDup_map_injective (A B : Type) (g : A -> B) (l : list A) (a b : A) :
  NoDup (map g l) -> In a l -> In b l -> g a = g b -> a = b.
Proof.
  induction l as [|x l IH]; simpl; [tauto|].
  intros Hnd Ha Hb E. inversion Hnd as [|? ? Hnotin Hnd']; subst.
  destruct Ha as [->|Ha], Hb as [->|Hb]; auto.
  - exfalso. apply Hnotin. rewrite E. now apply in_map.
  - exfalso. apply Hnotin. rewrite <- E. now apply in_map.
Qed.

Lemma userFiles_in u f files :
  In f (userFiles (Some u) files)
  <-> In f files /\ normCNIC (PropertyFile.ownerCNIC f) = userKey u.
Proof.
  unfold userFiles. rewrite filter_In, userCnicNorm_key, String.eqb_eq. reflexivity.
Qed.

(** X8. No account is left without its member: each account handed over
    belongs, by normalised identity, to exactly one of the members handed
    over, carries that member's name as [ownerName], and is among the files
    shown to that member and to no other. *)
Theorem imported_accounts_have_one_owner (now : nat -> Z) (text : string)
    (data : ImportData) (f : PropertyFile.t) :
  parseRegistry now text = Some data ->
  In f (data_files data) ->
  exists u,
    In u (data_users data)
    /\ userKey u = normCNIC (PropertyFile.ownerCNIC f)
    /\ PropertyFile.ownerName f = User.name u
    /\ In f (userFiles (Some u) (data_files data))
    /\ forall u', In u' (data_users data) ->
                  In f (userFiles (Some u') (data_files data)) -> u' = u.
Proof.
  intros Hparse Hin.
  destruct (parseRegistry_traced _ _ Hparse)
    as (um & fm & (Hund & _ & Hu & _) & (_ & _ & To & _) & ->).
  simpl in *.
  assert (Ekeys : map userKey (map_values um) = map_keys um).
  { apply map_values_keys. intros k u H.
    destruct (Hu _ _ H) as (r & _ & -> & ->). reflexivity. }
  pose proof Hin as Hin'. apply in_map_values in Hin'. destruct Hin' as [k Hk].
  destruct (To _ _ Hk) as (u & Hu' & Ename).
  assert (Ekey : userKey u = normCNIC (PropertyFile.ownerCNIC f)).
  { destruct (Hu _ _ Hu') as (r & _ & -> & ->). reflexivity. }
  assert (Huin : In u (map_values um)) by (apply in_map_values; eauto).
  exists u. split; [exact Huin|]. split; [exact Ekey|]. split; [exact Ename|].
  split; [apply userFiles_in; auto|].
  intros u' Hu'in Hf. apply userFiles_in in Hf. destruct Hf as [_ Hf].
  apply (NoDup_map_injective userKey (map_values um)); auto.
  - now rewrite Ekeys.
  - congruence.
Qed.

Lemma imported_accounts_have_one_owner_witness :
  parseRegistry (fun _ => 0%Z) scenario = Some scenarioData
  /\ exists f, In f (data_files scenarioData)
     /\ exists u, In u (data_users scenarioData)
                  /\ userKey u = normCNIC (PropertyFile.ownerCNIC f).
Proof.
  assert (H : parseRegistry (fun _ => 0%Z) scenario = Some scenarioData)
    by (vm_compute; reflexivity).
  split; [exact H|].
  destruct (data_files scenarioData) as [|f fs] eqn:E; [discriminate E|].
  exists f. split; [now left|].
  destruct (@imported_accounts_have_one_owner _ _ _ f H) as (u & Hu & Ek & _).
  - rewrite E. now left.
  - exists u. auto.
Defined.

(** X9. Rows and transactions balance: the accounts handed over hold, taken
    together, exactly as many transactions as the text has contributing data
    rows; no row is posted twice and none is lost, and a skipped row posts
    nothing. *)
Theorem one_transaction_per_row (now : nat -> Z) (text : string) (data : ImportData) :
  parseRegistry now text = Some data ->
  list_sum (map (fun f => List.length (PropertyFile.transactions f)) (data_files data))
  = List.length (contributing (headerRow text) (dataRows text)).
Proof.
  intros Hparse.
  destruct (parseRegistry_traced _ _ Hparse) as (um & fm & _ & (_ & _ & _ & Tn) & ->).
  simpl in *. rewrite <- Tn. unfold map_values. now rewrite map_map.
Qed.

Lemma one_transaction_per_row_witness :
  parseRegistry (fun _ => 0%Z) scenario = Some scenarioData
  /\ list_sum (map (fun f => List.length (PropertyFile.transactions f))
                (data_files scenarioData)) = 2%nat.
Proof.
  assert (H : parseRegistry (fun _ => 0%Z) scenario = Some scenarioData)
    by (vm_compute; reflexivity).
  split; [exact H|]. rewrite (one_transaction_per_row _ _ H). reflexivity.
Defined.

Lemma indexed_from_sorted (A : Type) (l : list A) : forall i,
  StronglySorted (fun a b : nat * A => (Z.of_nat (fst a) < Z.of_nat (fst b))%Z)
    (indexed_from i l)
  /\ Forall (fun a => (i <= fst a)%nat) (indexed_from i l).
Proof.
  induction l as [|x l IH]; intros i; simpl; [split; constructor|].
  destruct (IH (S i)) as [Hs Hf]. split.
  - constructor; [exact Hs|]. eapply Forall_impl; [|exact Hf]. simpl. intros a Ha. lia.
  - constructor; [simpl; lia|]. eapply Forall_impl; [|exact Hf]. simpl. intros a Ha. lia.
Qed.

Lemma indexed_from_length (A : Type) (l : list A) : forall i,
  List.length (indexed_from i l) = List.length l.
Proof. induction l as [|x l IH]; intros i; simpl; [reflexivity | now rewrite IH]. Qed.

Lemma indexed_from_bound (A : Type) (l : list A) : forall i r,
  In r (indexed_from i l) -> (i <= fst r < i + List.length l)%nat.
Proof.
  induction l as [|x l IH]; intros i r; simpl; [tauto|].
  intros [<-|H]; [simpl; lia|]. apply IH in H. lia.
Qed.

Lemma StronglySorted_filter (A : Type) (R : A -> A -> Prop) (p : A -> bool) (l : list A) :
  StronglySorted R l -> StronglySorted R (filter p l).
Proof.
  induction 1 as [|x l Hs IH Hf]; simpl; [constructor|].
  destruct (p x); [|exact IH]. constructor; [exact IH|].
  apply Forall_forall. intros y Hy. apply filter_In in Hy.
  rewrite Forall_forall in Hf. now apply Hf.
Qed.

Lemma StronglySorted_map (A B : Type) (R : B -> B -> Prop) (g : A -> B) (l : list A) :
  StronglySorted (fun a b => R (g a) (g b)) l -> StronglySorted R (map g l).
Proof.
  induction 1 as [|x l Hs IH Hf]; simpl; constructor; [exact IH|].
  apply Forall_forall. intros y Hy. apply in_map_iff in Hy. destruct Hy as (a & <- & Ha).
  rewrite Forall_forall in Hf. now apply Hf.
Qed.

(** X10. Within an account the sequence numbers rise strictly along the
    list of transactions, so no two are equal; each is the index of the row
    among the data rows, and the [transid] of a transaction is the clock
    read at that row plus that index. *)
Theorem transactions_in_row_order (now : nat -> Z) (text : string) (data : ImportData)
    (f : PropertyFile.t) :
  parseRegistry now text = Some data ->
  In f (data_files data) ->
  StronglySorted Z.lt (map Transaction.seq (PropertyFile.transactions f))
  /\ Forall (fun t =>
               (0 <= Transaction.seq t < Z.of_nat (List.length (dataRows text)))%Z
               /\ Transaction.transid t
                  = (now (Z.to_nat (Transaction.seq t)) + Transaction.seq t)%Z
               /\ Transaction.itemcode t = PropertyFile.fileNo f
               /\ Transaction.doctotal t = PropertyFile.plotValue f)
       (PropertyFile.transactions f).
Proof.
  intros Hparse Hin.
  destruct (parseRegistry_built _ _ Hparse) as (um & fm & (_ & _ & _ & _ & _ & Hf) & ->).
  simpl in *. apply in_map_values in Hin. destruct Hin as [k Hin].
  destruct (Hf _ _ Hin) as (E1 & E2 & _). rewrite E2. split.
  - rewrite map_map. simpl.
    apply StronglySorted_map with (g := fun r : nat * string => Z.of_nat (fst r)).
    unfold rowsOf, contributing. do 2 apply StronglySorted_filter.
    unfold dataRows. exact (proj1 (indexed_from_sorted _ 0)).
  - apply Forall_forall. intros t Ht. apply in_map_iff in Ht.
    destruct Ht as (r & <- & Hr). simpl. rewrite Nat2Z.id.
    unfold rowsOf, contributing in Hr. apply filter_In in Hr. destruct Hr as [Hr Hcode].
    apply filter_In in Hr. destruct Hr as [Hr _].
    apply String.eqb_eq in Hcode. unfold rowCode in Hcode.
    repeat split; auto; try lia; try congruence.
    unfold dataRows in *. rewrite indexed_from_length.
    apply indexed_from_bound in Hr. lia.
Qed.

Lemma transactions_in_row_order_witness :
  parseRegistry (fun _ => 0%Z) scenario = Some scenarioData
  /\ forall f, In f (data_files scenarioData) ->
       StronglySorted Z.lt (map Transaction.seq (PropertyFile.transactions f)).
Proof.
  assert (H : parseRegistry (fun _ => 0%Z) scenario = Some scenarioData)
    by (vm_compute; reflexivity).
  split; [exact H|]. intros f Hf.
  exact (proj1 (@transactions_in_row_order _ _ _ f H Hf)).
Defined.

(** ** Merging again *)

Section MergeAgain.

Variable V : Type.
Variable key : V -> string.

Lemma jsmap_ext (m1 : jsmap V) : forall m2 : jsmap V,
  NoDup (map_keys m1) -> map_keys m1 = map_keys m2 ->
  (forall k, map_get k m1 = map_get k m2) -> m1 = m2.
Proof.
  induction m1 as [|[k1 v1] m1 IH]; intros [|[k2 v2] m2] Hnd Hk Hg; try discriminate.
  - reflexivity.
  - simpl in Hk. injection Hk as <- Hk. inversion Hnd as [|? ? Hnotin Hnd']; subst.
    pose proof (Hg k1) as H1. simpl in H1. rewrite String.eqb_refl in H1.
    injection H1 as <-. f_equal. apply IH; auto.
    intros k. specialize (Hg k). simpl in Hg.
    destruct (String.eqb k1 k) eqn:E; [|exact Hg].
    apply String.eqb_eq in E. subst k.
    assert (N1 : map_get k1 m1 = None) by now apply map_get_none.
    assert (N2 : map_get k1 m2 = None) by (apply map_get_none; now rewrite <- Hk).
    now rewrite N1, N2.
Qed.

Lemma map_keys_set_present k (v : V) (m : jsmap V) :
  In k (map_keys m) -> map_keys (map_set k v m) = map_keys m.
Proof.
  intros H. rewrite map_keys_set. apply map_has_true in H. now rewrite H.
Qed.

Lemma map_keys_set_all_present l : forall m : jsmap V,
  (forall x, In x l -> In (key x) (map_keys m)) ->
  map_keys (map_set_all (keyed key l) m) = map_keys m.
Proof.
  induction l as [|x l IH]; intros m H; [reflexivity|].
  rewrite map_set_all_cons, IH.
  - apply map_keys_set_present, H. now left.
  - intros y Hy. rewrite map_keys_set_present by (apply H; now left). apply H. now right.
Qed.

Lemma keys_after_set_all l (m : jsmap V) x :
  In x l -> In (key x) (map_keys (map_set_all (keyed key l) m)).
Proof.
  intros H. destruct (in_dec string_dec (key x) (map_keys (map_set_all (keyed key l) m)))
    as [Hin|Hout]; [exact Hin|].
  apply map_get_none in Hout. rewrite map_get_set_all in Hout.
  destruct (lastWith key (key x) l) eqn:E; [discriminate|].
  apply lastWith_none in E. exfalso. apply E. now apply in_map.
Qed.

Lemma map_set_all_again l (m : jsmap V) :
  NoDup (map_keys m) ->
  map_set_all (keyed key l) (map_set_all (keyed key l) m) = map_set_all (keyed key l) m.
Proof.
  intros Hnd. apply jsmap_ext.
  - now do 2 apply NoDup_set_all.
  - apply map_keys_set_all_present. intros x Hx. now apply keys_after_set_all.
  - intros k. rewrite !map_get_set_all. now destruct (lastWith key k l).
Qed.

Lemma keyed_values (m : jsmap V) :
  (forall k v, In (k, v) m -> key v = k) -> keyed key (map_values m) = m.
Proof.
  unfold keyed, map_values. induction m as [|[k v] m IH]; simpl; intros H; [reflexivity|].
  rewrite (H k v) by now left. f_equal. apply IH. intros; apply H; now right.
Qed.

Lemma mergeBy_keyed a b :
  mergeBy key a b
  = map_values (map_set_all (keyed key b) (map_set_all (keyed key a) [])).
Proof. reflexivity. Qed.

(** Merging the same incoming set a second time changes nothing. *)
Lemma mergeBy_again live incoming :
  mergeBy key (mergeBy key live incoming) incoming = mergeBy key live incoming.
Proof.
  rewrite (mergeBy_keyed live incoming).
  set (M0 := map_set_all (keyed key live) (@nil (string * V))).
  set (M1 := map_set_all (keyed key incoming) M0).
  assert (Hnd0 : NoDup (map_keys M0)) by (apply NoDup_set_all; constructor).
  assert (Hnd1 : NoDup (map_keys M1)) by now apply NoDup_set_all.
  assert (Hk1 : forall k v, In (k, v) M1 -> key v = k).
  { apply keyed_set_all. apply keyed_set_all. intros k v []. }
  rewrite mergeBy_keyed, (keyed_values _ Hk1).
  assert (E : map_set_all M1 (@nil (string * V)) = M1).
  { rewrite <- (keyed_values _ Hk1) at 1. rewrite map_set_all_fresh.
    - simpl. apply keyed_values, Hk1.
    - simpl. rewrite map_values_keys by exact Hk1. exact Hnd1. }
  rewrite E. unfold M1. now rewrite map_set_all_again.
Qed.

End MergeAgain.

(** X11. An additive import is idempotent: importing the same entity set a
    second time in additive mode leaves the members and the accounts of the
    first import as they are, in the same order; no record and no
    transaction is doubled. *)
Theorem additive_import_idempotent (Notice Message : Type) (cloudEnabled : bool)
    (jsonClone : forall A : Type, A -> A) (data : ImportData) (o1 o2 : Outcomes)
    (s : App Notice Message) :
  let once := handleMassImport cloudEnabled jsonClone data false o1 s in
  let twice := handleMassImport cloudEnabled jsonClone data false o2 once in
  users twice = users once /\ allFiles twice = allFiles once.
Proof.
  intros once twice.
  destruct (handleMassImport_registry cloudEnabled jsonClone data false o1 s) as [Eu1 Ef1].
  destruct (handleMassImport_registry cloudEnabled jsonClone data false o2 once) as [Eu2 Ef2].
  fold once in Eu1, Ef1. fold twice in Eu2, Ef2.
  rewrite Eu2, Ef2. unfold nextUsers, nextFiles. rewrite Eu1, Ef1.
  unfold nextUsers, nextFiles. split; apply mergeBy_again.
Qed.

(** ** The dashboard figures of [AdminPortal.tsx] *)

Module Stats.
Record t := mk {
  collection : float;
  os : float;
  count : nat;
  users : nat
}.
End Stats.

(** [stats]: [collection += (t.amount_paid || 0)] over the transactions of
    every account, [os += f.balance] over the accounts. *)
Definition stats (users : list User.t) (allFiles : list PropertyFile.t) : Stats.t :=
  let totals :=
    fold_left
      (fun (acc : float * float) (f : PropertyFile.t) =>
         (fold_left (fun (collection : float) (t : Transaction.t) =>
                       (collection + Num.or_zero (Transaction.amount_paid t))%float)
            (PropertyFile.transactions f) (fst acc),
          (snd acc + PropertyFile.balance f)%float))
      allFiles (0%float, 0%float) in
  Stats.mk (fst totals) (snd totals) (List.length allFiles) (List.length users).

Lemma or_zero_idempotent x : Num.or_zero (Num.or_zero x) = Num.or_zero x.
Proof.
  assert (H : Num.or_zero x
              = if PrimFloat.is_nan x || PrimFloat.is_zero x then 0%float else x)
    by reflexivity.
  destruct (PrimFloat.is_nan x || PrimFloat.is_zero x) eqn:E; rewrite H.
  - reflexivity.
  - unfold Num.or_zero. now rewrite E.
Qed.

(** What [parseVal] gives is never a value that [|| 0] would replace by
    another: it is neither [NaN] nor the negative zero. *)
Lemma or_zero_parseVal v : Num.or_zero (parseVal v) = parseVal v.
Proof.
  destruct v as [s|]; [|reflexivity]. rewrite parseVal_unfold.
  destruct (isPlaceholder s); [reflexivity | apply or_zero_idempotent].
Qed.

Lemma fold_left_map_add (A : Type) (g : A -> float) (l : list A) : forall a,
  fold_left PrimFloat.add (map g l) a = fold_left (fun c x => (c + g x)%float) l a.
Proof. induction l as [|x l IH]; intros a; simpl; [reflexivity | apply IH]. Qed.

Lemma collection_fold (txs : list Transaction.t) : forall a,
  Forall (fun t => Num.or_zero (Transaction.amount_paid t) = Transaction.amount_paid t) txs ->
  fold_left (fun c t => (c + Num.or_zero (Transaction.amount_paid t))%float) txs a
  = fold_left PrimFloat.add (map Transaction.amount_paid txs) a.
Proof.
  induction txs as [|t txs IH]; intros a H; simpl; [reflexivity|].
  inversion H as [|? ? Ht Hrest]; subst. rewrite Ht. now apply IH.
Qed.

Lemma stats_collection_fold (files : list PropertyFile.t) : forall c o,
  Forall (fun f => Forall (fun t => Num.or_zero (Transaction.amount_paid t)
                                    = Transaction.amount_paid t)
                     (PropertyFile.transactions f)) files ->
  fst (fold_left
         (fun (acc : float * float) (f : PropertyFile.t) =>
            (fold_left (fun (collection : float) (t : Transaction.t) =>
                          (collection + Num.or_zero (Transaction.amount_paid t))%float)
               (PropertyFile.transactions f) (fst acc),
             (snd acc + PropertyFile.balance f)%float))
         files (c, o))
  = fold_left PrimFloat.add
      (map Transaction.amount_paid (flat_map PropertyFile.transactions files)) c.
Proof.
  induction files as [|f files IH]; intros c o H; simpl; [reflexivity|].
  inversion H as [|? ? Hf Hrest]; subst.
  rewrite IH by exact Hrest. rewrite map_app, fold_left_app.
  now rewrite collection_fold.
Qed.

(** X12. On what an import hands over, the guard [|| 0] of the dashboard
    never fires: the inbound total is the running sum, account after account
    and row after row, of the paid amounts of all transactions, and when
    there is one account it is that account's [paymentReceived]. *)
Theorem stats_of_import (now : nat -> Z) (text : string) (data : ImportData)
    (members : list User.t) :
  parseRegistry now text = Some data ->
  Stats.collection (stats members (data_files data))
  = fold_left PrimFloat.add
      (map Transaction.amount_paid (flat_map PropertyFile.transactions (data_files data)))
      0%float
  /\ Stats.count (stats members (data_files data)) = List.length (data_files data)
  /\ forall f, data_files data = [f] ->
       Stats.collection (stats members (data_files data)) = PropertyFile.paymentReceived f.
Proof.
  intros Hparse.
  destruct (parseRegistry_built _ _ Hparse) as (um & fm & (_ & _ & _ & _ & _ & Hf) & ->).
  simpl data_files.
  assert (Hguard : Forall (fun f => Forall (fun t => Num.or_zero (Transaction.amount_paid t)
                                                     = Transaction.amount_paid t)
                                      (PropertyFile.transactions f)) (map_values fm)).
  { apply Forall_forall. intros f Hin. apply in_map_values in Hin. destruct Hin as [k Hin].
    destruct (Hf _ _ Hin) as (_ & E & _). rewrite E.
    apply Forall_forall. intros t Ht. apply in_map_iff in Ht. destruct Ht as (r & <- & _).
    simpl. apply or_zero_parseVal. }
  assert (Hcol : Stats.collection (stats members (map_values fm))
                 = fold_left PrimFloat.add
                     (map Transaction.amount_paid
                        (flat_map PropertyFile.transactions (map_values fm))) 0%float).
  { unfold stats. simpl Stats.collection. now apply stats_collection_fold. }
  split; [exact Hcol|]. split; [reflexivity|].
  intros f Ef. rewrite Hcol, Ef. simpl. rewrite app_nil_r.
  assert (Hin : In f (map_values fm)) by (rewrite Ef; now left).
  apply in_map_values in Hin. destruct Hin as [k Hin].
  destruct (Hf _ _ Hin) as (_ & E & Ep & _). rewrite Ep, E, map_map. reflexivity.
Qed.

Lemma stats_of_import_witness :
  parseRegistry (fun _ => 0%Z) scenario = Some scenarioData
  /\ Stats.collection (stats [] (data_files scenarioData)) = 1500%float.
Proof.
  assert (H : parseRegistry (fun _ => 0%Z) scenario = Some scenarioData)
    by (vm_compute; reflexivity).
  split; [exact H|].
  rewrite (proj1 (stats_of_import (fun _ => 0%Z) scenario [] H)). reflexivity.
Defined.

(** ** Registration and the identities of the registry *)

(** X13. A registration never removes a member and never changes the raw
    identity of one: the identities of the registry stay as they are, in
    place, and that of the registrant is added after them exactly when no
    member has its normalised identity; a member whose raw identity is not
    the registrant's stays as it is. *)
Theorem registration_keeps_identities (users : list User.t) (u : User.t) :
  map User.cnic (registered users u)
  = map User.cnic users
    ++ (if existsb (fun e => String.eqb (userKey e) (userKey u)) users
        then [] else [User.cnic u])
  /\ (List.length users <= List.length (registered users u))%nat
  /\ forall e, In e users -> User.cnic e <> User.cnic u -> In e (registered users u).
Proof.
  assert (Hfind : find (fun e => String.eqb (userKey e) (userKey u)) users
                  = None
                  <-> existsb (fun e => String.eqb (userKey e) (userKey u)) users = false).
  { induction users as [|x l IH]; simpl; [tauto|].
    destruct (String.eqb (userKey x) (userKey u)); simpl; [split; discriminate | exact IH]. }
  unfold registered.
  destruct (find (fun e => String.eqb (userKey e) (userKey u)) users) as [y|] eqn:F.
  - assert (Ex : existsb (fun e => String.eqb (userKey e) (userKey u)) users = true).
    { destruct (existsb _ users) eqn:E; [reflexivity|].
      destruct Hfind as [_ H2]. discriminate (H2 eq_refl). }
    rewrite Ex, app_nil_r. split; [|split].
    + rewrite map_map. apply map_ext. intros e.
      destruct (String.eqb (User.cnic e) (User.cnic u)) eqn:E; [|reflexivity].
      apply String.eqb_eq in E. simpl. now symmetry.
    + rewrite length_map. lia.
    + intros e He Hne. apply in_map_iff. exists e. split; [|exact He].
      apply String.eqb_neq in Hne. now rewrite Hne.
  - rewrite (proj1 Hfind eq_refl). split; [|split].
    + now rewrite map_app.
    + rewrite length_app. lia.
    + intros e He _. apply in_or_app. now left.
Qed.

Lemma registration_keeps_identities_witness :
  In scenarioMember [scenarioMember]
  /\ User.cnic scenarioMember <> User.cnic claimant
  /\ In scenarioMember (registered [scenarioMember] claimant).
Proof.
  assert (H1 : In scenarioMember [scenarioMember]) by now left.
  assert (H2 : User.cnic scenarioMember <> User.cnic claimant) by discriminate.
  split; [exact H1|]. split; [exact H2|].
  exact (proj2 (proj2 (registration_keeps_identities [scenarioMember] claimant)) _ H1 H2).
Defined.

(** ** Reloading, resetting and failing writes *)

(** [AsyncStorage.clear()]: it has no [catch]; when the database cannot be
    opened or the transaction fails, the store stays as it is. *)
Definition clear (Notice Message : Type) (o : StoreOutcome) (st : Store Notice Message)
    : Store Notice Message :=
  match o with
  | StoreOk => mkStore None None None None
  | _ => st
  end.

(** [window.location.reload()]: the four collections start again from their
    initial [useState([])]; the local store and the mirror are what they
    were. *)
Definition reload (Notice Message : Type) (s : App Notice Message) : App Notice Message :=
  mkApp [] [] [] [] (store s) (cloud s) [] [].

(** [onResetDatabase], as the shell binds it: [AsyncStorage.clear()], then
    the reload; [o] is how the clear has ended when the new page reads the
    store. *)
Definition onResetDatabase (Notice Message : Type) (o : StoreOutcome)
    (s : App Notice Message) : App Notice Message :=
  reload (withStore (clear o (store s)) s).

Section ShellMore.

Variables Notice Message : Type.
Variable MOCK_USERS : list User.t.
Variable MOCK_FILES : list PropertyFile.t.
Variable MOCK_NOTICES : list Notice.
Variable MOCK_MESSAGES : list Message.
Variable cloudEnabled : bool.
Variable jsonClone : forall A : Type, A -> A.

Implicit Types s : App Notice Message.

(** X14. What a mass import has written is what the next start reads: with
    both local writes done, the reads answered and no mirror configured,
    the registry after a reload is the copy of the registry the import
    left, whatever the mode of the import. *)
Theorem import_survives_reload data isDestructive o r s :
  local_users o = StoreOk -> local_files o = StoreOk ->
  read_users r = StoreOk -> read_files r = StoreOk ->
  read_notices r = StoreOk -> read_messages r = StoreOk ->
  cloudEnabled = false ->
  let s1 := handleMassImport cloudEnabled jsonClone data isDestructive o s in
  let s2 := boot MOCK_USERS MOCK_FILES MOCK_NOTICES MOCK_MESSAGES cloudEnabled r (reload s1) in
  users s2 = jsonClone (users s1) /\ allFiles s2 = jsonClone (allFiles s1).
Proof.
  destruct o as [lu lf ru rf]. simpl. intros -> -> Hu Hf Hn Hm Hc.
  unfold boot, localHydrate, remoteRefresh, getItem, handleMassImport, setItem, syncToCloud.
  rewrite Hu, Hf, Hn, Hm, Hc. simpl.
  destruct (stored_notices (store s)), (stored_messages (store s)); simpl; auto.
Qed.

(** X15. The mirror wins when it has rows: with the mirror configured and
    the reads and selects answered, a collection for which the select gives
    at least one row becomes those rows, whatever the local store holds;
    a collection for which it gives none, or no data, keeps what the local
    store or the seed gave; and the two collections are decided apart.  The
    auto-save that the end of the boot releases then writes the collections
    so decided to the local store, the rows of the mirror among them. *)
Theorem boot_remote_refresh r sv s :
  cloudEnabled = true ->
  read_users r = StoreOk -> read_files r = StoreOk ->
  read_notices r = StoreOk -> read_messages r = StoreOk ->
  select_users r <> Rejected -> select_files r <> Rejected ->
  let s' := bootAndSave MOCK_USERS MOCK_FILES MOCK_NOTICES MOCK_MESSAGES cloudEnabled
              jsonClone r sv s in
  let localUsers := match stored_users (store s) with Some v => v | None => MOCK_USERS end in
  let localFiles := match stored_files (store s) with Some v => v | None => MOCK_FILES end in
  users s' = match select_users r with Found (x :: rows) => x :: rows | _ => localUsers end
  /\ allFiles s'
     = match select_files r with Found (x :: rows) => x :: rows | _ => localFiles end
  /\ console s' = console s ++ saveLog sv
  /\ (save_users sv = StoreOk -> stored_users (store s') = Some (jsonClone (users s')))
  /\ (save_files sv = StoreOk -> stored_files (store s') = Some (jsonClone (allFiles s')))
  /\ (save_users sv <> StoreOk -> stored_users (store s') = stored_users (store s))
  /\ (save_files sv <> StoreOk -> stored_files (store s') = stored_files (store s)).
Proof.
  intros Hc Hu Hf Hn Hm Hsu Hsf s'. unfold s', bootAndSave.
  set (b := boot MOCK_USERS MOCK_FILES MOCK_NOTICES MOCK_MESSAGES cloudEnabled r s).
  destruct (autoSave_state jsonClone sv b)
    as (Au & Af & _ & _ & _ & _ & Aco & Asu & Asf & _ & _).
  rewrite Au, Af, Aco, Asu, Asf.
  assert (Hb : users b = match select_users r with
                         | Found (x :: rows) => x :: rows
                         | _ => match stored_users (store s) with
                                | Some v => v
                                | None => MOCK_USERS
                                end
                         end
               /\ allFiles b = match select_files r with
                               | Found (x :: rows) => x :: rows
                               | _ => match stored_files (store s) with
                                      | Some v => v
                                      | None => MOCK_FILES
                                      end
                               end
               /\ store b = store s /\ console b = console s).
  { unfold b, boot, localHydrate, remoteRefresh, getItem. rewrite Hu, Hf, Hn, Hm, Hc.
    destruct (select_users r) as [[|x rows]| |]; try contradiction;
      destruct (select_files r) as [[|y rows']| |]; try contradiction;
      destruct (stored_users (store s)), (stored_files (store s)),
        (stored_notices (store s)), (stored_messages (store s)); simpl; auto. }
  destruct Hb as (Bu & Bf & Bs & Bc). rewrite Bs, Bc.
  split; [exact Bu|]. split; [exact Bf|]. split; [reflexivity|].
  split; [intros ->; reflexivity|]. split; [intros ->; reflexivity|].
  split; intros H; [destruct (save_users sv) | destruct (save_files sv)];
    try reflexivity; contradiction.
Qed.

(** X16. A read that rejects stops the boot before anything is set: the
    collections, the store and the mirror are as they were and the failure
    is logged.  The auto-save that the end of the boot releases then writes
    those collections, which on a new page are empty, over what the store
    holds.  A select that rejects is logged after the local hydration, which
    stays. *)
Theorem boot_failure_is_logged r sv s :
  (read_users r = TxFailed \/ read_files r = TxFailed
   \/ read_notices r = TxFailed \/ read_messages r = TxFailed ->
   boot MOCK_USERS MOCK_FILES MOCK_NOTICES MOCK_MESSAGES cloudEnabled r s
   = consoleError "Registry Boot Failure:" s
   /\ let s' := bootAndSave MOCK_USERS MOCK_FILES MOCK_NOTICES MOCK_MESSAGES cloudEnabled
                  jsonClone r sv s in
      users s' = users s /\ allFiles s' = allFiles s /\ cloud s' = cloud s
      /\ console s' = console s ++ ["Registry Boot Failure:"] ++ saveLog sv
      /\ (save_users sv = StoreOk -> stored_users (store s') = Some (jsonClone (users s)))
      /\ (save_files sv = StoreOk ->
          stored_files (store s') = Some (jsonClone (allFiles s))))
  /\ (cloudEnabled = true ->
      select_users r = Rejected \/ select_files r = Rejected ->
      forall s', localHydrate MOCK_USERS MOCK_FILES MOCK_NOTICES MOCK_MESSAGES r s = Some s' ->
      boot MOCK_USERS MOCK_FILES MOCK_NOTICES MOCK_MESSAGES cloudEnabled r s
      = consoleError "Registry Boot Failure:" s').
Proof.
  split.
  - intros H.
    assert (E : boot MOCK_USERS MOCK_FILES MOCK_NOTICES MOCK_MESSAGES cloudEnabled r s
                = consoleError "Registry Boot Failure:" s).
    { unfold boot, localHydrate, getItem.
      destruct (read_users r), (read_files r), (read_notices r), (read_messages r);
        try (exfalso; destruct H as [H|[H|[H|H]]]; discriminate H);
        destruct (stored_users (store s)), (stored_files (store s)),
          (stored_notices (store s)), (stored_messages (store s)); reflexivity. }
    split; [exact E|]. cbv zeta. unfold bootAndSave. rewrite E.
    destruct (autoSave_state jsonClone sv (consoleError "Registry Boot Failure:" s))
      as (Au & Af & _ & _ & Ac & _ & Aco & Asu & Asf & _ & _).
    rewrite Au, Af, Ac, Aco, Asu, Asf. simpl.
    repeat split; try (now rewrite <- app_assoc); intros ->; reflexivity.
  - intros Hc H s' Hs'. unfold boot. rewrite Hs'. unfold remoteRefresh. rewrite Hc. simpl.
    destruct H as [-> | ->]; simpl; [reflexivity|].
    now rewrite orb_true_r.
Qed.

(** X17. A local write that fails leaves the import half done.  When the
    transaction of the first write fails, the import sets the new registry
    in memory and stops: it stores nothing, sends nothing to the mirror and
    logs nothing.  When the database cannot be opened, the import logs the
    two failures as critical, stores nothing, and still sends both
    collections to the mirror.  Either way the auto-save that follows tries
    the writes again: the new registry is stored where its writes are done,
    and the store is as it was, with one more critical line for each write,
    where the database still cannot be opened. *)
Theorem local_write_failure data isDestructive ru rf sv s :
  let nUsers := nextUsers data isDestructive s in
  let nFiles := nextFiles data isDestructive s in
  (forall lf,
     let s' := handleMassImport cloudEnabled jsonClone data isDestructive
                 (mkOutcomes TxFailed lf ru rf) s in
     let s'' := autoSave jsonClone sv s' in
     s' = setAllFiles nFiles (setUsers nUsers s)
     /\ users s'' = nUsers /\ allFiles s'' = nFiles /\ cloud s'' = cloud s
     /\ console s'' = console s ++ saveLog sv
     /\ stored_users (store s'') = written jsonClone (save_users sv) nUsers
                                     (stored_users (store s))
     /\ stored_files (store s'') = written jsonClone (save_files sv) nFiles
                                     (stored_files (store s)))
  /\ (cloudEnabled = true ->
      let s' := handleMassImport cloudEnabled jsonClone data isDestructive
                  (mkOutcomes DbUnavailable DbUnavailable Acked Acked) s in
      let s'' := autoSave jsonClone sv s' in
      users s' = nUsers /\ allFiles s' = nFiles /\ store s' = store s
      /\ console s' = console s ++ ["Critical Persistence Error:";
                                    "Critical Persistence Error:"]
      /\ cloud s' = cloud s ++ [("profiles", UserRows (jsonClone nUsers));
                                ("property_files", FileRows (jsonClone nFiles))]
      /\ users s'' = nUsers /\ allFiles s'' = nFiles /\ cloud s'' = cloud s'
      /\ console s'' = console s' ++ saveLog sv
      /\ stored_users (store s'') = written jsonClone (save_users sv) nUsers
                                      (stored_users (store s))
      /\ stored_files (store s'') = written jsonClone (save_files sv) nFiles
                                      (stored_files (store s))
      /\ (sv = mkSaves DbUnavailable DbUnavailable DbUnavailable DbUnavailable ->
          store s'' = store s)).
Proof.
  intros nUsers nFiles. split.
  - intros lf s' s''.
    assert (E : s' = setAllFiles nFiles (setUsers nUsers s)) by reflexivity.
    split; [exact E|].
    destruct (autoSave_state jsonClone sv s')
      as (Au & Af & _ & _ & Ac & _ & Aco & Asu & Asf & _ & _).
    fold s'' in Au, Af, Ac, Aco, Asu, Asf. rewrite Au, Af, Ac, Aco, Asu, Asf, E.
    repeat split.
  - intros Hc s' s''.
    assert (E : users s' = nUsers /\ allFiles s' = nFiles /\ store s' = store s
                /\ console s' = console s ++ ["Critical Persistence Error:";
                                              "Critical Persistence Error:"]
                /\ cloud s' = cloud s ++ [("profiles", UserRows (jsonClone nUsers));
                                          ("property_files", FileRows (jsonClone nFiles))]).
    { unfold s', handleMassImport, setItem, syncToCloud. rewrite Hc. simpl.
      repeat split; now rewrite <- app_assoc. }
    destruct E as (Eu & Ef & Es & Eco & Ecl).
    destruct (autoSave_state jsonClone sv s')
      as (Au & Af & _ & _ & Ac & _ & Aco & Asu & Asf & _ & _).
    fold s'' in Au, Af, Ac, Aco, Asu, Asf.
    do 5 (split; [assumption|]).
    rewrite Au, Af, Ac, Aco, Asu, Asf, Eu, Ef, Es. repeat split.
    intros ->. unfold s'', autoSave, setItem. simpl. exact Es.
Qed.

(** X18. A reset purges the local store and nothing else.  When the clear
    has taken effect and the reads are answered, the next start takes all
    four collections from the seed data if no mirror is configured; the
    mirror is never purged, so with a mirror that holds members the members
    after the reset are the mirror's. *)
Theorem reset_reseeds o r s :
  read_users r = StoreOk -> read_files r = StoreOk ->
  read_notices r = StoreOk -> read_messages r = StoreOk ->
  let s' := boot MOCK_USERS MOCK_FILES MOCK_NOTICES MOCK_MESSAGES cloudEnabled r
              (onResetDatabase StoreOk s) in
  cloud (onResetDatabase o s) = cloud s
  /\ (cloudEnabled = false ->
      users s' = MOCK_USERS /\ allFiles s' = MOCK_FILES
      /\ notices s' = MOCK_NOTICES /\ messages s' = MOCK_MESSAGES)
  /\ (cloudEnabled = true ->
      forall x rows, select_users r = Found (x :: rows) -> select_files r <> Rejected ->
                     users s' = x :: rows).
Proof.
  intros Hu Hf Hn Hm. split; [reflexivity|].
  unfold boot, localHydrate, remoteRefresh, getItem, onResetDatabase, reload, clear.
  rewrite Hu, Hf, Hn, Hm. simpl. split.
  - intros ->. simpl. auto.
  - intros -> x rows -> Hsf. simpl.
    destruct (select_files r) as [[|y rows']| |]; try contradiction; reflexivity.
Qed.

End ShellMore.

Lemma import_survives_reload_witness :
  local_users allOk = StoreOk /\ local_files allOk = StoreOk
  /\ read_users plainReads = StoreOk /\ read_files plainReads = StoreOk
  /\ read_notices plainReads = StoreOk /\ read_messages plainReads = StoreOk
  /\ false = false
  /\ allFiles (boot [] [] [] [] false plainReads
                 (reload (handleMassImport false plainClone secondData false allOk liveShell)))
     = allFiles liveShell ++ data_files secondData.
Proof.
  do 7 (split; [reflexivity|]).
  rewrite (proj2 (@import_survives_reload unit unit [] [] [] [] false plainClone secondData
                    false allOk plainReads liveShell eq_refl eq_refl eq_refl eq_refl
                    eq_refl eq_refl eq_refl)).
  reflexivity.
Defined.

(** The reads of a boot that finds the mirror holding the scenario's member. *)
Definition mirrorReads : BootReads :=
  mkBootReads StoreOk StoreOk StoreOk StoreOk (Found (data_users scenarioData)) (Found []).

Lemma boot_remote_refresh_witness :
  true = true
  /\ select_users mirrorReads <> Rejected /\ select_files mirrorReads <> Rejected
  /\ save_users savesOk = StoreOk
  /\ users (bootAndSave [memberLower] [] (@nil unit) (@nil unit) true plainClone mirrorReads
              savesOk (mkApp [] [] [] [] emptyStore [] [] []))
     = data_users scenarioData
  /\ stored_users
       (store (bootAndSave [memberLower] [] (@nil unit) (@nil unit) true plainClone
                 mirrorReads savesOk (mkApp [] [] [] [] emptyStore [] [] [])))
     = Some (data_users scenarioData).
Proof.
  assert (H1 : select_users mirrorReads <> Rejected) by discriminate.
  assert (H2 : select_files mirrorReads <> Rejected) by discriminate.
  split; [reflexivity|]. split; [exact H1|]. split; [exact H2|]. split; [reflexivity|].
  pose proof (@boot_remote_refresh unit unit [memberLower] [] [] [] true plainClone
                mirrorReads savesOk (mkApp [] [] [] [] emptyStore [] [] [])
                eq_refl eq_refl eq_refl eq_refl eq_refl H1 H2) as H.
  cbv zeta in H. destruct H as (Hu & _ & _ & Hs & _).
  split; [exact Hu|]. rewrite (Hs eq_refl), Hu. reflexivity.
Defined.

(** The reads of a boot whose read of the accounts rejects. *)
Definition brokenReads : BootReads :=
  mkBootReads StoreOk TxFailed StoreOk StoreOk Absent Absent.

(** The new page after an import: the store holds the registry. *)
Definition reloaded : App unit unit :=
  reload (handleMassImport false plainClone secondData false allOk liveShell).

Lemma boot_failure_is_logged_witness :
  (read_users brokenReads = TxFailed \/ read_files brokenReads = TxFailed
   \/ read_notices brokenReads = TxFailed \/ read_messages brokenReads = TxFailed)
  /\ save_files savesOk = StoreOk
  /\ stored_files (store reloaded) = Some (allFiles liveShell ++ data_files secondData)
  /\ boot [memberLower] [] (@nil unit) (@nil unit) false brokenReads reloaded
     = consoleError "Registry Boot Failure:" reloaded
  /\ stored_files
       (store (bootAndSave [memberLower] [] (@nil unit) (@nil unit) false plainClone
                 brokenReads savesOk reloaded))
     = Some [].
Proof.
  assert (H : read_users brokenReads = TxFailed \/ read_files brokenReads = TxFailed
              \/ read_notices brokenReads = TxFailed \/ read_messages brokenReads = TxFailed)
    by (right; left; reflexivity).
  split; [exact H|]. split; [reflexivity|]. split; [reflexivity|].
  destruct (proj1 (@boot_failure_is_logged unit unit [memberLower] [] [] [] false plainClone
                     brokenReads savesOk reloaded) H) as (E & Hs).
  cbv zeta in Hs. destruct Hs as (_ & _ & _ & _ & _ & Hf).
  split; [exact E|]. exact (Hf eq_refl).
Defined.

Lemma local_write_failure_witness :
  true = true
  /\ store (handleMassImport true plainClone secondData false
              (mkOutcomes DbUnavailable DbUnavailable Acked Acked) liveShell)
     = store liveShell
  /\ stored_files
       (store (autoSave plainClone savesOk
                 (handleMassImport true plainClone secondData false
                    (mkOutcomes DbUnavailable DbUnavailable Acked Acked) liveShell)))
     = Some (allFiles liveShell ++ data_files secondData).
Proof.
  split; [reflexivity|].
  pose proof (proj2 (@local_write_failure unit unit true plainClone secondData false
                       Acked Acked savesOk liveShell) eq_refl) as H.
  cbv zeta in H. destruct H as (_ & _ & Hs & _ & _ & _ & _ & _ & _ & _ & Hf & _).
  split; [exact Hs|]. rewrite Hf. reflexivity.
Defined.

Lemma reset_reseeds_witness :
  read_users plainReads = StoreOk /\ read_files plainReads = StoreOk
  /\ read_notices plainReads = StoreOk /\ read_messages plainReads = StoreOk
  /\ users (boot [memberLower] [] (@nil unit) (@nil unit) false plainReads
              (onResetDatabase StoreOk liveShell))
     = [memberLower].
Proof.
  do 4 (split; [reflexivity|]).
  pose proof (@reset_reseeds unit unit [memberLower] [] [] [] false StoreOk plainReads
                liveShell eq_refl eq_refl eq_refl eq_refl) as H.
  cbv zeta in H. exact (proj1 (proj1 (proj2 H) eq_refl)).
Defined.

Lemma too_few_lines_rejected_witness :
  let text := ("ocnic,itemcode" ++ String Js.LF (Js.bytes [194; 160; 32]))%string in
  (List.length (nonEmptyLines text) < 2)%nat
  /\ handleMasterSync false plainClone (fun _ => 0%Z) text allOk liveShell
     = alert "Format Error: Verify CSV headers match SAP standard." liveShell.
Proof.
  cbv zeta.
  assert (H : (List.length
                 (nonEmptyLines ("ocnic,itemcode" ++ String Js.LF (Js.bytes [194; 160; 32]))%string)
               < 2)%nat) by (vm_compute; lia).
  split; [exact H|].
  exact (@too_few_lines_rejected unit unit false plainClone (fun _ => 0%Z)
           ("ocnic,itemcode" ++ String Js.LF (Js.bytes [194; 160; 32]))%string
           allOk liveShell H).
Defined.

(** ** Line endings and blank lines *)

Definition lineChar (c : ascii) : bool :=
  negb (Ascii.eqb c Js.LF) && negb (Ascii.eqb c Js.CR).

Definition CRLF : string := String Js.CR (String Js.LF "").

Lemma split_lines_from_line l : forall cur rest,
  every lineChar l = true ->
  Js.split_lines_from cur (l ++ rest) = Js.split_lines_from (cur ++ l) rest.
Proof.
  induction l as [|c l IH]; intros cur rest H; simpl.
  - now rewrite str_app_nil_r.
  - simpl in H. apply andb_true_iff in H. destruct H as [Hc Hl].
    unfold lineChar in Hc. apply andb_true_iff in Hc. destruct Hc as [H1 H2].
    apply negb_true_iff in H1, H2. rewrite H1, H2. simpl.
    rewrite IH by exact Hl. now rewrite str_app_assoc.
Qed.

Lemma split_lines_from_sep (sep : string) :
  (forall cur rest,
     Js.split_lines_from cur (sep ++ rest) = cur :: Js.split_lines_from "" rest) ->
  forall lines l cur,
    Forall (fun x => every lineChar x = true) (l :: lines) ->
    Js.split_lines_from cur (String.concat sep (l :: lines)) = (cur ++ l)%string :: lines.
Proof.
  intros Hsep lines. induction lines as [|l2 lines IH]; intros l cur H.
  - simpl. inversion H as [|? ? Hl _]; subst.
    rewrite <- (str_app_nil_r l) at 1. rewrite split_lines_from_line by exact Hl.
    reflexivity.
  - inversion H as [|? ? Hl Hrest]; subst.
    change (String.concat sep (l :: l2 :: lines))
      with (l ++ sep ++ String.concat sep (l2 :: lines))%string.
    rewrite split_lines_from_line by exact Hl. rewrite Hsep.
    now rewrite IH.
Qed.

(** X19. Lines joined with line feeds, or with carriage return and line
    feed, are split back as they were; so the two kinds of line ending give
    the same import, and so do two texts that differ only in blank lines,
    sequence numbers included. *)
Theorem line_endings_and_blank_lines (lines : list string) :
  lines <> [] ->
  Forall (fun l => every lineChar l = true) lines ->
  Js.split_lines (String.concat (String Js.LF "") lines) = lines
  /\ Js.split_lines (String.concat CRLF lines) = lines
  /\ (forall now,
        Js.stripBOM (String.concat (String Js.LF "") lines)
        = String.concat (String Js.LF "") lines ->
        Js.stripBOM (String.concat CRLF lines) = String.concat CRLF lines ->
        parseRegistry now (String.concat CRLF lines)
        = parseRegistry now (String.concat (String Js.LF "") lines))
  /\ (forall now lines',
        lines' <> [] ->
        Forall (fun l => every lineChar l = true) lines' ->
        Js.stripBOM (String.concat (String Js.LF "") lines)
        = String.concat (String Js.LF "") lines ->
        Js.stripBOM (String.concat (String Js.LF "") lines')
        = String.concat (String Js.LF "") lines' ->
        filter (fun l => negb (Js.is_empty (Js.trim l))) lines'
        = filter (fun l => negb (Js.is_empty (Js.trim l))) lines ->
        parseRegistry now (String.concat (String Js.LF "") lines')
        = parseRegistry now (String.concat (String Js.LF "") lines)).
Proof.
  assert (HLF : forall ls, ls <> [] -> Forall (fun l => every lineChar l = true) ls ->
                  Js.split_lines (String.concat (String Js.LF "") ls) = ls).
  { intros [|l ls] Hne H; [contradiction|]. unfold Js.split_lines.
    rewrite split_lines_from_sep; [reflexivity | reflexivity | exact H]. }
  assert (HCR : forall ls, ls <> [] -> Forall (fun l => every lineChar l = true) ls ->
                  Js.split_lines (String.concat CRLF ls) = ls).
  { intros [|l ls] Hne H; [contradiction|]. unfold Js.split_lines.
    rewrite split_lines_from_sep; [reflexivity | reflexivity | exact H]. }
  intros Hne H. split; [now apply HLF|]. split; [now apply HCR|]. split.
  - intros now B1 B2. unfold parseRegistry, nonEmptyLines.
    now rewrite B1, B2, HLF, HCR.
  - intros now lines' Hne' H' B B' E. unfold parseRegistry, nonEmptyLines.
    now rewrite B, B', !HLF, E.
Qed.

Definition scenarioLines : list string :=
  ["OCNIC,OName,ItemCode,DocTotal,ReconSum,BalDueDeb";
   "12345-6789012-3,Ali,P-001,5000,1000,200";
   "12345-6789012-3,Ali,P-001,5000,500,100"].

Lemma line_endings_and_blank_lines_witness :
  scenarioLines <> []
  /\ Forall (fun l => every lineChar l = true) scenarioLines
  /\ Js.split_lines (String.concat CRLF scenarioLines) = scenarioLines.
Proof.
  assert (H1 : scenarioLines <> []) by discriminate.
  assert (H2 : Forall (fun l => every lineChar l = true) scenarioLines)
    by (repeat constructor).
  split; [exact H1|]. split; [exact H2|].
  exact (proj1 (proj2 (line_endings_and_blank_lines H1 H2))).
Defined.
